(** * Kasparro ETL backend: ingestion pipeline engine

    A shallow embedding of the ingestion core of the repository
    (src/ingestion, src/services, src/core/config.py) and of the
    endpoint that reads the normalized data (src/main.py), together with
    theorems about the behaviour its specification describes.

    Conventions of the embedding.
    - Python [int] is [Z]; Python [float] and [Decimal] are exact rationals
      [Q] (rounding, overflow, NaN and infinities of binary64 are not
      represented); [str] is [string] and [str.upper] acts on ASCII letters.
    - JSON payloads and Python dicts with string keys are association lists.
    - Python sets are [gset string]; their iteration order is the one of
      [elements], about which nothing is assumed.
    - [async] methods are programs of the type [Prog]: a tree of calls to
      the collaborators (database service, HTTP session, clock, sleep,
      file system).  A program is run against a handler that answers every
      call; a fallible call is answered by a value or by an exception.
    - Calls to [logger] have no effect on the results and are left out. *)

From Stdlib Require Import ZArith QArith Qround Qminmax Qpower.
From Stdlib Require Import String Ascii List Lia DecimalString.
From stdpp Require Import base gmap sets list strings.
Import ListNotations.
Local Open Scope string_scope.
Set Warnings "-register-all,-clear-no-such-hyp".

(* ================================================================== *)
(** * Python values *)
(* ================================================================== *)

(** Exceptions, by class.  All of them derive from [Exception]. *)
Inductive exn : Type :=
| Exception (msg : string)
| ValueError (msg : string)
| TypeError (msg : string)
| AttributeError (msg : string)
| ZeroDivisionError (msg : string)
| ValidationError (msg : string)      (* pydantic.ValidationError *)
| InvalidOperation (msg : string)     (* decimal.InvalidOperation *)
| ClientError (msg : string)          (* aiohttp.ClientError and subclasses *)
| OSError (msg : string)
| DatabaseError (msg : string).       (* asyncpg.PostgresError and the like *)

(** [str(e)] *)
Definition str_exn (e : exn) : string :=
  match e with
  | Exception m | ValueError m | TypeError m | AttributeError m
  | ZeroDivisionError m | ValidationError m | InvalidOperation m
  | ClientError m | OSError m | DatabaseError m => m
  end.

(** [isinstance(e, aiohttp.ClientError)] *)
Definition is_client_error (e : exn) : bool :=
  match e with ClientError _ => true | _ => false end.

(** [isinstance(e, pydantic.ValidationError)] *)
Definition is_validation_error (e : exn) : bool :=
  match e with ValidationError _ => true | _ => false end.

Inductive value : Type :=
| VNone
| VBool (b : bool)
| VInt (z : Z)
| VFloat (q : Q)
| VStr (s : string)
| VList (l : list value)
| VDict (d : list (string * value)).

(** A dict with string keys, in insertion order. *)
Abbreviation Dict := (list (string * value)).

(** [d.get(key)], [None] when the key is absent. *)
Fixpoint dict_lookup (d : Dict) (key : string) : option value :=
  match d with
  | [] => None
  | (k, v) :: rest => if String.eqb k key then Some v else dict_lookup rest key
  end.

(** [d.get(key, default)] *)
Definition dict_get (d : Dict) (key : string) (default : value) : value :=
  match dict_lookup d key with Some v => v | None => default end.

(** [d.keys()] *)
Definition dict_keys (d : Dict) : list string := map fst d.

(** Truth value of an object, as [bool(v)] and [v or w] compute it. *)
Definition truthy (v : value) : bool :=
  match v with
  | VNone => false
  | VBool b => b
  | VInt z => negb (z =? 0)%Z
  | VFloat q => negb (Qeq_bool q 0)
  | VStr s => negb (String.eqb s "")
  | VList l => match l with [] => false | _ => true end
  | VDict d => match d with [] => false | _ => true end
  end.

(** [v or w] *)
Definition py_or (v w : value) : value := if truthy v then v else w.

(** [type(v).__name__] *)
Definition type_name (v : value) : string :=
  match v with
  | VNone => "NoneType"
  | VBool _ => "bool"
  | VInt _ => "int"
  | VFloat _ => "float"
  | VStr _ => "str"
  | VList _ => "list"
  | VDict _ => "dict"
  end.

(** The classes that occur in the expected schemas. *)
Inductive pytype : Type := t_str | t_int | t_float | t_dict.

(** [isinstance(v, t)].  [bool] is a subclass of [int]. *)
Definition isinstance (v : value) (t : pytype) : bool :=
  match t, v with
  | t_str, VStr _ => true
  | t_int, VInt _ => true
  | t_int, VBool _ => true
  | t_float, VFloat _ => true
  | t_dict, VDict _ => true
  | _, _ => false
  end.

(** [c.upper()] on one character. *)
Definition upper_ascii (c : ascii) : ascii :=
  let n := nat_of_ascii c in
  if (97 <=? n)%nat && (n <=? 122)%nat then ascii_of_nat (n - 32) else c.

(** [s.upper()] *)
Fixpoint upper (s : string) : string :=
  match s with
  | EmptyString => EmptyString
  | String c rest => String (upper_ascii c) (upper rest)
  end.

(** [min(a, b)]: the first argument unless the second is smaller. *)
Definition py_min (a b : Q) : Q := if Qle_bool a b then a else b.

(** [str(z)] for an int. *)
Definition str_int (z : Z) : string := NilZero.string_of_int (Z.to_int z).

(** [len(l)] *)
Definition len {A} (l : list A) : Z := Z.of_nat (length l).

(** Position of a slice bound in a sequence of length [n]. *)
Definition slice_index (n i : Z) : Z :=
  if (i <? 0)%Z then Z.max (i + n) 0 else Z.min i n.

(** [l[lo:hi]] *)
Definition py_slice {A} (l : list A) (lo hi : Z) : list A :=
  let lo' := slice_index (len l) lo in
  let hi' := slice_index (len l) hi in
  take (Z.to_nat (hi' - lo')) (drop (Z.to_nat lo') l).

(** [range(start, stop, step)]; a zero step is a [ValueError]. *)
Definition py_range (start stop step : Z) : exn + list Z :=
  if (step =? 0)%Z then inl (ValueError "range() arg 3 must not be zero")
  else
    let n := if (0 <? step)%Z
             then ((stop - start + step - 1) / step)%Z
             else ((start - stop - step - 1) / (- step))%Z in
    inr (map (fun k => (start + Z.of_nat k * step)%Z) (seq 0 (Z.to_nat n))).

(** The functions of Python that read a number out of a string:
    [float(s)], [int(s)] and [Decimal(s)]. *)
Class NumericLiterals := {
  parse_float : string -> option Q;
  parse_int : string -> option Z;
  parse_decimal : string -> option Q
}.

Section Conversions.
Context {lit : NumericLiterals}.

(** [float(v)] *)
Definition py_float (v : value) : exn + Q :=
  match v with
  | VBool b => inr (if b then 1 else 0)%Q
  | VInt z => inr (inject_Z z)
  | VFloat q => inr q
  | VStr s => match parse_float s with
              | Some q => inr q
              | None => inl (ValueError "could not convert string to float")
              end
  | _ => inl (TypeError "float() argument must be a string or a real number")
  end.

(** Truncation toward zero, as [int] does on a float. *)
Definition Qtrunc (q : Q) : Z :=
  if Qle_bool 0 q then Qfloor q else Qceiling q.

(** [int(v)] *)
Definition py_int (v : value) : exn + Z :=
  match v with
  | VBool b => inr (if b then 1 else 0)%Z
  | VInt z => inr z
  | VFloat q => inr (Qtrunc q)
  | VStr s => match parse_int s with
              | Some z => inr z
              | None => inl (ValueError "invalid literal for int()")
              end
  | _ => inl (TypeError "int() argument must be a string or a real number")
  end.

(** [Decimal(str(v))] *)
Definition decimal_of_str (v : value) : exn + Q :=
  match v with
  | VInt z => inr (inject_Z z)
  | VFloat q => inr q
  | VStr s => match parse_decimal s with
              | Some q => inr q
              | None => inl (InvalidOperation "ConversionSyntax")
              end
  | _ => inl (InvalidOperation "ConversionSyntax")
  end.

(** Validation of one field by a pydantic model (lax mode). *)
Definition validate_str (field : string) (v : value) : exn + string :=
  match v with
  | VStr s => inr s
  | _ => inl (ValidationError field)
  end.

Definition validate_int (field : string) (v : value) : exn + Z :=
  match v with
  | VInt z => inr z
  | VBool b => inr (if b then 1 else 0)%Z
  | VFloat q => if Qeq_bool q (inject_Z (Qfloor q)) then inr (Qfloor q)
                else inl (ValidationError field)
  | VStr s => match parse_int s with
              | Some z => inr z
              | None => inl (ValidationError field)
              end
  | _ => inl (ValidationError field)
  end.

Definition validate_float (field : string) (v : value) : exn + Q :=
  match v with
  | VInt z => inr (inject_Z z)
  | VBool b => inr (if b then 1 else 0)%Q
  | VFloat q => inr q
  | VStr s => match parse_float s with
              | Some q => inr q
              | None => inl (ValidationError field)
              end
  | _ => inl (ValidationError field)
  end.

Definition validate_dict (field : string) (v : value) : exn + Dict :=
  match v with
  | VDict d => inr d
  | _ => inl (ValidationError field)
  end.

(** A required field of a model built from the keys of the item. *)
Definition required {A} (validate : string -> value -> exn + A)
    (item : Dict) (field : string) : exn + A :=
  match dict_lookup item field with
  | Some v => validate field v
  | None => inl (ValidationError field)
  end.
End Conversions.

(* ================================================================== *)
(** * core/config.py *)
(* ================================================================== *)

(** The fields of [Settings] that the ingestion core reads. *)
Record Settings := {
  COINPAPRIKA_API_KEY : option string;
  COINGECKO_API_KEY : option string;
  ETL_MAX_RETRIES : Z;
  RATE_LIMIT_ENABLED : bool;
  COINPAPRIKA_RATE_LIMIT : Z;
  COINGECKO_RATE_LIMIT : Z;
  BACKOFF_BASE_DELAY : Q;
  BACKOFF_MAX_DELAY : Q;
  BACKOFF_FACTOR : Q;
  CHECKPOINT_ENABLED : bool;
  CHECKPOINT_INTERVAL : Z;
  SCHEMA_DRIFT_ENABLED : bool;
  SCHEMA_DRIFT_THRESHOLD : Q;
  CSV_FILE_PATH : string
}.

(** The values of the class body, used when the environment sets none. *)
Definition default_settings : Settings := {|
  COINPAPRIKA_API_KEY := None;
  COINGECKO_API_KEY := None;
  ETL_MAX_RETRIES := 3;
  RATE_LIMIT_ENABLED := true;
  COINPAPRIKA_RATE_LIMIT := 25;
  COINGECKO_RATE_LIMIT := 50;
  BACKOFF_BASE_DELAY := 1;
  BACKOFF_MAX_DELAY := 60;
  BACKOFF_FACTOR := 2;
  CHECKPOINT_ENABLED := true;
  CHECKPOINT_INTERVAL := 50;
  SCHEMA_DRIFT_ENABLED := true;
  SCHEMA_DRIFT_THRESHOLD := 8 # 10;
  CSV_FILE_PATH := "/app/data/crypto_data.csv"
|}.

(* ================================================================== *)
(** * Data model *)
(* ================================================================== *)

(** A [datetime], in microseconds. *)
Abbreviation timestamp := Z (only parsing).

(** The dict that every [transform] builds for one item. *)
Record NormalizedRecord := {
  source : string;
  symbol : string;
  name : string;
  price_usd : Q;
  market_cap_usd : Q;
  volume_24h_usd : Q;
  percent_change_24h : Q;
  rank : Z;
  last_updated : timestamp;
  raw_data : Dict
}.

(** The dict that [get_last_checkpoint] returns. *)
Record Checkpoint := {
  data : Dict;
  records_processed : Z
}.

(** An entry of an expected schema: a class or a tuple of classes. *)
Inductive type_spec : Type :=
| Single (t : pytype)
| AnyOf (ts : list pytype).

Abbreviation Schema := (list (string * type_spec)).

(** The warnings of the drift detector, by the values each message
    interpolates. *)
Inductive Warning : Type :=
| FieldRename (missing_key : string) (best_match : option string) (best_score : Q)
| TypeMismatch (key : string) (expected_type : type_spec) (got : string).

(** The response of [session.get]: the status and what [json()] gives. *)
Record HttpResponse := {
  status : Z;
  json : exn + list Dict
}.

(** The dict that [BasePipeline.run] returns.  [duration] is in
    microseconds. *)
Record RunResult := {
  run_status : string;
  run_records_processed : Z;
  run_duration : Z
}.

(* ================================================================== *)
(** * Programs over the collaborators *)
(* ================================================================== *)

(** The calls a pipeline makes to the outside. *)
Inductive Cmd : Type :=
| DatetimeNow
| Sleep (seconds : Q)
| HttpGet (url : string) (headers : Dict) (params : Dict)
| PathExists (path : string)
| CreateSampleCsv (path : string) (rows : list Dict)
| ReadCsv (path : string)
| GetLastCheckpoint (src : string)
| SaveRawData (src : string) (items : list Dict) (source_ids : list string)
| SaveNormalizedData (records : list NormalizedRecord)
| SaveCheckpoint (src : string) (checkpoint_data : Dict) (processed : Z)
| MarkCheckpointCompleted (src : string)
| LogRun (src : string) (status_ : string) (records : Z)
         (start_time : timestamp) (end_time : option timestamp)
         (error : option string) (metadata : option Dict)
| LogSchemaDrift (src : string) (expected : Schema)
                 (actual : list (string * string)) (confidence : Q)
                 (warnings : list Warning).

(** What a call is answered with.  The clock, [asyncio.sleep] and
    [os.path.exists] always answer; the other calls may raise. *)
Definition Reply (c : Cmd) : Type :=
  match c with
  | DatetimeNow => timestamp
  | Sleep _ => unit
  | PathExists _ => bool
  | HttpGet _ _ _ => exn + HttpResponse
  | ReadCsv _ => exn + list Dict
  | GetLastCheckpoint _ => exn + option Checkpoint
  | _ => exn + unit
  end.

(** The exception of an answer, if it is one. *)
Definition raised {A} (r : exn + A) : option exn :=
  match r with inl e => Some e | inr _ => None end.

Definition reply_raised (c : Cmd) : Reply c -> option exn :=
  match c return Reply c -> option exn with
  | DatetimeNow => fun _ => None
  | Sleep _ => fun _ => None
  | PathExists _ => fun _ => None
  | HttpGet _ _ _ => raised
  | ReadCsv _ => raised
  | GetLastCheckpoint _ => raised
  | CreateSampleCsv _ _ => raised
  | SaveRawData _ _ _ => raised
  | SaveNormalizedData _ => raised
  | SaveCheckpoint _ _ _ => raised
  | MarkCheckpointCompleted _ => raised
  | LogRun _ _ _ _ _ _ _ => raised
  | LogSchemaDrift _ _ _ _ _ => raised
  end.

(** A program returns a value, raises an exception, or makes a call and
    goes on with the answer. *)
Inductive Prog (A : Type) : Type :=
| Ret (a : A)
| Raise (e : exn)
| Do (c : Cmd) (k : Reply c -> Prog A).

Arguments Ret {A} a.
Arguments Raise {A} e.
Arguments Do {A} c k.

Fixpoint bind {A B} (p : Prog A) (f : A -> Prog B) : Prog B :=
  match p with
  | Ret a => f a
  | Raise e => Raise e
  | Do c k => Do c (fun r => bind (k r) f)
  end.

#[global] Instance Prog_ret : MRet Prog := @Ret.
#[global] Instance Prog_bind : MBind Prog := fun A B f p => bind p f.
#[global] Instance Prog_throw : MThrow exn Prog := @Raise.

(** [try: p  except Exception as e: handler(e)] *)
Fixpoint try_except {A} (p : Prog A) (handler : exn -> Prog A) : Prog A :=
  match p with
  | Ret a => Ret a
  | Raise e => handler e
  | Do c k => Do c (fun r => try_except (k r) handler)
  end.

(** A pure computation that may raise. *)
Definition lift {A} (r : exn + A) : Prog A :=
  match r with inl e => Raise e | inr a => Ret a end.

(** A call whose exception, if any, is raised in the caller. *)
Definition await {A} (c : Cmd) (unpack : Reply c -> exn + A) : Prog A :=
  Do c (fun r => lift (unpack r)).

Definition datetime_now : Prog timestamp := Do DatetimeNow Ret.
Definition asyncio_sleep (seconds : Q) : Prog unit := Do (Sleep seconds) Ret.
Definition path_exists (path : string) : Prog bool := Do (PathExists path) Ret.
Definition session_get (url : string) (headers params : Dict) : Prog HttpResponse :=
  await (HttpGet url headers params) id.
Definition read_csv (path : string) : Prog (list Dict) :=
  await (ReadCsv path) id.
Definition write_sample_csv (path : string) (rows : list Dict) : Prog unit :=
  await (CreateSampleCsv path rows) id.

(** The methods of the database service, as the pipelines call them. *)
Module db.
Definition get_last_checkpoint (src : string) : Prog (option Checkpoint) :=
  await (GetLastCheckpoint src) id.
Definition save_raw_data (src : string) (items : list Dict)
    (source_ids : list string) : Prog unit :=
  await (SaveRawData src items source_ids) id.
Definition save_normalized_data (records : list NormalizedRecord) : Prog unit :=
  await (SaveNormalizedData records) id.
Definition save_checkpoint (src : string) (checkpoint_data : Dict)
    (processed : Z) : Prog unit :=
  await (SaveCheckpoint src checkpoint_data processed) id.
Definition mark_checkpoint_completed (src : string) : Prog unit :=
  await (MarkCheckpointCompleted src) id.
Definition log_run (src status_ : string) (records : Z)
    (start_time : timestamp) (end_time : option timestamp)
    (error : option string) (metadata : option Dict) : Prog unit :=
  await (LogRun src status_ records start_time end_time error metadata) id.
Definition log_schema_drift (src : string) (expected : Schema)
    (actual : list (string * string)) (confidence : Q)
    (warnings : list Warning) : Prog unit :=
  await (LogSchemaDrift src expected actual confidence warnings) id.
End db.

(** One call of a run, with the exception it was answered by, if any. *)
Record Event := Ev { ev_cmd : Cmd; ev_raised : option exn }.

(** A handler answers every call, from a state of its own. *)
Definition Handler (W : Type) : Type := forall c : Cmd, W -> Reply c * W.

(** What running a program gives: its result, the final state of the
    handler and the calls made, in order. *)
Fixpoint exec {W A} (h : Handler W) (p : Prog A) (w : W)
    : (exn + A) * W * list Event :=
  match p with
  | Ret a => (inr a, w, [])
  | Raise e => (inl e, w, [])
  | Do c k =>
      let '(r, w1) := h c w in
      let '(res, w2, t) := exec h (k r) w1 in
      (res, w2, Ev c (reply_raised c r) :: t)
  end.

Definition result_of {W A} (x : (exn + A) * W * list Event) : exn + A := fst (fst x).
Definition state_of {W A} (x : (exn + A) * W * list Event) : W := snd (fst x).
Definition trace_of {W A} (x : (exn + A) * W * list Event) : list Event := snd x.

(* ================================================================== *)
(** * services/database.py *)
(* ================================================================== *)

Module DatabaseService.

(** The three raw tables; one row per payload.  The [id] and
    [ingested_at] columns are filled in by the database and a table
    lists its rows in the order of insertion. *)
Inductive raw_table : Type := raw_coinpaprika | raw_coingecko | raw_csv.

Record RawRow := {
  raw_payload : Dict;
  raw_source_id : option string
}.

Record CheckpointRow := {
  ck_source : string;
  ck_data : Dict;
  ck_records_processed : Z;
  ck_completed : bool
}.

Record RunRow := {
  er_source : string;
  er_status : string;
  er_records_processed : Z;
  er_start_time : timestamp;
  er_end_time : option timestamp;
  er_duration : option Z;
  er_error_message : option string;
  er_metadata : option Dict
}.

Record DriftRow := {
  sd_source : string;
  sd_expected_schema : Schema;
  sd_actual_schema : list (string * string);
  sd_confidence_score : Q;
  sd_warnings : list Warning
}.

(** The tables of [create_tables]. *)
Record Database := {
  t_raw_coinpaprika : list RawRow;
  t_raw_coingecko : list RawRow;
  t_raw_csv : list RawRow;
  crypto_data : list NormalizedRecord;
  etl_checkpoints : list CheckpointRow;
  etl_runs : list RunRow;
  schema_drift_logs : list DriftRow
}.

Definition empty : Database := {|
  t_raw_coinpaprika := [];
  t_raw_coingecko := [];
  t_raw_csv := [];
  crypto_data := [];
  etl_checkpoints := [];
  etl_runs := [];
  schema_drift_logs := []
|}.

(** [table_map.get(source)] *)
Definition table_map (src : string) : option raw_table :=
  if String.eqb src "coinpaprika" then Some raw_coinpaprika
  else if String.eqb src "coingecko" then Some raw_coingecko
  else if String.eqb src "csv" then Some raw_csv
  else None.

Definition raw_rows (t : raw_table) (d : Database) : list RawRow :=
  match t with
  | raw_coinpaprika => t_raw_coinpaprika d
  | raw_coingecko => t_raw_coingecko d
  | raw_csv => t_raw_csv d
  end.

Definition set_raw_rows (t : raw_table) (rows : list RawRow) (d : Database)
    : Database :=
  {| t_raw_coinpaprika := match t with raw_coinpaprika => rows | _ => t_raw_coinpaprika d end;
     t_raw_coingecko := match t with raw_coingecko => rows | _ => t_raw_coingecko d end;
     t_raw_csv := match t with raw_csv => rows | _ => t_raw_csv d end;
     crypto_data := crypto_data d;
     etl_checkpoints := etl_checkpoints d;
     etl_runs := etl_runs d;
     schema_drift_logs := schema_drift_logs d |}.

Definition set_crypto_data (rows : list NormalizedRecord) (d : Database)
    : Database :=
  {| t_raw_coinpaprika := t_raw_coinpaprika d;
     t_raw_coingecko := t_raw_coingecko d;
     t_raw_csv := t_raw_csv d;
     crypto_data := rows;
     etl_checkpoints := etl_checkpoints d;
     etl_runs := etl_runs d;
     schema_drift_logs := schema_drift_logs d |}.

Definition set_etl_checkpoints (rows : list CheckpointRow) (d : Database)
    : Database :=
  {| t_raw_coinpaprika := t_raw_coinpaprika d;
     t_raw_coingecko := t_raw_coingecko d;
     t_raw_csv := t_raw_csv d;
     crypto_data := crypto_data d;
     etl_checkpoints := rows;
     etl_runs := etl_runs d;
     schema_drift_logs := schema_drift_logs d |}.

Definition set_etl_runs (rows : list RunRow) (d : Database) : Database :=
  {| t_raw_coinpaprika := t_raw_coinpaprika d;
     t_raw_coingecko := t_raw_coingecko d;
     t_raw_csv := t_raw_csv d;
     crypto_data := crypto_data d;
     etl_checkpoints := etl_checkpoints d;
     etl_runs := rows;
     schema_drift_logs := schema_drift_logs d |}.

Definition set_schema_drift_logs (rows : list DriftRow) (d : Database)
    : Database :=
  {| t_raw_coinpaprika := t_raw_coinpaprika d;
     t_raw_coingecko := t_raw_coingecko d;
     t_raw_csv := t_raw_csv d;
     crypto_data := crypto_data d;
     etl_checkpoints := etl_checkpoints d;
     etl_runs := etl_runs d;
     schema_drift_logs := rows |}.

(** [INSERT INTO {table} (data, source_id) VALUES ($1, $2)] for every
    item, numbered as [enumerate] does. *)
Fixpoint insert_raw_items (idx : nat) (items : list Dict)
    (source_ids : list string) (rows : list RawRow) : list RawRow :=
  match items with
  | [] => rows
  | item :: rest =>
      let source_id := source_ids !! idx in
      insert_raw_items (S idx) rest source_ids
        (rows ++ [{| raw_payload := item; raw_source_id := source_id |}])
  end.

Definition save_raw_data (src : string) (items : list Dict)
    (source_ids : list string) (d : Database) : (exn + unit) * Database :=
  match table_map src with
  | None => (inl (ValueError ("Unknown source: " ++ src)), d)
  | Some table =>
      (inr tt, set_raw_rows table
                 (insert_raw_items 0 items source_ids (raw_rows table d)) d)
  end.

(** The columns of [UNIQUE(source, symbol, last_updated)]. *)
Definition same_key (a b : NormalizedRecord) : bool :=
  String.eqb (source a) (source b)
  && String.eqb (symbol a) (symbol b)
  && (last_updated a =? last_updated b)%Z.

(** [INSERT INTO crypto_data ... ON CONFLICT (source, symbol,
    last_updated) DO NOTHING] *)
Definition insert_on_conflict_do_nothing (rows : list NormalizedRecord)
    (record : NormalizedRecord) : list NormalizedRecord :=
  if existsb (same_key record) rows then rows else rows ++ [record].

Definition save_normalized_data (records : list NormalizedRecord)
    (d : Database) : (exn + unit) * Database :=
  (inr tt,
   set_crypto_data
     (fold_left insert_on_conflict_do_nothing records (crypto_data d)) d).

Definition save_checkpoint (src : string) (checkpoint_data : Dict)
    (processed : Z) (d : Database) : (exn + unit) * Database :=
  (inr tt,
   set_etl_checkpoints
     (etl_checkpoints d ++
      [{| ck_source := src; ck_data := checkpoint_data;
          ck_records_processed := processed; ck_completed := false |}]) d).

(** [WHERE source = $1 AND NOT completed] *)
Definition pending (src : string) (row : CheckpointRow) : bool :=
  String.eqb (ck_source row) src && negb (ck_completed row).

(** The newest pending row: [ORDER BY created_at DESC LIMIT 1]. *)
Definition get_last_checkpoint (src : string) (d : Database)
    : (exn + option Checkpoint) * Database :=
  (inr (match List.rev (List.filter (pending src) (etl_checkpoints d)) with
        | row :: _ => Some {| data := ck_data row;
                              records_processed := ck_records_processed row |}
        | [] => None
        end), d).

Definition complete (src : string) (row : CheckpointRow) : CheckpointRow :=
  if pending src row
  then {| ck_source := ck_source row; ck_data := ck_data row;
          ck_records_processed := ck_records_processed row;
          ck_completed := true |}
  else row.

Definition mark_checkpoint_completed (src : string) (d : Database)
    : (exn + unit) * Database :=
  (inr tt, set_etl_checkpoints (map (complete src) (etl_checkpoints d)) d).

Definition log_run (src status_ : string) (records : Z)
    (start_time : timestamp) (end_time : option timestamp)
    (error : option string) (metadata : option Dict) (d : Database)
    : (exn + unit) * Database :=
  let duration := match end_time with
                  | Some e => Some (e - start_time)%Z
                  | None => None
                  end in
  (inr tt,
   set_etl_runs
     (etl_runs d ++
      [{| er_source := src; er_status := status_;
          er_records_processed := records; er_start_time := start_time;
          er_end_time := end_time; er_duration := duration;
          er_error_message := error;
          er_metadata := match metadata with
                         | Some m => if truthy (VDict m) then Some m else None
                         | None => None
                         end |}]) d).

(** [json.dumps] of a value of an expected schema: a class is not
    serialized, a tuple is serialized as the list of its items. *)
Definition json_serializable (expected_type : type_spec) : bool :=
  match expected_type with
  | AnyOf [] => true
  | _ => false
  end.

(** The arguments of the INSERT are evaluated first, [json.dumps(expected)]
    among them, which raises on a schema that holds a class. *)
Definition log_schema_drift (src : string) (expected : Schema)
    (actual : list (string * string)) (confidence : Q)
    (warnings : list Warning) (d : Database) : (exn + unit) * Database :=
  if forallb (fun entry => json_serializable (snd entry)) expected
  then
    (inr tt,
     set_schema_drift_logs
       (schema_drift_logs d ++
        [{| sd_source := src; sd_expected_schema := expected;
            sd_actual_schema := actual; sd_confidence_score := confidence;
            sd_warnings := warnings |}]) d)
  else (inl (TypeError "Object of type type is not JSON serializable"), d).

(** ** Reading [crypto_data] *)

(** The [filters] dict of [get_data], by the four keys it looks for;
    [None] is a key that is absent. *)
Record Filters := {
  filter_source : option string;
  filter_symbol : option string;
  filter_min_price : option Q;
  filter_max_price : option Q
}.

(** [where_clauses]: one condition per key present, in the order of the
    four tests. *)
Definition where_clauses (filters : Filters) : list (NormalizedRecord -> bool) :=
  (match filter_source filters with
   | Some s => [fun row => String.eqb (source row) s]
   | None => []
   end
   ++ match filter_symbol filters with
      | Some s => [fun row => String.eqb (symbol row) s]
      | None => []
      end
   ++ match filter_min_price filters with
      | Some p => [fun row => Qle_bool p (price_usd row)]
      | None => []
      end
   ++ match filter_max_price filters with
      | Some p => [fun row => Qle_bool (price_usd row) p]
      | None => []
      end)%list.

(** [where_sql]: the conditions joined by AND, or no condition. *)
Definition where_sql (filters : Filters) (row : NormalizedRecord) : bool :=
  forallb (fun clause => clause row) (where_clauses filters).

(** [ORDER BY last_updated DESC].  Rows with the same [last_updated] are
    left in the order of the table; PostgreSQL promises no order for
    them. *)
Fixpoint insert_by_last_updated (row : NormalizedRecord)
    (sorted : list NormalizedRecord) : list NormalizedRecord :=
  match sorted with
  | [] => [row]
  | r :: rest =>
      if (last_updated r <? last_updated row)%Z then row :: sorted
      else r :: insert_by_last_updated row rest
  end.

Definition order_by_last_updated_desc (rows : list NormalizedRecord)
    : list NormalizedRecord :=
  fold_left (fun sorted row => insert_by_last_updated row sorted) rows [].

(** [LIMIT limit OFFSET offset]; PostgreSQL refuses a negative one. *)
Definition limit_offset {A} (limit offset : Z) (rows : list A) : exn + list A :=
  if (limit <? 0)%Z then inl (DatabaseError "LIMIT must not be negative")
  else if (offset <? 0)%Z then inl (DatabaseError "OFFSET must not be negative")
  else inr (take (Z.to_nat limit) (drop (Z.to_nat offset) rows)).

(** [a // b] on ints. *)
Definition py_floordiv (a b : Z) : exn + Z :=
  if (b =? 0)%Z then inl (ZeroDivisionError "integer division or modulo by zero")
  else inr (a / b)%Z.

(** The dict that [get_data] returns.  A row of [data] is given by the
    row of the table it is read from. *)
Record DataPage := {
  page_data : list NormalizedRecord;
  page_total : Z;
  page_total_pages : Z
}.

Definition get_data (page page_size : Z) (filters : Filters) (d : Database)
    : exn + DataPage :=
  let offset := ((page - 1) * page_size)%Z in
  let selected := List.filter (where_sql filters) (crypto_data d) in
  let total := len selected in
  match limit_offset page_size offset (order_by_last_updated_desc selected) with
  | inl e => inl e
  | inr rows =>
      match py_floordiv (total + page_size - 1) page_size with
      | inl e => inl e
      | inr total_pages =>
          inr {| page_data := rows; page_total := total;
                 page_total_pages := total_pages |}
      end
  end.


End DatabaseService.

(* ================================================================== *)
(** * The service and its surroundings as a handler *)
(* ================================================================== *)

(** The state against which a pipeline runs: the database, the readings
    the clock will give, the answers the HTTP server will give, the CSV
    files on disk and the sleeps made so far. *)
Record World := {
  database : DatabaseService.Database;
  clock : nat -> timestamp;
  clock_reads : nat;
  responses : list (exn + HttpResponse);
  files : list (string * list Dict);
  slept : list Q
}.

Definition with_database (d : DatabaseService.Database) (w : World) : World :=
  {| database := d; clock := clock w; clock_reads := clock_reads w;
     responses := responses w; files := files w; slept := slept w |}.

Fixpoint file_lookup (fs : list (string * list Dict)) (path : string)
    : option (list Dict) :=
  match fs with
  | [] => None
  | (p, rows) :: rest => if String.eqb p path then Some rows else file_lookup rest path
  end.

Definition on_database {A} (f : DatabaseService.Database -> (exn + A) * DatabaseService.Database)
    (w : World) : (exn + A) * World :=
  let '(r, d) := f (database w) in (r, with_database d w).

Definition world_handler : Handler World := fun c =>
  match c return World -> Reply c * World with
  | DatetimeNow => fun w =>
      (clock w (clock_reads w),
       {| database := database w; clock := clock w;
          clock_reads := S (clock_reads w); responses := responses w;
          files := files w; slept := slept w |})
  | Sleep seconds => fun w =>
      (tt,
       {| database := database w; clock := clock w;
          clock_reads := clock_reads w; responses := responses w;
          files := files w; slept := slept w ++ [seconds] |})
  | HttpGet _ _ _ => fun w =>
      match responses w with
      | r :: rest =>
          (r, {| database := database w; clock := clock w;
                 clock_reads := clock_reads w; responses := rest;
                 files := files w; slept := slept w |})
      | [] => (inl (ClientError "Cannot connect to host"), w)
      end
  | PathExists path => fun w =>
      (match file_lookup (files w) path with Some _ => true | None => false end, w)
  | CreateSampleCsv path rows => fun w =>
      (inr tt,
       {| database := database w; clock := clock w;
          clock_reads := clock_reads w; responses := responses w;
          files := (path, rows) :: files w; slept := slept w |})
  | ReadCsv path => fun w =>
      (match file_lookup (files w) path with
       | Some rows => inr rows
       | None => inl (OSError "No such file or directory")
       end, w)
  | GetLastCheckpoint src => on_database (DatabaseService.get_last_checkpoint src)
  | SaveRawData src items ids => on_database (DatabaseService.save_raw_data src items ids)
  | SaveNormalizedData records => on_database (DatabaseService.save_normalized_data records)
  | SaveCheckpoint src cd n => on_database (DatabaseService.save_checkpoint src cd n)
  | MarkCheckpointCompleted src => on_database (DatabaseService.mark_checkpoint_completed src)
  | LogRun src st n s e err md => on_database (DatabaseService.log_run src st n s e err md)
  | LogSchemaDrift src ex ac cf ws => on_database (DatabaseService.log_schema_drift src ex ac cf ws)
  end.

(* ================================================================== *)
(** * difflib.SequenceMatcher *)
(* ================================================================== *)

(** [SequenceMatcher(None, a, b).ratio()], the similarity the drift
    detector uses.  The detector is stated over any such function. *)
Class StringSimilarity := ratio : string -> string -> Q.

(** The ratio as the standard library computes it for sequences of fewer
    than 200 elements (for which no element is treated as junk): twice
    the size of the matching blocks over the two lengths. *)
Module difflib.

Fixpoint common_prefix (a b : list ascii) : nat :=
  match a, b with
  | x :: a', y :: b' => if Ascii.eqb x y then S (common_prefix a' b') else O
  | _, _ => O
  end.

(** The best block so far, as [(besti, bestj, bestsize)]. *)
Definition better (i j : nat) (a b : list ascii) (best : nat * nat * nat)
    : nat * nat * nat :=
  let k := common_prefix (drop i a) (drop j b) in
  if (snd best <? k)%nat then (i, j, k) else best.

(** [find_longest_match]: the longest block, the earliest in [a] and
    then in [b] among the longest. *)
Definition find_longest_match (a b : list ascii) : nat * nat * nat :=
  fold_left
    (fun best i =>
       fold_left (fun best j => better i j a b best) (seq 0 (length b)) best)
    (seq 0 (length a)) (O, O, O).

(** The total size of [get_matching_blocks]: the longest block, then
    the blocks to its left and to its right. *)
Fixpoint matches (fuel : nat) (a b : list ascii) : nat :=
  match fuel with
  | O => O
  | S fuel' =>
      let '(i, j, k) := find_longest_match a b in
      match k with
      | O => O
      | S _ =>
          (k + matches fuel' (take i a) (take j b)
             + matches fuel' (drop (i + k) a) (drop (j + k) b))%nat
      end
  end.

Definition SequenceMatcher_ratio (a b : string) : Q :=
  let la := list_ascii_of_string a in
  let lb := list_ascii_of_string b in
  let total := (length la + length lb)%nat in
  match total with
  | O => 1%Q
  | S _ => (inject_Z (2 * Z.of_nat (matches (S (length la)) la lb))
            / inject_Z (Z.of_nat total))%Q
  end.

Definition SequenceMatcher : StringSimilarity := SequenceMatcher_ratio.

End difflib.

(* ================================================================== *)
(** * ingestion/base_pipeline.py *)
(* ================================================================== *)

Module BasePipeline.

(** What a subclass provides. *)
Record Pipeline := {
  SOURCE_NAME : string;
  extract : Prog (list Dict);
  transform : list Dict -> Prog (list NormalizedRecord);
  load : list NormalizedRecord -> Prog unit;
  get_expected_schema : Schema
}.

(** [not raw_data] *)
Definition is_empty {A} (l : list A) : bool :=
  match l with [] => true | _ => false end.

Definition run (self : Pipeline) : Prog RunResult :=
  start_time ← datetime_now;
  try_except
    (raw_data ← extract self;
     if is_empty raw_data then
       Ret {| run_status := "success"; run_records_processed := 0;
              run_duration := 0 |}
     else
       normalized_data ← transform self raw_data;
       load self normalized_data;;
       end_time ← datetime_now;
       let duration := (end_time - start_time)%Z in
       db.log_run (SOURCE_NAME self) "success" (len normalized_data)
         start_time (Some end_time) None
         (Some [("raw_count", VInt (len raw_data))]);;
       Ret {| run_status := "success";
              run_records_processed := len normalized_data;
              run_duration := duration |})
    (fun e =>
       end_time ← datetime_now;
       db.log_run (SOURCE_NAME self) "failed" 0 start_time (Some end_time)
         (Some (str_exn e)) None;;
       Raise e).

(** [x ** n] for a float [x] and an int [n]. *)
Definition py_pow (x : Q) (n : Z) : exn + Q :=
  if Qeq_bool x 0 && (n <? 0)%Z
  then inl (ZeroDivisionError "0.0 cannot be raised to a negative power")
  else inr (Qpower x n).

(** The delay of [calculate_backoff]. *)
Definition backoff_delay (settings : Settings) (retry_count : Z) : exn + Q :=
  match py_pow (BACKOFF_FACTOR settings) retry_count with
  | inl e => inl e
  | inr p => inr (py_min (BACKOFF_BASE_DELAY settings * p)%Q
                         (BACKOFF_MAX_DELAY settings))
  end.

Definition calculate_backoff (settings : Settings) (retry_count : Z) : Prog Q :=
  lift (backoff_delay settings retry_count).

Section SchemaDrift.
Context {sim : StringSimilarity}.
Variable settings : Settings.

(** The inner loop: the key of [extra_keys] with the greatest score,
    starting from no match and a score of zero. *)
Definition better_match (missing_key : string) (best : option string * Q)
    (actual_key : string) : option string * Q :=
  let score := ratio missing_key actual_key in
  if negb (Qle_bool score (snd best)) then (Some actual_key, score) else best.

Definition best_match_for (missing_key : string) (extra_keys : gset string)
    : option string * Q :=
  fold_left (better_match missing_key) (elements extra_keys) (None, 0%Q).

(** One turn of the outer loop, on [fuzzy_matches] and [warnings]. *)
Definition fuzzy_step (extra_keys : gset string)
    (acc : gmap string (option string * Q) * list Warning)
    (missing_key : string) : gmap string (option string * Q) * list Warning :=
  let '(best_match, best_score) := best_match_for missing_key extra_keys in
  if Qle_bool (SCHEMA_DRIFT_THRESHOLD settings) best_score
  then (<[missing_key := (best_match, best_score)]> (fst acc),
        (snd acc ++ [FieldRename missing_key best_match best_score])%list)
  else acc.

Definition type_match (expected_type : type_spec) (actual_value : value) : bool :=
  match expected_type with
  | AnyOf ts => existsb (isinstance actual_value) ts
  | Single t => isinstance actual_value t
  end.

(** [expected_schema[key]] *)
Fixpoint schema_lookup (expected_schema : Schema) (key : string)
    : option type_spec :=
  match expected_schema with
  | [] => None
  | (k, t) :: rest => if String.eqb k key then Some t else schema_lookup rest key
  end.

(** One turn of the loop over the keys present on both sides. *)
Definition type_step (expected_schema : Schema) (sample_data : Dict)
    (warnings : list Warning) (key : string) : list Warning :=
  match schema_lookup expected_schema key, dict_lookup sample_data key with
  | Some expected_type, Some actual_value =>
      match actual_value with
      | VNone => warnings
      | _ => if type_match expected_type actual_value then warnings
             else (warnings ++ [TypeMismatch key expected_type (type_name actual_value)])%list
      end
  | _, _ => warnings
  end.

(** The local variables of [detect_schema_drift] when it reaches its
    last statement. *)
Record DriftState := {
  missing_keys : gset string;
  extra_keys : gset string;
  fuzzy_matches : gmap string (option string * Q);
  warnings : list Warning;
  total_expected : nat;
  matched : nat;
  confidence : Q
}.

Definition drift_state (expected_schema : Schema) (sample_data : Dict)
    : DriftState :=
  let actual_keys : gset string := list_to_set (dict_keys sample_data) in
  let expected_keys : gset string := list_to_set (map fst expected_schema) in
  let missing_keys := expected_keys ∖ actual_keys in
  let extra_keys := actual_keys ∖ expected_keys in
  let '(fuzzy_matches, warnings) :=
    fold_left (fuzzy_step extra_keys) (elements missing_keys) (∅, []) in
  let warnings :=
    fold_left (type_step expected_schema sample_data)
              (elements (expected_keys ∩ actual_keys)) warnings in
  let total_expected := size expected_keys in
  let matched := (size (expected_keys ∩ actual_keys) + size fuzzy_matches)%nat in
  let confidence :=
    if (0 <? total_expected)%nat
    then (inject_Z (Z.of_nat matched) / inject_Z (Z.of_nat total_expected))%Q
    else 1%Q in
  {| missing_keys := missing_keys; extra_keys := extra_keys;
     fuzzy_matches := fuzzy_matches; warnings := warnings;
     total_expected := total_expected; matched := matched;
     confidence := confidence |}.

Definition detect_schema_drift (SOURCE_NAME : string)
    (expected_schema : Schema) (sample_data : Dict) : Prog unit :=
  let st := drift_state expected_schema sample_data in
  if is_empty (warnings st) then Ret tt
  else
    db.log_schema_drift SOURCE_NAME expected_schema
      (map (fun kv => (fst kv, type_name (snd kv))) sample_data)
      (confidence st) (warnings st).
End SchemaDrift.

End BasePipeline.

(* ================================================================== *)
(** * What the pipelines have in common *)
(* ================================================================== *)

(** [CoinGeckoPipeline] and [CoinPaprikaPipeline] have the same [while]
    loop in [extract], up to the request and to what is kept of the
    response, and the same [load], up to [SOURCE_NAME]. *)
Module Common.

(** [response.raise_for_status()] *)
Definition raise_for_status (response : HttpResponse) : Prog unit :=
  if (400 <=? status response)%Z
  then Raise (ClientError "ClientResponseError")
  else Ret tt.

(** [a / b] on ints. *)
Definition py_div (a b : Z) : exn + Q :=
  if (b =? 0)%Z then inl (ZeroDivisionError "division by zero")
  else inr (inject_Z a / inject_Z b)%Q.

(** How one turn of the loop ends when it does not raise: [return] or
    the next turn, with the new [retry_count]. *)
Inductive Step : Type :=
| Returned (all_data : list Dict)
| Again (retry_count : Z).

Section Extract.
Variable settings : Settings.
Variable url : string.
Variables headers params : Dict.
Variable rate_limit : Z.
Variable keep : list Dict -> list Dict.

(** The body of the loop: the [try] block and its [except
    aiohttp.ClientError] clause. *)
Definition attempt (retry_count : Z) : Prog Step :=
  try_except
    ((if RATE_LIMIT_ENABLED settings
      then pause ← lift (py_div 60 rate_limit); asyncio_sleep pause
      else Ret tt);;
     response ← session_get url headers params;
     if (status response =? 429)%Z then
       delay ← BasePipeline.calculate_backoff settings retry_count;
       asyncio_sleep delay;;
       Ret (Again (retry_count + 1))
     else
       raise_for_status response;;
       data ← lift (json response);
       Ret (Returned (keep data)))
    (fun e =>
       if is_client_error e then
         let retry_count := (retry_count + 1)%Z in
         if (retry_count <? ETL_MAX_RETRIES settings)%Z then
           delay ← BasePipeline.calculate_backoff settings retry_count;
           asyncio_sleep delay;;
           Ret (Again retry_count)
         else Raise e
       else Raise e).

(** [while retry_count < settings.ETL_MAX_RETRIES: ...] followed by
    the final [raise].  Returns the data with the value of
    [retry_count] at the [return].  [fuel] bounds the number of turns;
    [ETL_MAX_RETRIES - retry_count] turns are always enough. *)
Fixpoint retry_loop (fuel : nat) (retry_count : Z) : Prog (list Dict * Z) :=
  if (retry_count <? ETL_MAX_RETRIES settings)%Z then
    match fuel with
    | O => Raise (Exception "out of fuel")
    | S fuel' =>
        step ← attempt retry_count;
        match step with
        | Returned all_data => Ret (all_data, retry_count)
        | Again retry_count' => retry_loop fuel' retry_count'
        end
    end
  else
    Raise (Exception ("Failed to extract data after "
                      ++ str_int (ETL_MAX_RETRIES settings) ++ " retries")).

Definition fetch : Prog (list Dict * Z) :=
  retry_loop (Z.to_nat (ETL_MAX_RETRIES settings)) 0.
End Extract.

Section Load.
Variable settings : Settings.
Variable SOURCE_NAME : string.

(** [for i in range(0, len(normalized_data), batch_size): ...] over
    the values of [i] that are left, with the running [total_loaded]. *)
Fixpoint load_batches (normalized_data : list NormalizedRecord)
    (indices : list Z) (total_loaded : Z) : Prog Z :=
  match indices with
  | [] => Ret total_loaded
  | i :: rest =>
      let batch_size := CHECKPOINT_INTERVAL settings in
      let batch := py_slice normalized_data i (i + batch_size) in
      total_loaded ←
        try_except
          (db.save_normalized_data batch;;
           let total_loaded := (total_loaded + len batch)%Z in
           (if CHECKPOINT_ENABLED settings
            then db.save_checkpoint SOURCE_NAME
                   [("last_index", VInt (i + batch_size))] total_loaded
            else Ret tt);;
           Ret total_loaded)
          (fun e => Raise e);
      load_batches normalized_data rest total_loaded
  end.

Definition load (normalized_data : list NormalizedRecord) : Prog unit :=
  db.save_raw_data SOURCE_NAME (map raw_data normalized_data)
    (map symbol normalized_data);;
  let batch_size := CHECKPOINT_INTERVAL settings in
  indices ← lift (py_range 0 (len normalized_data) batch_size);
  load_batches normalized_data indices 0;;
  if CHECKPOINT_ENABLED settings
  then db.mark_checkpoint_completed SOURCE_NAME
  else Ret tt.
End Load.

(** The loop of every [transform]: an item whose conversion raises is
    skipped. *)
Fixpoint transform_items (transform_item : Dict -> Prog NormalizedRecord)
    (raw_data : list Dict) (normalized_records : list NormalizedRecord)
    : Prog (list NormalizedRecord) :=
  match raw_data with
  | [] => Ret normalized_records
  | item :: rest =>
      normalized_records ←
        try_except
          (normalized ← transform_item item;
           Ret (normalized_records ++ [normalized])%list)
          (fun e => Ret normalized_records);
      transform_items transform_item rest normalized_records
  end.

(** [if settings.SCHEMA_DRIFT_ENABLED and raw_data:
       await self.detect_schema_drift(raw_data[0])] *)
Definition check_drift `{StringSimilarity} (settings : Settings)
    (SOURCE_NAME : string) (expected_schema : Schema) (raw_data : list Dict)
    : Prog unit :=
  if SCHEMA_DRIFT_ENABLED settings then
    match raw_data with
    | [] => Ret tt
    | first :: _ =>
        BasePipeline.detect_schema_drift settings SOURCE_NAME expected_schema first
    end
  else Ret tt.

End Common.

(* ================================================================== *)
(** * ingestion/coingecko_pipeline.py *)
(* ================================================================== *)

Module CoinGeckoPipeline.
Section WithSettings.
Context {lit : NumericLiterals} {sim : StringSimilarity}.
Variable settings : Settings.

Definition SOURCE_NAME : string := "coingecko".
Definition BASE_URL : string := "https://api.coingecko.com/api/v3".

Definition headers : Dict :=
  match COINGECKO_API_KEY settings with
  | Some key => if truthy (VStr key) then [("x-cg-demo-api-key", VStr key)] else []
  | None => []
  end.

Definition params : Dict :=
  [("vs_currency", VStr "usd"); ("order", VStr "market_cap_desc");
   ("per_page", VInt 100); ("page", VInt 1); ("sparkline", VBool false);
   ("locale", VStr "en")].

(** The loop of [extract], with the last value of [retry_count]. *)
Definition fetch : Prog (list Dict * Z) :=
  Common.fetch settings (BASE_URL ++ "/coins/markets") headers params
    (COINGECKO_RATE_LIMIT settings) (fun data => data).

Definition extract : Prog (list Dict) :=
  r ← fetch; Ret (fst r).

Definition get_expected_schema : Schema :=
  [("id", Single t_str); ("symbol", Single t_str); ("name", Single t_str);
   ("current_price", AnyOf [t_int; t_float]);
   ("market_cap", AnyOf [t_int; t_float]);
   ("total_volume", AnyOf [t_int; t_float]);
   ("price_change_percentage_24h", AnyOf [t_int; t_float]);
   ("market_cap_rank", Single t_int)].

(** The body of the [try] block of [transform] for one item.  The five
    numbers are already floats and an int when [CoinGeckoData] validates
    them, so the model validates the three strings only. *)
Definition transform_item (item : Dict) : Prog NormalizedRecord :=
  current_price ← lift (py_float (py_or (dict_get item "current_price" VNone) (VInt 0)));
  market_cap ← lift (py_float (py_or (dict_get item "market_cap" VNone) (VInt 0)));
  total_volume ← lift (py_float (py_or (dict_get item "total_volume" VNone) (VInt 0)));
  price_change_24h ← lift (py_float (py_or (dict_get item "price_change_percentage_24h" VNone) (VInt 0)));
  market_cap_rank ← lift (py_int (py_or (dict_get item "market_cap_rank" VNone) (VInt 0)));
  validated_id ← lift (validate_str "id" (dict_get item "id" (VStr "")));
  validated_symbol ← lift (validate_str "symbol" (dict_get item "symbol" (VStr "")));
  validated_name ← lift (validate_str "name" (dict_get item "name" (VStr "")));
  now ← datetime_now;
  Ret {| source := SOURCE_NAME;
         symbol := upper validated_symbol;
         name := validated_name;
         price_usd := current_price;
         market_cap_usd := market_cap;
         volume_24h_usd := total_volume;
         percent_change_24h := price_change_24h;
         rank := market_cap_rank;
         last_updated := now;
         raw_data := item |}.

Definition transform (raw_data : list Dict) : Prog (list NormalizedRecord) :=
  Common.check_drift settings SOURCE_NAME get_expected_schema raw_data;;
  Common.transform_items transform_item raw_data [].

Definition load : list NormalizedRecord -> Prog unit :=
  Common.load settings SOURCE_NAME.

Definition pipeline : BasePipeline.Pipeline :=
  {| BasePipeline.SOURCE_NAME := SOURCE_NAME;
     BasePipeline.extract := extract;
     BasePipeline.transform := transform;
     BasePipeline.load := load;
     BasePipeline.get_expected_schema := get_expected_schema |}.
End WithSettings.
End CoinGeckoPipeline.

(* ================================================================== *)
(** * ingestion/coinpaprika_pipeline.py *)
(* ================================================================== *)

Module CoinPaprikaPipeline.
Section WithSettings.
Context {lit : NumericLiterals} {sim : StringSimilarity}.
Variable settings : Settings.

Definition SOURCE_NAME : string := "coinpaprika".
Definition BASE_URL : string := "https://api.coinpaprika.com/v1".

Definition headers : Dict :=
  match COINPAPRIKA_API_KEY settings with
  | Some key => if truthy (VStr key) then [("Authorization", VStr ("Bearer " ++ key))] else []
  | None => []
  end.

(** The loop of [extract], with the last value of [retry_count]. *)
Definition fetch : Prog (list Dict * Z) :=
  Common.fetch settings (BASE_URL ++ "/tickers") headers []
    (COINPAPRIKA_RATE_LIMIT settings) (fun data => py_slice data 0 100).

Definition extract : Prog (list Dict) :=
  db.get_last_checkpoint SOURCE_NAME;;
  r ← fetch; Ret (fst r).

Definition get_expected_schema : Schema :=
  [("id", Single t_str); ("name", Single t_str); ("symbol", Single t_str);
   ("rank", Single t_int); ("quotes", Single t_dict)].

(** A field of the USD quote: [Decimal(str(usd_quote.get(field, 0)))]. *)
Definition quote_field (usd_quote : value) (field : string) : exn + Q :=
  match usd_quote with
  | VDict q => decimal_of_str (dict_get q field (VInt 0))
  | _ => inl (AttributeError "object has no attribute 'get'")
  end.

(** The body of the [try] block of [transform] for one item. *)
Definition transform_item (item : Dict) : Prog NormalizedRecord :=
  validated_id ← lift (required validate_str item "id");
  validated_name ← lift (required validate_str item "name");
  validated_symbol ← lift (required validate_str item "symbol");
  validated_rank ← lift (required validate_int item "rank");
  validated_quotes ← lift (required validate_dict item "quotes");
  let usd_quote := dict_get validated_quotes "USD" (VDict []) in
  price ← lift (quote_field usd_quote "price");
  market_cap ← lift (quote_field usd_quote "market_cap");
  volume_24h ← lift (quote_field usd_quote "volume_24h");
  change_24h ← lift (quote_field usd_quote "percent_change_24h");
  now ← datetime_now;
  Ret {| source := SOURCE_NAME;
         symbol := validated_symbol;
         name := validated_name;
         price_usd := price;
         market_cap_usd := market_cap;
         volume_24h_usd := volume_24h;
         percent_change_24h := change_24h;
         rank := validated_rank;
         last_updated := now;
         raw_data := item |}.

Definition transform (raw_data : list Dict) : Prog (list NormalizedRecord) :=
  Common.check_drift settings SOURCE_NAME get_expected_schema raw_data;;
  Common.transform_items transform_item raw_data [].

Definition load : list NormalizedRecord -> Prog unit :=
  Common.load settings SOURCE_NAME.

Definition pipeline : BasePipeline.Pipeline :=
  {| BasePipeline.SOURCE_NAME := SOURCE_NAME;
     BasePipeline.extract := extract;
     BasePipeline.transform := transform;
     BasePipeline.load := load;
     BasePipeline.get_expected_schema := get_expected_schema |}.
End WithSettings.
End CoinPaprikaPipeline.

(* ================================================================== *)
(** * ingestion/csv_pipeline.py *)
(* ================================================================== *)

Module CSVPipeline.
Section WithSettings.
Context {lit : NumericLiterals} {sim : StringSimilarity}.
Variable settings : Settings.

Definition SOURCE_NAME : string := "csv".

Definition sample_row (sym nm price cap vol chg rk : string) : Dict :=
  [("symbol", VStr sym); ("name", VStr nm); ("price", VStr price);
   ("market_cap", VStr cap); ("volume_24h", VStr vol);
   ("percent_change_24h", VStr chg); ("rank", VStr rk)].

Definition sample_data : list Dict :=
  [sample_row "BTC" "Bitcoin" "45000.50" "850000000000" "25000000000" "2.5" "1";
   sample_row "ETH" "Ethereum" "3000.25" "360000000000" "15000000000" "3.2" "2";
   sample_row "BNB" "Binance Coin" "350.75" "55000000000" "1200000000" "1.8" "3";
   sample_row "SOL" "Solana" "110.30" "45000000000" "2500000000" "-1.2" "4";
   sample_row "ADA" "Cardano" "0.55" "19000000000" "450000000" "0.8" "5"].

Definition create_sample_csv : Prog unit :=
  write_sample_csv (CSV_FILE_PATH settings) sample_data.

(** [_read_csv] is one call: the rows of the file, keys and values
    stripped. *)
Definition extract : Prog (list Dict) :=
  present ← path_exists (CSV_FILE_PATH settings);
  (if negb present then create_sample_csv else Ret tt);;
  try_except (read_csv (CSV_FILE_PATH settings)) (fun e => Raise e).

Definition get_expected_schema : Schema :=
  [("symbol", Single t_str); ("name", Single t_str);
   ("price", AnyOf [t_int; t_float; t_str]);
   ("market_cap", AnyOf [t_int; t_float; t_str]);
   ("volume_24h", AnyOf [t_int; t_float; t_str]);
   ("percent_change_24h", AnyOf [t_int; t_float; t_str]);
   ("rank", AnyOf [t_int; t_str])].

(** The body of the [try] block of [transform] for one item. *)
Definition transform_item (item : Dict) : Prog NormalizedRecord :=
  validated_symbol ← lift (required validate_str item "symbol");
  validated_name ← lift (required validate_str item "name");
  validated_price ← lift (required validate_float item "price");
  validated_market_cap ← lift (required validate_float item "market_cap");
  validated_volume_24h ← lift (required validate_float item "volume_24h");
  validated_change ← lift (required validate_float item "percent_change_24h");
  validated_rank ← lift (required validate_int item "rank");
  now ← datetime_now;
  Ret {| source := SOURCE_NAME;
         symbol := upper validated_symbol;
         name := validated_name;
         price_usd := validated_price;
         market_cap_usd := validated_market_cap;
         volume_24h_usd := validated_volume_24h;
         percent_change_24h := validated_change;
         rank := validated_rank;
         last_updated := now;
         raw_data := item |}.

Definition transform (raw_data : list Dict) : Prog (list NormalizedRecord) :=
  Common.check_drift settings SOURCE_NAME get_expected_schema raw_data;;
  Common.transform_items transform_item raw_data [].

Definition load (normalized_data : list NormalizedRecord) : Prog unit :=
  db.save_raw_data SOURCE_NAME (map raw_data normalized_data)
    (map symbol normalized_data);;
  db.save_normalized_data normalized_data.

Definition pipeline : BasePipeline.Pipeline :=
  {| BasePipeline.SOURCE_NAME := SOURCE_NAME;
     BasePipeline.extract := extract;
     BasePipeline.transform := transform;
     BasePipeline.load := load;
     BasePipeline.get_expected_schema := get_expected_schema |}.
End WithSettings.
End CSVPipeline.


(* ================================================================== *)
(** * services/etl_orchestrator.py *)
(* ================================================================== *)

Module ETLOrchestrator.

(** An entry of [results]: the dict of a run, or the dict of the
    [except] clause. *)
Record SourceResult := {
  sr_status : string;
  sr_records_processed : Z;
  sr_duration : option Z;
  sr_error : option string
}.

(** The [summary] dict. *)
Record Summary := {
  status : string;
  total_records : Z;
  duration_seconds : Z;
  start_time : timestamp;
  end_time : timestamp;
  sources : list (string * SourceResult);
  failed_sources : list string
}.

(** The three local variables the [for] loop updates. *)
Record Progress := {
  results : list (string * SourceResult);
  total : Z;
  failed : list string
}.

Definition of_run (result : RunResult) : SourceResult :=
  {| sr_status := run_status result;
     sr_records_processed := run_records_processed result;
     sr_duration := Some (run_duration result);
     sr_error := None |}.

Definition of_failure (e : exn) : SourceResult :=
  {| sr_status := "failed";
     sr_records_processed := 0;
     sr_duration := None;
     sr_error := Some (str_exn e) |}.

(** [for source_name, pipeline in self.pipelines.items(): ...] over the
    pipelines that are left; a pipeline is given by its name and its
    [run]. *)
Fixpoint run_pipelines (pipelines : list (string * Prog RunResult))
    (acc : Progress) : Prog Progress :=
  match pipelines with
  | [] => Ret acc
  | (source_name, pipeline_run) :: rest =>
      acc ←
        try_except
          (result ← pipeline_run;
           Ret {| results := (results acc ++ [(source_name, of_run result)])%list;
                  total := (total acc + run_records_processed result)%Z;
                  failed := failed acc |})
          (fun e =>
             Ret {| results := (results acc ++ [(source_name, of_failure e)])%list;
                    total := total acc;
                    failed := (failed acc ++ [source_name])%list |});
      run_pipelines rest acc
  end.

(** [run_full_etl] over any registry. *)
Definition run_all (pipelines : list (string * Prog RunResult)) : Prog Summary :=
  start_time ← datetime_now;
  acc ← run_pipelines pipelines {| results := []; total := 0; failed := [] |};
  end_time ← datetime_now;
  let duration := (end_time - start_time)%Z in
  let overall_status :=
    if BasePipeline.is_empty (failed acc) then "success" else "partial_failure" in
  let overall_status :=
    if (len (failed acc) =? len pipelines)%Z then "failed" else overall_status in
  Ret {| status := overall_status;
         total_records := total acc;
         duration_seconds := duration;
         start_time := start_time;
         end_time := end_time;
         sources := results acc;
         failed_sources := failed acc |}.

Section WithSettings.
Context {lit : NumericLiterals} {sim : StringSimilarity}.
Variable settings : Settings.

(** [self.pipelines], in the order of the dict literal. *)
Definition pipelines : list (string * BasePipeline.Pipeline) :=
  [("coinpaprika", CoinPaprikaPipeline.pipeline settings);
   ("coingecko", CoinGeckoPipeline.pipeline settings);
   ("csv", CSVPipeline.pipeline settings)].

Definition run_full_etl : Prog Summary :=
  run_all (map (fun np => (fst np, BasePipeline.run (snd np))) pipelines).

(** [self.pipelines[source]] *)
Fixpoint registry_lookup (ps : list (string * BasePipeline.Pipeline))
    (src : string) : option BasePipeline.Pipeline :=
  match ps with
  | [] => None
  | (n, p) :: rest => if String.eqb n src then Some p else registry_lookup rest src
  end.

Definition run_single_source (src : string) : Prog RunResult :=
  match registry_lookup pipelines src with
  | None => Raise (ValueError ("Unknown source: " ++ src))
  | Some pipeline =>
      start_time ← datetime_now;
      try_except
        (result ← BasePipeline.run pipeline;
         end_time ← datetime_now;
         db.log_run src "success" (run_records_processed result)
           start_time (Some end_time) None
           (Some [("status", VStr (run_status result));
                  ("records_processed", VInt (run_records_processed result));
                  ("duration", VInt (run_duration result))]);;
         Ret result)
        (fun e =>
           end_time ← datetime_now;
           db.log_run src "failed" 0 start_time (Some end_time)
             (Some (str_exn e)) None;;
           Raise e)
  end.
End WithSettings.

End ETLOrchestrator.

(* ================================================================== *)
(** * main.py *)
(* ================================================================== *)

Module api.

(** What the endpoint answers when it does not return its model: the
    status code and the detail. *)
Record HTTPException := {
  status_code : Z;
  detail : string
}.

(** The fields of [DataResponse] that come from the query and from the
    database. *)
Record DataResponse := {
  data : list NormalizedRecord;
  total_records : Z;
  page : Z;
  page_size : Z;
  total_pages : Z;
  filters : DatabaseService.Filters
}.

(** The [filters] dict that [get_data] builds from its query
    parameters; an empty string counts as no parameter. *)
Definition build_filters (source symbol : option string)
    (min_price max_price : option Q) : DatabaseService.Filters :=
  {| DatabaseService.filter_source :=
       match source with
       | Some s => if truthy (VStr s) then Some s else None
       | None => None
       end;
     DatabaseService.filter_symbol :=
       match symbol with
       | Some s => if truthy (VStr s) then Some (upper s) else None
       | None => None
       end;
     DatabaseService.filter_min_price := min_price;
     DatabaseService.filter_max_price := max_price |}.

(** [Query(1, ge=1)] and [Query(50, ge=1, le=1000)]: the constraints that
    the framework checks before it calls the endpoint. *)
Definition valid_query (page page_size : Z) : bool :=
  (1 <=? page)%Z && (1 <=? page_size)%Z && (page_size <=? 1000)%Z.

(** GET /data against a database. *)
Definition get_data (page page_size : Z) (source symbol : option string)
    (min_price max_price : option Q) (d : DatabaseService.Database)
    : HTTPException + DataResponse :=
  if negb (valid_query page page_size)
  then inl {| status_code := 422; detail := "Unprocessable Entity" |}
  else
    let filters := build_filters source symbol min_price max_price in
    match DatabaseService.get_data page page_size filters d with
    | inr result =>
        inr {| data := DatabaseService.page_data result;
               total_records := DatabaseService.page_total result;
               page := page;
               page_size := page_size;
               total_pages := DatabaseService.page_total_pages result;
               filters := filters |}
    | inl e => inl {| status_code := 500; detail := str_exn e |}
    end.

End api.

(* ================================================================== *)
(** * A reading of plain decimal literals *)
(* ================================================================== *)

(** Digits, an optional sign and an optional fraction: the literals that
    [int], [float] and [Decimal] all read the same way. *)
Module PlainLiterals.

Definition digit (c : ascii) : option Z :=
  let n := nat_of_ascii c in
  if (48 <=? n)%nat && (n <=? 57)%nat then Some (Z.of_nat (n - 48)) else None.

(** The value of a run of digits after [acc], with how many there were. *)
Fixpoint digits (s : string) (acc : Z) (count : nat) : option (Z * nat) :=
  match s with
  | EmptyString => Some (acc, count)
  | String c rest =>
      match digit c with
      | Some d => digits rest (10 * acc + d)%Z (S count)
      | None => None
      end
  end.

Fixpoint split_dot (s : string) : string * option string :=
  match s with
  | EmptyString => (EmptyString, None)
  | String c rest =>
      if Ascii.eqb c "."%char then (EmptyString, Some rest)
      else let '(a, b) := split_dot rest in (String c a, b)
  end.

Definition unsigned_int (s : string) : option Z :=
  match digits s 0 0 with
  | Some (z, S _) => Some z
  | _ => None
  end.

Definition unsigned_decimal (s : string) : option Q :=
  match split_dot s with
  | (whole, None) => option_map inject_Z (unsigned_int whole)
  | (whole, Some frac) =>
      match digits whole 0 0, digits frac 0 0 with
      | Some (w, nw), Some (f, nf) =>
          match (nw + nf)%nat with
          | O => None
          | S _ => Some (Qred (inject_Z w + inject_Z f / inject_Z (10 ^ Z.of_nat nf)))%Q
          end
      | _, _ => None
      end
  end.

Definition signed {A} (neg : A -> A) (read : string -> option A) (s : string)
    : option A :=
  match s with
  | String "-"%char rest => option_map neg (read rest)
  | String "+"%char rest => read rest
  | _ => read s
  end.

Definition literals : NumericLiterals :=
  {| parse_float := signed Qopp unsigned_decimal;
     parse_int := signed Z.opp unsigned_int;
     parse_decimal := signed Qopp unsigned_decimal |}.

End PlainLiterals.


(* ================================================================== *)
(** * Running programs *)
(* ================================================================== *)

Section Exec.
Context {W : Type} (h : Handler W).

Lemma exec_bind {A B} (p : Prog A) (f : A -> Prog B) (w : W) :
  exec h (p ≫= f) w =
  match exec h p w with
  | (inr a, w1, t1) =>
      let '(r, w2, t2) := exec h (f a) w1 in (r, w2, (t1 ++ t2)%list)
  | (inl e, w1, t1) => (inl e, w1, t1)
  end.
Proof.
  change (p ≫= f) with (bind p f).
  revert w. induction p as [a | e | c k IH]; intros w; simpl.
  - destruct (exec h (f a) w) as [[r w2] t2]. reflexivity.
  - reflexivity.
  - destruct (h c w) as [r w1]. rewrite IH.
    destruct (exec h (k r) w1) as [[[e | a] w2] t1]; [reflexivity |].
    destruct (exec h (f a) w2) as [[r' w3] t2]. reflexivity.
Qed.

Lemma exec_try_except {A} (p : Prog A) (handler : exn -> Prog A) (w : W) :
  exec h (try_except p handler) w =
  match exec h p w with
  | (inr a, w1, t1) => (inr a, w1, t1)
  | (inl e, w1, t1) =>
      let '(r, w2, t2) := exec h (handler e) w1 in (r, w2, (t1 ++ t2)%list)
  end.
Proof.
  revert w. induction p as [a | e | c k IH]; intros w; simpl.
  - reflexivity.
  - destruct (exec h (handler e) w) as [[r w2] t2]. reflexivity.
  - destruct (h c w) as [r w1]. rewrite IH.
    destruct (exec h (k r) w1) as [[[e | a] w2] t1]; [| reflexivity].
    destruct (exec h (handler e) w2) as [[r' w3] t2]. reflexivity.
Qed.

(** A handler that raises again changes nothing. *)
Lemma exec_try_reraise {A} (p : Prog A) (w : W) :
  exec h (try_except p (fun e => Raise e)) w = exec h p w.
Proof.
  rewrite exec_try_except.
  destruct (exec h p w) as [[[e | a] w1] t1]; [| reflexivity].
  simpl. rewrite app_nil_r. reflexivity.
Qed.

Lemma exec_lift {A} (r : exn + A) (w : W) :
  exec h (lift r) w = (r, w, []).
Proof. destruct r; reflexivity. Qed.

End Exec.


(* ================================================================== *)
(** * The unique key of [crypto_data] *)
(* ================================================================== *)

Section UniqueKey.
Import DatabaseService.

(** The rows that carry the key of [r]. *)
Definition rows_with_key (r : NormalizedRecord) (rows : list NormalizedRecord)
    : list NormalizedRecord :=
  List.filter (same_key r) rows.

(** [UNIQUE(source, symbol, last_updated)] holds of a table. *)
Definition unique_key (rows : list NormalizedRecord) : Prop :=
  forall r, (length (rows_with_key r rows) <= 1)%nat.

Lemma same_key_refl r : same_key r r = true.
Proof.
  unfold same_key. rewrite !String.eqb_refl, Z.eqb_refl. reflexivity.
Qed.

Lemma same_key_spec a b :
  same_key a b = true <->
  source a = source b /\ symbol a = symbol b /\ last_updated a = last_updated b.
Proof.
  unfold same_key. rewrite !andb_true_iff, !String.eqb_eq, Z.eqb_eq. tauto.
Qed.

Lemma same_key_sym a b : same_key a b = same_key b a.
Proof.
  unfold same_key.
  rewrite (String.eqb_sym (source a)), (String.eqb_sym (symbol a)), Z.eqb_sym.
  reflexivity.
Qed.

Lemma same_key_trans a b c :
  same_key a b = true -> same_key b c = true -> same_key a c = true.
Proof.
  rewrite !same_key_spec. intros (-> & -> & ->) (-> & -> & ->). auto.
Qed.

(** Rows with the same key see the same rows. *)
Lemma same_key_exists a b rows :
  same_key a b = true ->
  existsb (same_key a) rows = existsb (same_key b) rows.
Proof.
  intros Hab. induction rows as [| x rows IH]; simpl; [reflexivity |].
  rewrite IH. f_equal.
  destruct (same_key a x) eqn:Hax, (same_key b x) eqn:Hbx; try reflexivity.
  - rewrite same_key_sym in Hab.
    rewrite (same_key_trans _ _ _ Hab Hax) in Hbx. discriminate.
  - rewrite (same_key_trans _ _ _ Hab Hbx) in Hax. discriminate.
Qed.

Lemma rows_with_key_nil r rows :
  existsb (same_key r) rows = false -> rows_with_key r rows = [].
Proof.
  unfold rows_with_key. induction rows as [| x rows IH]; simpl; [reflexivity |].
  intros H. apply orb_false_iff in H as [Hx Hrows]. rewrite Hx. auto.
Qed.

Lemma rows_with_key_present r rows :
  existsb (same_key r) rows = true -> (1 <= length (rows_with_key r rows))%nat.
Proof.
  unfold rows_with_key. induction rows as [| x rows IH]; simpl; [discriminate |].
  destruct (same_key r x); simpl; [lia | auto].
Qed.

(** The statement keeps the rows there are. *)
Lemma insert_keeps_present r rows x :
  existsb (same_key r) rows = true ->
  existsb (same_key r) (insert_on_conflict_do_nothing rows x) = true.
Proof.
  intros H. unfold insert_on_conflict_do_nothing.
  destruct (existsb (same_key x) rows); [exact H |].
  rewrite existsb_app, H. reflexivity.
Qed.

Lemma insert_makes_present rows x :
  existsb (same_key x) (insert_on_conflict_do_nothing rows x) = true.
Proof.
  unfold insert_on_conflict_do_nothing.
  destruct (existsb (same_key x) rows) eqn:H; [exact H |].
  rewrite existsb_app. simpl. rewrite same_key_refl, orb_true_r. reflexivity.
Qed.

Lemma insert_preserves_unique rows x :
  unique_key rows -> unique_key (insert_on_conflict_do_nothing rows x).
Proof.
  intros Hu r. unfold insert_on_conflict_do_nothing.
  destruct (existsb (same_key x) rows) eqn:Hx; [apply Hu |].
  unfold rows_with_key. rewrite List.filter_app, length_app. simpl.
  destruct (same_key r x) eqn:Hrx; simpl.
  - rewrite <- (same_key_exists r x rows Hrx) in Hx.
    fold (rows_with_key r rows). rewrite (rows_with_key_nil _ _ Hx). simpl. lia.
  - specialize (Hu r). unfold rows_with_key in Hu. lia.
Qed.

Lemma fold_insert_keeps_present r records rows :
  existsb (same_key r) rows = true ->
  existsb (same_key r) (fold_left insert_on_conflict_do_nothing records rows) = true.
Proof.
  revert rows. induction records as [| x records IH]; intros rows H; simpl.
  - exact H.
  - apply IH, insert_keeps_present, H.
Qed.

Lemma fold_insert_makes_present r records rows :
  In r records ->
  existsb (same_key r) (fold_left insert_on_conflict_do_nothing records rows) = true.
Proof.
  revert rows. induction records as [| x records IH]; intros rows Hin; simpl.
  - destruct Hin.
  - destruct Hin as [-> | Hin].
    + apply fold_insert_keeps_present, insert_makes_present.
    + apply IH, Hin.
Qed.

Lemma fold_insert_preserves_unique records rows :
  unique_key rows ->
  unique_key (fold_left insert_on_conflict_do_nothing records rows).
Proof.
  revert rows. induction records as [| x records IH]; intros rows H; simpl.
  - exact H.
  - apply IH, insert_preserves_unique, H.
Qed.

(** Inserting records whose keys are all there changes nothing. *)
Lemma fold_insert_noop records rows :
  (forall r, In r records -> existsb (same_key r) rows = true) ->
  fold_left insert_on_conflict_do_nothing records rows = rows.
Proof.
  induction records as [| x records IH]; intros H; simpl; [reflexivity |].
  unfold insert_on_conflict_do_nothing at 2.
  rewrite (H x (or_introl eq_refl)). apply IH.
  intros r Hr. apply H. right. exact Hr.
Qed.

Lemma fold_insert_idempotent records rows :
  let once := fold_left insert_on_conflict_do_nothing records rows in
  fold_left insert_on_conflict_do_nothing records once = once.
Proof.
  intros once. apply fold_insert_noop.
  intros r Hr. apply fold_insert_makes_present, Hr.
Qed.

(** The table only grows, and a second row never enters for a key. *)
Lemma fold_insert_prefix records rows :
  exists added, fold_left insert_on_conflict_do_nothing records rows
                = (rows ++ added)%list.
Proof.
  revert rows. induction records as [| x records IH]; intros rows; simpl.
  - exists []. rewrite app_nil_r. reflexivity.
  - unfold insert_on_conflict_do_nothing at 2.
    destruct (existsb (same_key x) rows); [apply IH |].
    destruct (IH (rows ++ [x])%list) as [added ->].
    exists (x :: added). rewrite <- app_assoc. reflexivity.
Qed.


End UniqueKey.

Definition example_record (sym : string) (t : timestamp) : NormalizedRecord :=
  {| source := "csv"; symbol := sym; name := sym; price_usd := 1;
     market_cap_usd := 1; volume_24h_usd := 1; percent_change_24h := 0;
     rank := 1; last_updated := t; raw_data := [("symbol", VStr sym)] |}.



(* ================================================================== *)
(** * [load] against the database service *)
(* ================================================================== *)

Section LoadInWorld.
Import DatabaseService.

(** The row [save_raw_data] writes for a normalized record. *)
Definition raw_row_of (r : NormalizedRecord) : RawRow :=
  {| raw_payload := raw_data r; raw_source_id := Some (symbol r) |}.

(** The batches that the loop of [load] cuts, one after the other. *)
Definition batches_at (settings : Settings) (normalized_data : list NormalizedRecord)
    (indices : list Z) : list (list NormalizedRecord) :=
  map (fun i => py_slice normalized_data i (i + CHECKPOINT_INTERVAL settings))
      indices.

Lemma insert_raw_items_app (pre data : list NormalizedRecord) (rows : list RawRow) :
  insert_raw_items (length pre) (map raw_data data)
    (map symbol (pre ++ data)) rows
  = (rows ++ map raw_row_of data)%list.
Proof.
  revert pre rows. induction data as [| r data IH]; intros pre rows; simpl.
  - rewrite app_nil_r. reflexivity.
  - assert (Hid : map symbol (pre ++ r :: data) !! length pre = Some (symbol r)).
    { rewrite map_app. simpl.
      rewrite lookup_app_r by (rewrite length_map; lia).
      rewrite length_map, Nat.sub_diag. reflexivity. }
    rewrite Hid.
    replace (S (length pre)) with (length (pre ++ [r])) by (rewrite length_app; simpl; lia).
    replace (pre ++ r :: data)%list with ((pre ++ [r]) ++ data)%list
      by (rewrite <- app_assoc; reflexivity).
    rewrite IH, <- app_assoc. reflexivity.
Qed.

Lemma save_raw_data_rows (src : string) (table : raw_table)
    (data : list NormalizedRecord) (d : Database) :
  table_map src = Some table ->
  save_raw_data src (map raw_data data) (map symbol data) d
  = (inr tt, set_raw_rows table (raw_rows table d ++ map raw_row_of data)%list d).
Proof.
  intros Ht. unfold save_raw_data. rewrite Ht.
  rewrite (insert_raw_items_app [] data). reflexivity.
Qed.

Lemma raw_rows_set_raw_rows table rows d :
  raw_rows table (set_raw_rows table rows d) = rows.
Proof. destruct table; reflexivity. Qed.

(** The loop of [load] against the service: it never raises, it folds the
    INSERT statement over the batches and leaves the raw tables alone. *)
Lemma load_batches_in_world settings src data indices total_loaded (w : World) :
  exists total w' t,
    exec world_handler (Common.load_batches settings src data indices total_loaded) w
    = (inr total, w', t) /\
    crypto_data (database w')
    = fold_left insert_on_conflict_do_nothing
        (concat (batches_at settings data indices)) (crypto_data (database w)) /\
    forall table, raw_rows table (database w') = raw_rows table (database w).
Proof.
  revert total_loaded w.
  induction indices as [| i indices IH]; intros total_loaded w.
  - exists total_loaded, w, []. simpl. auto.
  - cbn [Common.load_batches]. rewrite exec_bind, exec_try_reraise.
    set (batch := py_slice data i (i + CHECKPOINT_INTERVAL settings)).
    set (n := (total_loaded + len batch)%Z).
    set (w1 := with_database
                 (set_crypto_data
                    (fold_left insert_on_conflict_do_nothing batch
                       (crypto_data (database w))) (database w)) w).
    assert (Hstep : exists w2 t,
      exec world_handler
        (db.save_normalized_data batch;;
         (if CHECKPOINT_ENABLED settings
          then db.save_checkpoint src
                 [("last_index", VInt (i + CHECKPOINT_INTERVAL settings))] n
          else Ret tt);; Ret n) w
      = (inr n, w2, t) /\
      crypto_data (database w2) = crypto_data (database w1) /\
      forall table, raw_rows table (database w2) = raw_rows table (database w)).
    { destruct (CHECKPOINT_ENABLED settings).
      - eexists _, _. split; [reflexivity |]. split; [reflexivity |].
        intros []; reflexivity.
      - eexists _, _. split; [reflexivity |]. split; [reflexivity |].
        intros []; reflexivity. }
    destruct Hstep as (w2 & t & -> & Hc & Hr).
    destruct (IH n w2) as (total & w' & t' & -> & Hc' & Hr').
    exists total, w', (t ++ t')%list. split; [reflexivity |]. split.
    + rewrite Hc', Hc. simpl. rewrite fold_left_app. reflexivity.
    + intros table. rewrite Hr', Hr. reflexivity.
Qed.

(** The records that [load] hands to [save_normalized_data], in order. *)
Definition written (settings : Settings) (data : list NormalizedRecord)
    : list NormalizedRecord :=
  match py_range 0 (len data) (CHECKPOINT_INTERVAL settings) with
  | inl _ => []
  | inr indices => concat (batches_at settings data indices)
  end.

Lemma exec_save_raw_data src table data (w : World) :
  table_map src = Some table ->
  exec world_handler
    (db.save_raw_data src (map raw_data data) (map symbol data)) w
  = (inr tt,
     with_database
       (set_raw_rows table (raw_rows table (database w) ++ map raw_row_of data)%list
          (database w)) w,
     [Ev (SaveRawData src (map raw_data data) (map symbol data)) None]).
Proof.
  intros Ht. unfold db.save_raw_data, await. simpl. unfold on_database.
  rewrite (save_raw_data_rows src table data (database w) Ht). reflexivity.
Qed.

(** What [load] leaves in the database, for the two API pipelines. *)
Lemma api_load_in_world settings src table data (w : World) :
  table_map src = Some table ->
  let x := exec world_handler (Common.load settings src data) w in
  raw_rows table (database (state_of x))
  = (raw_rows table (database w) ++ map raw_row_of data)%list /\
  crypto_data (database (state_of x))
  = fold_left insert_on_conflict_do_nothing (written settings data)
      (crypto_data (database w)).
Proof.
  intros Ht x. subst x. unfold Common.load, written.
  rewrite exec_bind, (exec_save_raw_data src table data w Ht).
  rewrite exec_bind, exec_lift.
  destruct (py_range 0 (len data) (CHECKPOINT_INTERVAL settings)) as [e | indices].
  - unfold state_of. simpl. rewrite raw_rows_set_raw_rows.
    split; [reflexivity |]. destruct table; reflexivity.
  - rewrite exec_bind.
    match goal with
    | |- context [exec world_handler (Common.load_batches ?s ?n ?d ?i ?t) ?w1] =>
        destruct (load_batches_in_world s n d i t w1) as (total & w' & t' & -> & Hc & Hr)
    end.
    assert (Hend : forall p : Prog unit,
      (p = db.mark_checkpoint_completed src \/ p = Ret tt) ->
      raw_rows table (database (state_of (exec world_handler p w')))
      = raw_rows table (database w') /\
      crypto_data (database (state_of (exec world_handler p w')))
      = crypto_data (database w')).
    { intros p [-> | ->]; (split; [destruct table |]); reflexivity. }
    destruct (Hend (if CHECKPOINT_ENABLED settings
                    then db.mark_checkpoint_completed src else Ret tt)) as [H1 H2].
    { destruct (CHECKPOINT_ENABLED settings); auto. }
    unfold state_of in *.
    destruct (exec world_handler
                (if CHECKPOINT_ENABLED settings
                 then db.mark_checkpoint_completed src else Ret tt) w')
      as [[r3 w3] t3].
    simpl in *. rewrite H1, H2, Hr, Hc. simpl.
    rewrite raw_rows_set_raw_rows. split; [reflexivity |].
    destruct table; reflexivity.
Qed.

Lemma csv_load_in_world data (w : World) :
  let x := exec world_handler (CSVPipeline.load data) w in
  raw_rows raw_csv (database (state_of x))
  = (raw_rows raw_csv (database w) ++ map raw_row_of data)%list /\
  crypto_data (database (state_of x))
  = fold_left insert_on_conflict_do_nothing data (crypto_data (database w)).
Proof.
  intros x. subst x. unfold CSVPipeline.load.
  rewrite exec_bind, (exec_save_raw_data CSVPipeline.SOURCE_NAME raw_csv data w eq_refl).
  split; reflexivity.
Qed.

(** Of a [load] and a raw table: a call appends one raw row per record,
    whatever the table holds, and a second call with the same records
    appends them again while [crypto_data] stays as the first call left
    it. *)
Definition raw_append_only (load : list NormalizedRecord -> Prog unit)
    (table : raw_table) : Prop :=
  forall (w : World) (data : list NormalizedRecord),
    let first := state_of (exec world_handler (load data) w) in
    let second := state_of (exec world_handler (load data) first) in
    raw_rows table (database first)
    = (raw_rows table (database w) ++ map raw_row_of data)%list /\
    length (raw_rows table (database first))
    = (length (raw_rows table (database w)) + length data)%nat /\
    raw_rows table (database second)
    = (raw_rows table (database w) ++ map raw_row_of data ++ map raw_row_of data)%list /\
    crypto_data (database second) = crypto_data (database first).

Lemma api_load_raw_append_only settings src table :
  table_map src = Some table ->
  raw_append_only (Common.load settings src) table.
Proof.
  intros Ht w data first second.
  destruct (api_load_in_world settings src table data w Ht) as [Hr1 Hc1].
  destruct (api_load_in_world settings src table data first Ht) as [Hr2 Hc2].
  fold first in Hr1, Hc1. fold second in Hr2, Hc2.
  repeat split.
  - exact Hr1.
  - rewrite Hr1, length_app, length_map. reflexivity.
  - rewrite Hr2, Hr1, <- app_assoc. reflexivity.
  - rewrite Hc2, Hc1. apply fold_insert_idempotent.
Qed.

(** C10. Raw payloads are appended on every call: [load] with n records
    adds exactly n rows to the raw table of its source, and loading the
    same records again adds the same n rows once more although
    [crypto_data] gains no row. *)
Theorem load_raw_rows_append_only (settings : Settings) :
  raw_append_only (CoinGeckoPipeline.load settings) raw_coingecko /\
  raw_append_only (CoinPaprikaPipeline.load settings) raw_coinpaprika /\
  raw_append_only CSVPipeline.load raw_csv.
Proof.
  split; [| split].
  - apply api_load_raw_append_only. reflexivity.
  - apply api_load_raw_append_only. reflexivity.
  - intros w data first second.
    destruct (csv_load_in_world data w) as [Hr1 Hc1].
    destruct (csv_load_in_world data first) as [Hr2 Hc2].
    fold first in Hr1, Hc1. fold second in Hr2, Hc2.
    repeat split.
    + exact Hr1.
    + rewrite Hr1, length_app, length_map. reflexivity.
    + rewrite Hr2, Hr1, <- app_assoc. reflexivity.
    + rewrite Hc2, Hc1. apply fold_insert_idempotent.
Qed.

End LoadInWorld.


(* ================================================================== *)
(** * Runs that follow a plan of calls *)
(* ================================================================== *)

(** A run follows a plan when its calls are those of the plan, in order,
    each answered by a value, up to the end of the plan or to the first
    call that is answered by an exception; that exception is then the
    result and no further call is made. *)
Inductive follows_plan {A : Type} : list Cmd -> exn + A -> list Event -> Prop :=
| plan_done (a : A) :
    follows_plan [] (inr a) []
| plan_call (c : Cmd) (plan : list Cmd) (res : exn + A) (t : list Event) :
    follows_plan plan res t ->
    follows_plan (c :: plan) res (Ev c None :: t)
| plan_raise (c : Cmd) (plan : list Cmd) (e : exn) :
    follows_plan (c :: plan) (inl e) [Ev c (Some e)].

(** A program runs a plan when it follows it against every handler. *)
Definition runs_plan {A} (p : Prog A) (plan : list Cmd) : Prop :=
  forall (W : Type) (h : Handler W) (w : W),
    follows_plan plan (result_of (exec h p w)) (trace_of (exec h p w)).

Section Plans.
Context {A B : Type}.

Lemma follows_plan_raise_app (plan1 plan2 : list Cmd) (e : exn) (t : list Event) :
  follows_plan (A := A) plan1 (inl e) t ->
  follows_plan (A := B) (plan1 ++ plan2) (inl e) t.
Proof.
  intros H. remember (inl e : exn + A) as res eqn:Hres.
  induction H as [a | c plan res t H IH | c plan e']; simpl.
  - discriminate.
  - apply plan_call, IH, Hres.
  - injection Hres as ->. apply plan_raise.
Qed.

Lemma follows_plan_value_app (plan1 plan2 : list Cmd) (a : A) (res : exn + B)
    (t1 t2 : list Event) :
  follows_plan plan1 (inr a) t1 ->
  follows_plan plan2 res t2 ->
  follows_plan (plan1 ++ plan2) res (t1 ++ t2).
Proof.
  intros H1 H2. remember (inr a : exn + A) as r eqn:Hr.
  induction H1 as [a' | c plan r t H IH | c plan e]; simpl.
  - exact H2.
  - apply plan_call, IH, Hr.
  - discriminate.
Qed.

Lemma runs_plan_bind (p : Prog A) (f : A -> Prog B) (plan1 plan2 : list Cmd) :
  runs_plan p plan1 ->
  (forall a, runs_plan (f a) plan2) ->
  runs_plan (p ≫= f) (plan1 ++ plan2).
Proof.
  intros Hp Hf W h w. rewrite exec_bind.
  specialize (Hp W h w). unfold result_of, trace_of in *.
  destruct (exec h p w) as [[[e | a] w1] t1]; simpl in *.
  - apply follows_plan_raise_app, Hp.
  - specialize (Hf a W h w1). unfold result_of, trace_of in Hf.
    destruct (exec h (f a) w1) as [[r w2] t2]; simpl in *.
    eapply follows_plan_value_app; eassumption.
Qed.

End Plans.

Lemma runs_plan_ret {A} (a : A) : runs_plan (Ret a) [].
Proof. intros W h w. apply plan_done. Qed.

Lemma runs_plan_try_reraise {A} (p : Prog A) (plan : list Cmd) :
  runs_plan p plan -> runs_plan (try_except p (fun e => Raise e)) plan.
Proof. intros H W h w. rewrite exec_try_reraise. apply H. Qed.

Lemma runs_plan_await {A} (c : Cmd) (unpack : Reply c -> exn + A) :
  (forall r, raised (unpack r) = reply_raised c r) ->
  runs_plan (await c unpack) [c].
Proof.
  intros Hr W h w. unfold await, result_of, trace_of. simpl.
  destruct (h c w) as [r w1]. specialize (Hr r).
  destruct (unpack r) as [e | a]; simpl in *; rewrite <- Hr.
  - apply plan_raise.
  - apply plan_call, plan_done.
Qed.

(** What a run that follows a plan looks like. *)
Lemma follows_plan_prefix {A} (plan : list Cmd) (res : exn + A) (t : list Event) :
  follows_plan plan res t ->
  map ev_cmd t = take (length t) plan /\
  (forall i ev, t !! i = Some ev -> (S i < length t)%nat -> ev_raised ev = None) /\
  match res with
  | inr _ => map ev_cmd t = plan /\ Forall (fun ev => ev_raised ev = None) t
  | inl e => exists c, last t = Some (Ev c (Some e))
  end.
Proof.
  induction 1 as [a | c plan res t H (IH1 & IH2 & IH3) | c plan e].
  - simpl. repeat split; try constructor. intros i ev Hev. destruct i; discriminate.
  - simpl. split; [f_equal; exact IH1 |]. split.
    + intros [| i] ev Hev Hlt; simpl in *.
      * injection Hev as <-. reflexivity.
      * apply (IH2 i ev Hev). lia.
    + destruct res as [e | a].
      * destruct IH3 as [c' Hlast]. exists c'.
        destruct t as [| ev t]; [discriminate |]. exact Hlast.
      * destruct IH3 as [-> HF]. split; [reflexivity |].
        constructor; [reflexivity | exact HF].
  - simpl. split; [reflexivity |]. split.
    + intros [| i] ev Hev Hlt; simpl in *; lia.
    + exists c. reflexivity.
Qed.

(** In such a run a call that is not the first comes after the call that
    precedes it in the plan, and that call was answered by a value. *)
Lemma follows_plan_predecessor {A} (plan : list Cmd) (res : exn + A)
    (t : list Event) (i : nat) (ev : Event) :
  follows_plan plan res t ->
  t !! S i = Some ev ->
  plan !! S i = Some (ev_cmd ev) /\
  exists c, plan !! i = Some c /\ t !! i = Some (Ev c None).
Proof.
  intros H. revert i. induction H as [a | c plan res t H IH | c plan e]; intros i Hev.
  - discriminate.
  - simpl in Hev. destruct i as [| i].
    + destruct H as [a | c' plan res t H | c' plan e]; simpl in *;
        try discriminate; injection Hev as <-; split; try reflexivity;
        exists c; auto.
    + destruct (IH i Hev) as (Hp & c' & Hc' & Ht).
      split; [exact Hp |]. exists c'. auto.
  - discriminate.
Qed.

(** A program that runs a plan and, when no call raises, returns [a]. *)
Definition runs_plan_returning {A} (p : Prog A) (plan : list Cmd) (a : A) : Prop :=
  forall (W : Type) (h : Handler W) (w : W),
    follows_plan plan (result_of (exec h p w)) (trace_of (exec h p w)) /\
    forall v, result_of (exec h p w) = inr v -> v = a.

Lemma runs_plan_then_ret {A B} (p : Prog A) (plan : list Cmd) (b : B) :
  runs_plan p plan -> runs_plan_returning (p ≫= fun _ => Ret b) plan b.
Proof.
  intros Hp W h w. rewrite exec_bind. specialize (Hp W h w).
  unfold result_of, trace_of in *.
  destruct (exec h p w) as [[[e | a] w1] t1]; simpl in *.
  - split; [| discriminate]. rewrite <- (app_nil_r plan).
    apply (follows_plan_raise_app (A := A)), Hp.
  - rewrite app_nil_r. split; [| congruence].
    rewrite <- (app_nil_r plan), <- (app_nil_r t1).
    eapply follows_plan_value_app; [exact Hp | apply plan_done].
Qed.

Lemma runs_plan_returning_try_reraise {A} (p : Prog A) (plan : list Cmd) (a : A) :
  runs_plan_returning p plan a ->
  runs_plan_returning (try_except p (fun e => Raise e)) plan a.
Proof. intros H W h w. rewrite exec_try_reraise. apply H. Qed.

Lemma runs_plan_bind_returning {A B} (p : Prog A) (f : A -> Prog B)
    (plan1 plan2 : list Cmd) (a : A) :
  runs_plan_returning p plan1 a ->
  runs_plan (f a) plan2 ->
  runs_plan (p ≫= f) (plan1 ++ plan2).
Proof.
  intros Hp Hf W h w. rewrite exec_bind.
  destruct (Hp W h w) as [Hplan Hret]. unfold result_of, trace_of in *.
  destruct (exec h p w) as [[[e | v] w1] t1]; simpl in *.
  - apply (follows_plan_raise_app (A := A)), Hplan.
  - rewrite (Hret v eq_refl) in *.
    specialize (Hf W h w1). unfold result_of, trace_of in Hf.
    destruct (exec h (f a) w1) as [[r w2] t2]; simpl in *.
    eapply follows_plan_value_app; eassumption.
Qed.

Lemma runs_plan_returning_bind {A B} (p : Prog A) (f : A -> Prog B)
    (plan1 plan2 : list Cmd) (b : B) :
  runs_plan p plan1 ->
  (forall a, runs_plan_returning (f a) plan2 b) ->
  runs_plan_returning (p ≫= f) (plan1 ++ plan2) b.
Proof.
  intros Hp Hf W h w. rewrite exec_bind.
  specialize (Hp W h w). unfold result_of, trace_of in *.
  destruct (exec h p w) as [[[e | a] w1] t1]; simpl in *.
  - split; [| discriminate]. apply (follows_plan_raise_app (A := A)), Hp.
  - destruct (Hf a W h w1) as [Hplan Hret]. unfold result_of, trace_of in *.
    destruct (exec h (f a) w1) as [[r w2] t2]; simpl in *.
    split; [| exact Hret].
    eapply follows_plan_value_app; eassumption.
Qed.

Lemma follows_plan_lookup {A} (plan : list Cmd) (res : exn + A)
    (t : list Event) (i : nat) (ev : Event) :
  follows_plan plan res t ->
  t !! i = Some ev ->
  plan !! i = Some (ev_cmd ev).
Proof.
  intros H. revert i. induction H as [a | c plan res t H IH | c plan e]; intros i Hev.
  - discriminate.
  - destruct i as [| i]; simpl in *.
    + injection Hev as <-. reflexivity.
    + apply IH, Hev.
  - destruct i as [| i]; simpl in *; [| discriminate].
    injection Hev as <-. reflexivity.
Qed.


(* ================================================================== *)
(** * The calls of [load] *)
(* ================================================================== *)

Section LoadPlan.
Variable settings : Settings.
Variable SOURCE_NAME : string.
Variable data : list NormalizedRecord.

Let batch_size : Z := CHECKPOINT_INTERVAL settings.

(** The [k]-th batch of [b] records. *)
Definition chunk (b k : nat) : list NormalizedRecord :=
  take b (drop (k * b) data).

(** How many batches of [b] records there are. *)
Definition chunk_count (b : nat) : nat := (length data + b - 1) / b.

(** The calls for the [k]-th batch: the write, then the checkpoint with
    the number of records written so far. *)
Definition batch_plan (k : nat) : list Cmd :=
  let b := Z.to_nat batch_size in
  [SaveNormalizedData (chunk b k);
   SaveCheckpoint SOURCE_NAME
     [("last_index", VInt (Z.of_nat k * batch_size + batch_size))]
     (len (take (S k * b) data))].

(** The calls of a [load] with checkpoints. *)
Definition load_plan : list Cmd :=
  (SaveRawData SOURCE_NAME (map raw_data data) (map symbol data)
   :: concat (map batch_plan (seq 0 (chunk_count (Z.to_nat batch_size))))
   ++ [MarkCheckpointCompleted SOURCE_NAME])%list.

Hypothesis batch_size_pos : (0 < batch_size)%Z.

Lemma py_range_batches :
  py_range 0 (len data) batch_size
  = inr (map (fun k => (0 + Z.of_nat k * batch_size)%Z)
             (seq 0 (chunk_count (Z.to_nat batch_size)))).
Proof.
  unfold py_range.
  destruct (Z.eqb_spec batch_size 0) as [H0 | _]; [lia |].
  destruct (Z.ltb_spec 0 batch_size) as [_ | H0]; [| lia].
  do 3 f_equal. unfold chunk_count, len.
  rewrite <- (Z2Nat.id batch_size) at 1 2 by lia.
  set (b := Z.to_nat batch_size).
  replace (Z.of_nat (length data) - 0 + Z.of_nat b - 1)%Z
    with (Z.of_nat (length data + b - 1)) by lia.
  rewrite <- Nat2Z.inj_div, Nat2Z.id. reflexivity.
Qed.

Lemma py_slice_chunk (k : nat) :
  py_slice data (0 + Z.of_nat k * batch_size)
    (0 + Z.of_nat k * batch_size + batch_size)
  = chunk (Z.to_nat batch_size) k.
Proof.
  unfold py_slice, chunk, slice_index, len.
  set (b := Z.to_nat batch_size).
  assert (Hb : batch_size = Z.of_nat b) by (unfold b; lia).
  rewrite Hb.
  destruct (Z.ltb_spec (0 + Z.of_nat k * Z.of_nat b) 0) as [H | _]; [lia |].
  destruct (Z.ltb_spec (0 + Z.of_nat k * Z.of_nat b + Z.of_nat b) 0) as [H | _]; [lia |].
  destruct (Nat.le_gt_cases (length data) (k * b)) as [Hge | Hlt].
  - rewrite !drop_ge by lia. rewrite !take_nil. reflexivity.
  - replace (Z.to_nat (Z.min (0 + Z.of_nat k * Z.of_nat b) (Z.of_nat (length data))))
      with (k * b)%nat by lia.
    destruct (Nat.le_gt_cases b (length data - k * b)) as [Hfull | Hlast].
    + f_equal. lia.
    + rewrite !take_ge; [reflexivity | |]; rewrite length_drop; lia.
Qed.

Lemma take_chunks (count : nat) :
  concat (map (chunk (Z.to_nat batch_size)) (seq 0 count))
  = take (count * Z.to_nat batch_size) data.
Proof.
  induction count as [| count IH]; [reflexivity |].
  rewrite seq_S, map_app, concat_app, IH. simpl. rewrite app_nil_r.
  unfold chunk. rewrite take_take_drop. f_equal. lia.
Qed.

(** The batches are the data, cut. *)
Lemma concat_chunks :
  concat (map (chunk (Z.to_nat batch_size))
              (seq 0 (chunk_count (Z.to_nat batch_size)))) = data.
Proof.
  rewrite take_chunks. apply take_ge. unfold chunk_count.
  set (b := Z.to_nat batch_size). assert (0 < b)%nat by (unfold b; lia).
  pose proof (Nat.div_mod_eq (length data + b - 1) b) as Hdm.
  pose proof (Nat.mod_upper_bound (length data + b - 1) b ltac:(lia)) as Hm.
  nia.
Qed.

(** Every batch but the last has [batch_size] records, and none is empty. *)
Lemma chunk_length (k : nat) :
  (k < chunk_count (Z.to_nat batch_size))%nat ->
  (0 < length (chunk (Z.to_nat batch_size) k))%nat /\
  ((S k < chunk_count (Z.to_nat batch_size))%nat ->
   length (chunk (Z.to_nat batch_size) k) = Z.to_nat batch_size).
Proof.
  unfold chunk, chunk_count.
  set (b := Z.to_nat batch_size). assert (Hb : (0 < b)%nat) by (unfold b; lia).
  pose proof (Nat.div_mod_eq (length data + b - 1) b) as Hdm.
  pose proof (Nat.mod_upper_bound (length data + b - 1) b ltac:(lia)) as Hm.
  intros Hk. rewrite length_take, length_drop. split; [nia |].
  intros HSk. nia.
Qed.

(** The loop of [load] makes the calls of the batches that are left. *)
Lemma load_batches_runs_plan (first count : nat) :
  CHECKPOINT_ENABLED settings = true ->
  runs_plan
    (Common.load_batches settings SOURCE_NAME data
       (map (fun k => (0 + Z.of_nat k * batch_size)%Z) (seq first count))
       (len (take (first * Z.to_nat batch_size) data)))
    (concat (map batch_plan (seq first count))).
Proof.
  intros Hen. revert first. induction count as [| count IH]; intros first.
  - apply runs_plan_ret.
  - cbn [seq map concat Common.load_batches].
    apply (runs_plan_bind_returning _ _ _ _
             (len (take (S first * Z.to_nat batch_size) data))).
    + apply runs_plan_returning_try_reraise. rewrite Hen. fold batch_size.
      rewrite py_slice_chunk.
      replace (len (take (first * Z.to_nat batch_size) data)
               + len (chunk (Z.to_nat batch_size) first))%Z
        with (len (take (S first * Z.to_nat batch_size) data)).
      2:{ unfold chunk, len.
          rewrite <- Nat2Z.inj_add, <- length_app, take_take_drop.
          do 3 f_equal. lia. }
      replace (0 + Z.of_nat first * batch_size + batch_size)%Z
        with (Z.of_nat first * batch_size + batch_size)%Z by lia.
      apply (runs_plan_returning_bind _ _ [_] [_]).
      * apply runs_plan_await. intros r. reflexivity.
      * intros _. apply runs_plan_then_ret, runs_plan_await.
        intros r. reflexivity.
    + apply IH.
Qed.

(** With checkpoints enabled, [load] makes the calls of [load_plan]. *)
Lemma load_runs_plan :
  CHECKPOINT_ENABLED settings = true ->
  runs_plan (Common.load settings SOURCE_NAME data) load_plan.
Proof.
  intros Hen. unfold Common.load, load_plan.
  apply (runs_plan_bind _ _ [_]).
  { apply runs_plan_await. intros r. reflexivity. }
  intros _. fold batch_size. rewrite py_range_batches.
  change (lift (inr ?x) ≫= ?f) with (f x). cbv beta.
  apply runs_plan_bind.
  - apply (load_batches_runs_plan 0 _ Hen).
  - intros _. rewrite Hen. apply runs_plan_await. intros r. reflexivity.
Qed.

(** In the plan a checkpoint comes right after a write of normalized
    records. *)
Lemma batch_plans_checkpoint (ks : list nat) (c0 : Cmd) (j : nat) src marker n :
  (c0 :: concat (map batch_plan ks) ++ [MarkCheckpointCompleted SOURCE_NAME])%list
    !! S j = Some (SaveCheckpoint src marker n) ->
  exists batch,
    (c0 :: concat (map batch_plan ks) ++ [MarkCheckpointCompleted SOURCE_NAME])%list
      !! j = Some (SaveNormalizedData batch).
Proof.
  revert c0 j. induction ks as [| k ks IH]; intros c0 j H.
  - destruct j as [| [| j]]; discriminate.
  - cbn [map concat batch_plan app] in *.
    destruct j as [| [| j]].
    + discriminate.
    + eexists. reflexivity.
    + apply (IH _ j). exact H.
Qed.

Lemma load_plan_checkpoint (i : nat) src marker n :
  load_plan !! i = Some (SaveCheckpoint src marker n) ->
  exists j batch, i = S j /\ load_plan !! j = Some (SaveNormalizedData batch).
Proof.
  destruct i as [| j]; [discriminate |]. intros H.
  destruct (batch_plans_checkpoint _ _ _ _ _ _ H) as [batch Hb].
  exists j, batch. auto.
Qed.

End LoadPlan.

(** The calls of [CSVPipeline.load]. *)
Definition csv_load_plan (data : list NormalizedRecord) : list Cmd :=
  [SaveRawData CSVPipeline.SOURCE_NAME (map raw_data data) (map symbol data);
   SaveNormalizedData data].

Lemma csv_load_runs_plan (data : list NormalizedRecord) :
  runs_plan (CSVPipeline.load data) (csv_load_plan data).
Proof.
  unfold CSVPipeline.load, csv_load_plan.
  apply (runs_plan_bind _ _ [_] [_]).
  - apply runs_plan_await. intros r. reflexivity.
  - intros _. apply runs_plan_await. intros r. reflexivity.
Qed.

(** Of a [load]: against every collaborator it makes the calls of
    [load_plan] in order and stops at the first that raises, whose
    exception it raises; so a checkpoint is saved only right after the
    write of its batch has returned. *)
Definition checkpoints_after_writes (settings : Settings) (src : string)
    (load : list NormalizedRecord -> Prog unit) : Prop :=
  forall (data : list NormalizedRecord) (W : Type) (h : Handler W) (w : W),
    let x := exec h (load data) w in
    follows_plan (load_plan settings src data) (result_of x) (trace_of x) /\
    forall i s marker n r,
      trace_of x !! i = Some (Ev (SaveCheckpoint s marker n) r) ->
      exists j batch,
        i = S j /\ trace_of x !! j = Some (Ev (SaveNormalizedData batch) None).

Lemma api_load_checkpoints_after_writes settings src :
  CHECKPOINT_ENABLED settings = true ->
  (0 < CHECKPOINT_INTERVAL settings)%Z ->
  checkpoints_after_writes settings src (Common.load settings src).
Proof.
  intros Hen Hpos data W h w x.
  pose proof (load_runs_plan settings src data Hpos Hen W h w) as Hplan.
  fold x in Hplan. split; [exact Hplan |].
  intros i s marker n r Hi.
  destruct i as [| j].
  - pose proof (follows_plan_lookup _ _ _ _ _ Hplan Hi) as H0. discriminate.
  - destruct (follows_plan_predecessor _ _ _ j _ Hplan Hi) as (Hp & c & Hc & Ht).
    destruct (load_plan_checkpoint settings src data (S j) _ _ _ Hp)
      as (j' & batch & Hj & Hb).
    injection Hj as <-. rewrite Hc in Hb. injection Hb as ->.
    exists j, batch. auto.
Qed.

(** C5 (amended). With checkpoints enabled and a positive interval, the
    [load] of the CoinGecko and CoinPaprika pipelines writes the records
    in consecutive batches of that size; each write is followed by a
    checkpoint that carries the number of records written so far, the
    first call that raises ends [load] with its exception and nothing is
    called after it, and the checkpoint is marked completed after the
    last batch.  The [load] of the CSV pipeline writes all records in one
    call and saves no checkpoint. *)
Theorem load_checkpoints_follow_batches (settings : Settings) :
  CHECKPOINT_ENABLED settings = true ->
  (0 < CHECKPOINT_INTERVAL settings)%Z ->
  checkpoints_after_writes settings "coingecko" (CoinGeckoPipeline.load settings) /\
  checkpoints_after_writes settings "coinpaprika" (CoinPaprikaPipeline.load settings) /\
  (forall data,
     let b := Z.to_nat (CHECKPOINT_INTERVAL settings) in
     concat (map (chunk data b) (seq 0 (chunk_count data b))) = data) /\
  (forall data, runs_plan (CSVPipeline.load data) (csv_load_plan data)).
Proof.
  intros Hen Hpos. split; [| split; [| split]].
  - apply (api_load_checkpoints_after_writes settings "coingecko" Hen Hpos).
  - apply (api_load_checkpoints_after_writes settings "coinpaprika" Hen Hpos).
  - intros data b. apply concat_chunks, Hpos.
  - intros data. apply csv_load_runs_plan.
Qed.

Lemma load_checkpoints_follow_batches_witness :
  checkpoints_after_writes default_settings "coingecko"
    (CoinGeckoPipeline.load default_settings) /\
  checkpoints_after_writes default_settings "coinpaprika"
    (CoinPaprikaPipeline.load default_settings) /\
  (forall data,
     let b := Z.to_nat (CHECKPOINT_INTERVAL default_settings) in
     concat (map (chunk data b) (seq 0 (chunk_count data b))) = data) /\
  (forall data, runs_plan (CSVPipeline.load data) (csv_load_plan data)).
Proof.
  apply (load_checkpoints_follow_batches default_settings); reflexivity.
Defined.

(** A world with an empty database, no file, no response left and a
    clock that counts its readings. *)
Definition fresh_world : World :=
  {| database := DatabaseService.empty;
     clock := fun n => Z.of_nat n;
     clock_reads := 0;
     responses := [];
     files := [];
     slept := [] |}.

(** With checkpoints enabled, a [load] of the CSV pipeline that succeeds
    has written its record and has saved no checkpoint. *)
Lemma csv_load_saves_no_checkpoint :
  let data := [example_record "BTC" 7] in
  let x := exec world_handler (CSVPipeline.load data) fresh_world in
  CHECKPOINT_ENABLED default_settings = true /\
  result_of x = inr tt /\
  DatabaseService.crypto_data (database (state_of x)) = data /\
  DatabaseService.etl_checkpoints (database (state_of x)) = [] /\
  map ev_cmd (trace_of x) = csv_load_plan data /\
  ~ exists i s marker n r,
      trace_of x !! i = Some (Ev (SaveCheckpoint s marker n) r).
Proof.
  repeat split.
  intros (i & s & marker & n & r & H).
  destruct i as [| [| [| i]]]; discriminate.
Qed.

(** With an interval of zero [range] raises once the raw rows are in, and
    with a negative interval the loop has no turn: no normalized record
    is written. *)
Example load_zero_interval :
  let settings :=
    {| COINPAPRIKA_API_KEY := None; COINGECKO_API_KEY := None;
       ETL_MAX_RETRIES := 3; RATE_LIMIT_ENABLED := true;
       COINPAPRIKA_RATE_LIMIT := 25; COINGECKO_RATE_LIMIT := 50;
       BACKOFF_BASE_DELAY := 1; BACKOFF_MAX_DELAY := 60; BACKOFF_FACTOR := 2;
       CHECKPOINT_ENABLED := true; CHECKPOINT_INTERVAL := 0;
       SCHEMA_DRIFT_ENABLED := true; SCHEMA_DRIFT_THRESHOLD := 8 # 10;
       CSV_FILE_PATH := "/app/data/crypto_data.csv" |} in
  let x := exec world_handler
             (CoinGeckoPipeline.load settings [example_record "BTC" 7])
             fresh_world in
  result_of x = inl (ValueError "range() arg 3 must not be zero") /\
  DatabaseService.crypto_data (database (state_of x)) = [].
Proof. split; reflexivity. Qed.

Example load_negative_interval :
  let settings :=
    {| COINPAPRIKA_API_KEY := None; COINGECKO_API_KEY := None;
       ETL_MAX_RETRIES := 3; RATE_LIMIT_ENABLED := true;
       COINPAPRIKA_RATE_LIMIT := 25; COINGECKO_RATE_LIMIT := 50;
       BACKOFF_BASE_DELAY := 1; BACKOFF_MAX_DELAY := 60; BACKOFF_FACTOR := 2;
       CHECKPOINT_ENABLED := true; CHECKPOINT_INTERVAL := -1;
       SCHEMA_DRIFT_ENABLED := true; SCHEMA_DRIFT_THRESHOLD := 8 # 10;
       CSV_FILE_PATH := "/app/data/crypto_data.csv" |} in
  let x := exec world_handler
             (CoinGeckoPipeline.load settings [example_record "BTC" 7])
             fresh_world in
  result_of x = inr tt /\
  DatabaseService.crypto_data (database (state_of x)) = [].
Proof. split; reflexivity. Qed.


(* ================================================================== *)
(** * The backoff delay *)
(* ================================================================== *)

Section Backoff.
Import BasePipeline.
Variable settings : Settings.


Lemma py_min_Qmin (a b : Q) : py_min a b = Qmin a b.
Proof.
  unfold py_min, Qmin, GenericMinMax.gmin.
  destruct (Qle_bool a b) eqn:Hle.
  - apply Qle_bool_iff in Hle. destruct (Qcompare_spec a b) as [H | H | H];
      try reflexivity. exfalso. exact (Qlt_not_le _ _ H Hle).
  - destruct (Qcompare_spec a b) as [H | H | H]; try reflexivity;
      exfalso; assert (Hab : (a <= b)%Q)
        by (first [rewrite H; apply Qle_refl | apply Qlt_le_weak, H]);
      apply Qle_bool_iff in Hab; congruence.
Qed.



Hypothesis base_nonneg : (0 <= BACKOFF_BASE_DELAY settings)%Q.
Hypothesis factor_ge_1 : (1 <= BACKOFF_FACTOR settings)%Q.



End Backoff.






(* ================================================================== *)
(** * The schema drift detector *)
(* ================================================================== *)

Section DriftDetector.
Import BasePipeline.
Context {sim : StringSimilarity}.
Variable settings : Settings.

(** The best match of a missing key reaches the threshold. *)
Definition fuzzy_hit (extra : gset string) (missing_key : string) : bool :=
  Qle_bool (SCHEMA_DRIFT_THRESHOLD settings) (snd (best_match_for missing_key extra)).

(** The rename hint for a missing key. *)
Definition rename_hint (extra : gset string) (missing_key : string) : Warning :=
  FieldRename missing_key (fst (best_match_for missing_key extra))
              (snd (best_match_for missing_key extra)).

(** The missing keys that are fuzzy matches, in the order of the loop. *)
Definition fuzzy_matched (expected actual : gset string) : list string :=
  List.filter (fuzzy_hit (actual ∖ expected)) (elements (expected ∖ actual)).

Definition is_type_mismatch (w : Warning) : Prop :=
  match w with TypeMismatch _ _ _ => True | FieldRename _ _ _ => False end.

(** ** The inner loop *)

Lemma better_match_fold (missing_key : string) (keys : list string)
    (b0 : option string) (s0 : Q) :
  let best := fold_left (better_match missing_key) keys (b0, s0) in
  (s0 <= snd best)%Q /\
  (forall k, In k keys -> (ratio missing_key k <= snd best)%Q) /\
  (best = (b0, s0) \/
   exists k, In k keys /\ best = (Some k, ratio missing_key k) /\
             (s0 < ratio missing_key k)%Q).
Proof.
  revert b0 s0. induction keys as [| key keys IH]; intros b0 s0; cbv zeta in *; simpl.
  - split; [apply Qle_refl |]. split; [intros k [] | left; reflexivity].
  - assert (Hb : better_match missing_key (b0, s0) key
                 = if negb (Qle_bool (ratio missing_key key) s0)
                   then (Some key, ratio missing_key key) else (b0, s0))
      by reflexivity.
    rewrite Hb. clear Hb.
    destruct (Qle_bool (ratio missing_key key) s0) eqn:Hle; simpl.
    + apply Qle_bool_iff in Hle.
      destruct (IH b0 s0) as (H1 & H2 & H3).
      split; [exact H1 |]. split.
      * intros k [<- | Hk]; [eapply Qle_trans; eassumption | apply H2, Hk].
      * destruct H3 as [H3 | (k & Hk & H3 & Hlt)]; [left; exact H3 |].
        right. exists k. split; [right; exact Hk | auto].
    + assert (Hlt : (s0 < ratio missing_key key)%Q).
      { apply Qnot_le_lt. intros H. apply Qle_bool_iff in H. congruence. }
      destruct (IH (Some key) (ratio missing_key key)) as (H1 & H2 & H3).
      split; [eapply Qle_trans; [apply Qlt_le_weak, Hlt | exact H1] |]. split.
      * intros k [<- | Hk]; [exact H1 | apply H2, Hk].
      * right. destruct H3 as [H3 | (k & Hk & H3 & Hlt')].
        -- exists key. split; [left; reflexivity | auto].
        -- exists k. split; [right; exact Hk |]. split; [exact H3 |].
           eapply Qlt_trans; eassumption.
Qed.

(** The best match of a missing key: its score is at least every ratio
    and is not negative; when it is positive the match is an extra key
    with that ratio, and otherwise there is no match. *)
Lemma best_match_for_spec (missing_key : string) (extra : gset string) :
  let best := best_match_for missing_key extra in
  (0 <= snd best)%Q /\
  (forall k, k ∈ extra -> (ratio missing_key k <= snd best)%Q) /\
  ((0 < snd best)%Q ->
   exists k, k ∈ extra /\ best = (Some k, ratio missing_key k)) /\
  (~ (0 < snd best)%Q -> best = (None, 0%Q)).
Proof.
  unfold best_match_for.
  destruct (better_match_fold missing_key (elements extra) None 0)
    as (H1 & H2 & H3).
  split; [exact H1 |]. split.
  { intros k Hk. apply H2, list_elem_of_In, elem_of_elements, Hk. }
  split.
  - intros Hpos. destruct H3 as [H3 | (k & Hk & H3 & _)].
    + rewrite H3 in Hpos. exfalso. exact (Qlt_irrefl _ Hpos).
    + exists k. split; [| exact H3].
      apply elem_of_elements, list_elem_of_In, Hk.
  - intros Hnpos. destruct H3 as [H3 | (k & Hk & H3 & Hlt)]; [exact H3 |].
    exfalso. apply Hnpos. rewrite H3. exact Hlt.
Qed.

(** ** The outer loop *)

Lemma fuzzy_step_fold (extra : gset string) (keys : list string)
    (fm : gmap string (option string * Q)) (ws : list Warning) :
  fold_left (fuzzy_step settings extra) keys (fm, ws)
  = (fold_left (fun acc m => <[m := best_match_for m extra]> acc)
       (List.filter (fuzzy_hit extra) keys) fm,
     (ws ++ map (rename_hint extra) (List.filter (fuzzy_hit extra) keys))%list).
Proof.
  revert fm ws. induction keys as [| key keys IH]; intros fm ws; simpl.
  - rewrite app_nil_r. reflexivity.
  - assert (Hstep : fuzzy_step settings extra (fm, ws) key
                    = if fuzzy_hit extra key
                      then (<[key := best_match_for key extra]> fm,
                            (ws ++ [rename_hint extra key])%list)
                      else (fm, ws)).
    { unfold fuzzy_step, fuzzy_hit, rename_hint.
      destruct (best_match_for key extra) as [bm bs]. reflexivity. }
    rewrite Hstep. clear Hstep.
    destruct (fuzzy_hit extra key); simpl.
    + rewrite IH, <- app_assoc. reflexivity.
    + apply IH.
Qed.

Lemma insert_fold_lookup (f : string -> option string * Q) (keys : list string)
    (fm : gmap string (option string * Q)) (m : string) :
  fold_left (fun acc k => <[k := f k]> acc) keys fm !! m
  = if decide (m ∈ keys) then Some (f m) else fm !! m.
Proof.
  revert fm. induction keys as [| key keys IH]; intros fm; simpl.
  - destruct (decide (m ∈ [])) as [H | _]; [| reflexivity].
    exfalso. exact (not_elem_of_nil _ H).
  - rewrite IH.
    destruct (decide (m ∈ keys)) as [Hin | Hnin],
             (decide (m ∈ key :: keys)) as [Hin' | Hnin']; try reflexivity.
    + exfalso. apply Hnin'. right. exact Hin.
    + apply elem_of_cons in Hin' as [-> | Hin']; [| contradiction].
      apply lookup_insert_eq.
    + apply lookup_insert_ne. intros ->. apply Hnin'. left.
Qed.

Lemma insert_fold_size (f : string -> option string * Q) (keys : list string)
    (fm : gmap string (option string * Q)) :
  NoDup keys -> (forall k, k ∈ keys -> fm !! k = None) ->
  size (fold_left (fun acc k => <[k := f k]> acc) keys fm)
  = (length keys + size fm)%nat.
Proof.
  revert fm. induction keys as [| key keys IH]; intros fm Hnd Hfresh; simpl.
  - reflexivity.
  - apply NoDup_cons in Hnd as [Hkey Hnd].
    rewrite IH; [| exact Hnd |].
    + rewrite map_size_insert_None by (apply Hfresh; left). lia.
    + intros k Hk. rewrite lookup_insert_ne; [apply Hfresh; right; exact Hk |].
      intros ->. contradiction.
Qed.

(** ** The loop over the keys present on both sides *)

Lemma type_step_fold (expected_schema : Schema) (sample_data : Dict)
    (keys : list string) (ws : list Warning) :
  exists mismatches,
    fold_left (type_step expected_schema sample_data) keys ws
    = (ws ++ mismatches)%list /\
    Forall is_type_mismatch mismatches.
Proof.
  revert ws. induction keys as [| key keys IH]; intros ws; simpl.
  - exists []. rewrite app_nil_r. split; [reflexivity | constructor].
  - assert (Hstep : type_step expected_schema sample_data ws key = ws \/
                    exists w, is_type_mismatch w /\
                      type_step expected_schema sample_data ws key = (ws ++ [w])%list).
    { unfold type_step.
      destruct (schema_lookup expected_schema key) as [t |]; [| left; reflexivity].
      destruct (dict_lookup sample_data key) as [v |]; [| left; reflexivity].
      destruct (type_match t v) eqn:Hm;
        destruct v; try (left; reflexivity);
        right; eexists; (split; [| reflexivity]); exact I. }
    destruct Hstep as [-> | (w & Hw & ->)]; [apply IH |].
    destruct (IH (ws ++ [w])%list) as (mismatches & -> & HF).
    exists (w :: mismatches). rewrite <- app_assoc. split; [reflexivity |].
    constructor; assumption.
Qed.

(** ** The state at the last statement *)

Variable expected_schema : Schema.
Variable sample_data : Dict.

Let expected : gset string := list_to_set (map fst expected_schema).
Let actual : gset string := list_to_set (dict_keys sample_data).
Let st : DriftState := drift_state settings expected_schema sample_data.

Lemma drift_state_sets :
  missing_keys st = expected ∖ actual /\ extra_keys st = actual ∖ expected /\
  total_expected st = size expected.
Proof.
  unfold st, drift_state. fold expected actual.
  rewrite fuzzy_step_fold. auto.
Qed.

Lemma drift_state_fuzzy_matches :
  fuzzy_matches st
  = fold_left (fun acc m => <[m := best_match_for m (actual ∖ expected)]> acc)
      (fuzzy_matched expected actual) ∅.
Proof.
  unfold st, drift_state. fold expected actual.
  rewrite fuzzy_step_fold. reflexivity.
Qed.

Lemma drift_state_warnings :
  exists mismatches,
    warnings st
    = (map (rename_hint (actual ∖ expected)) (fuzzy_matched expected actual)
       ++ mismatches)%list /\
    Forall is_type_mismatch mismatches.
Proof.
  unfold st, drift_state. fold expected actual.
  rewrite fuzzy_step_fold. simpl.
  destruct (type_step_fold expected_schema sample_data
              (elements (expected ∩ actual))
              (map (rename_hint (actual ∖ expected)) (fuzzy_matched expected actual)))
    as (mismatches & Hfold & HF).
  exists mismatches. split; [exact Hfold | exact HF].
Qed.

Lemma fuzzy_matched_NoDup : NoDup (fuzzy_matched expected actual).
Proof.
  unfold fuzzy_matched.
  apply NoDup_ListNoDup, List.NoDup_filter, NoDup_ListNoDup, NoDup_elements.
Qed.

Lemma fuzzy_matched_spec (m : string) :
  m ∈ fuzzy_matched expected actual <->
  m ∈ expected ∖ actual /\ fuzzy_hit (actual ∖ expected) m = true.
Proof.
  unfold fuzzy_matched.
  rewrite list_elem_of_In, List.filter_In, <- list_elem_of_In, elem_of_elements.
  reflexivity.
Qed.

Lemma drift_state_fuzzy_size :
  size (fuzzy_matches st) = length (fuzzy_matched expected actual).
Proof.
  rewrite drift_state_fuzzy_matches, insert_fold_size.
  - rewrite map_size_empty. lia.
  - apply fuzzy_matched_NoDup.
  - intros k _. apply lookup_empty.
Qed.

Lemma fuzzy_matched_le_missing :
  (length (fuzzy_matched expected actual) <= size (expected ∖ actual))%nat.
Proof. unfold fuzzy_matched, size, set_size. simpl. apply List.filter_length_le. Qed.

Lemma drift_state_matched :
  matched st
  = (size (expected ∩ actual) + length (fuzzy_matched expected actual))%nat /\
  (matched st <= total_expected st)%nat.
Proof.
  assert (Hm : matched st = (size (expected ∩ actual) + size (fuzzy_matches st))%nat).
  { unfold st, drift_state. fold expected actual.
    rewrite fuzzy_step_fold. reflexivity. }
  rewrite Hm, drift_state_fuzzy_size. split; [reflexivity |].
  destruct drift_state_sets as (_ & _ & ->).
  pose proof fuzzy_matched_le_missing as Hle.
  assert (Hsplit : size expected
                   = (size (expected ∩ actual) + size (expected ∖ actual))%nat).
  { rewrite <- size_union by set_solver. f_equal.
    apply set_eq. intros x. destruct (decide (x ∈ actual)); set_solver. }
  lia.
Qed.

Lemma drift_state_confidence :
  confidence st
  = if (0 <? total_expected st)%nat
    then (inject_Z (Z.of_nat (matched st)) / inject_Z (Z.of_nat (total_expected st)))%Q
    else 1%Q.
Proof.
  unfold st, drift_state. fold expected actual.
  rewrite fuzzy_step_fold. reflexivity.
Qed.

End DriftDetector.






(** What the detector does with one missing key: its best match is an
    extra key of the greatest ratio when some ratio is positive and no key
    otherwise; a score that reaches the threshold gives one rename hint
    and one fuzzy match, a score below it gives neither. *)
Definition rename_hint_rule `{StringSimilarity} (settings : Settings)
    (st : BasePipeline.DriftState) (missing_key : string) : Prop :=
  let best := BasePipeline.best_match_for missing_key (BasePipeline.extra_keys st) in
  (forall k, k ∈ BasePipeline.extra_keys st -> (ratio missing_key k <= snd best)%Q) /\
  ((0 < snd best)%Q ->
   exists k, k ∈ BasePipeline.extra_keys st /\ best = (Some k, ratio missing_key k)) /\
  (~ (0 < snd best)%Q -> best = (None, 0%Q)) /\
  if Qle_bool (SCHEMA_DRIFT_THRESHOLD settings) (snd best)
  then In (FieldRename missing_key (fst best) (snd best)) (BasePipeline.warnings st) /\
       BasePipeline.fuzzy_matches st !! missing_key = Some best
  else (forall bm bs, ~ In (FieldRename missing_key bm bs) (BasePipeline.warnings st)) /\
       BasePipeline.fuzzy_matches st !! missing_key = None.

Lemma drift_rename_hint_rule `{StringSimilarity} (settings : Settings)
    (expected_schema : Schema) (sample_data : Dict) (missing_key : string) :
  let st := BasePipeline.drift_state settings expected_schema sample_data in
  missing_key ∈ BasePipeline.missing_keys st ->
  rename_hint_rule settings st missing_key.
Proof.
  intros st Hmissing. unfold rename_hint_rule.
  destruct (drift_state_sets settings expected_schema sample_data) as (Hmk & Hek & _).
  fold st in Hmk, Hek. rewrite Hek. rewrite Hmk in Hmissing.
  set (expected := list_to_set (map fst expected_schema) : gset string) in *.
  set (actual := list_to_set (dict_keys sample_data) : gset string) in *.
  destruct (best_match_for_spec missing_key (actual ∖ expected)) as (_ & Hmax & Hpos & Hnone).
  split; [exact Hmax |]. split; [exact Hpos |]. split; [exact Hnone |].
  destruct (drift_state_warnings settings expected_schema sample_data)
    as (mismatches & Hw & HF).
  fold st expected actual in Hw.
  pose proof (drift_state_fuzzy_matches settings expected_schema sample_data) as Hfm.
  fold st expected actual in Hfm.
  pose proof (fuzzy_matched_spec settings expected_schema sample_data missing_key) as Hspec.
  fold expected actual in Hspec. unfold fuzzy_hit in Hspec.
  rewrite Hfm, insert_fold_lookup, Hw.
  destruct (Qle_bool (SCHEMA_DRIFT_THRESHOLD settings)
              (snd (BasePipeline.best_match_for missing_key (actual ∖ expected))))
    eqn:Hhit.
  - assert (Hin : missing_key ∈ fuzzy_matched settings expected actual)
      by (apply Hspec; auto).
    split.
    + apply in_or_app. left. apply in_map_iff. exists missing_key.
      split; [reflexivity | apply list_elem_of_In, Hin].
    + rewrite decide_True by exact Hin. reflexivity.
  - assert (Hnin : ~ missing_key ∈ fuzzy_matched settings expected actual).
    { intros Hin. apply Hspec in Hin as [_ Hin]. discriminate. }
    split.
    + intros bm bs Hin. apply in_app_or in Hin as [Hin | Hin].
      * apply in_map_iff in Hin as (m & Hm & Hin). unfold rename_hint in Hm.
        injection Hm as -> _ _. apply Hnin, list_elem_of_In, Hin.
      * rewrite Forall_forall in HF. apply list_elem_of_In in Hin.
        exact (HF _ Hin).
    + rewrite decide_False by exact Hnin. apply lookup_empty.
Qed.

(** C9 (amended). For each expected key that the observed record lacks,
    the score of the detector is the greatest similarity ratio between
    that key and the extra observed keys, or zero when no ratio is
    positive; the match is an extra key with that ratio when the score is
    positive and no key otherwise.  When the score is at least the
    threshold, the warnings contain the rename hint of the missing key and
    its match and the key is counted as a fuzzy match; otherwise they
    contain no hint for it.  In particular, for expected keys {a, b, c} and
    observed keys {a, b, d} with a similarity of c and d that is positive
    and at least the threshold, the report has the hint c -> d and the
    confidence (2 + 1) / 3. *)
Theorem drift_rename_hints `{StringSimilarity} (settings : Settings) :
  (forall expected_schema sample_data missing_key,
     let st := BasePipeline.drift_state settings expected_schema sample_data in
     missing_key ∈ BasePipeline.missing_keys st ->
     rename_hint_rule settings st missing_key) /\
  (forall a b c d ta tb tc va vb vd,
     let st := BasePipeline.drift_state settings
                 [(a, ta); (b, tb); (c, tc)] [(a, va); (b, vb); (d, vd)] in
     NoDup [a; b; c; d] ->
     (0 < ratio c d)%Q ->
     (SCHEMA_DRIFT_THRESHOLD settings <= ratio c d)%Q ->
     In (FieldRename c (Some d) (ratio c d)) (BasePipeline.warnings st) /\
     BasePipeline.matched st = (2 + 1)%nat /\
     BasePipeline.total_expected st = 3%nat /\
     (BasePipeline.confidence st == (2 + 1) / 3)%Q).
Proof.
  split.
  { intros expected_schema sample_data missing_key st Hm.
    apply drift_rename_hint_rule, Hm. }
  intros a b c d ta tb tc va vb vd st Hnd Hpos Hthr.
  apply NoDup_cons in Hnd as [Ha Hnd]. apply NoDup_cons in Hnd as [Hb Hnd].
  apply NoDup_cons in Hnd as [Hc _].
  assert (Hab : a <> b) by set_solver.
  assert (Hac : a <> c) by set_solver.
  assert (Had : a <> d) by set_solver.
  assert (Hbc : b <> c) by set_solver.
  assert (Hbd : b <> d) by set_solver.
  assert (Hcd : c <> d) by set_solver.
  set (schema := [(a, ta); (b, tb); (c, tc)]) in *.
  set (sample := [(a, va); (b, vb); (d, vd)]) in *.
  set (expected := list_to_set (map fst schema) : gset string).
  set (actual := list_to_set (dict_keys sample) : gset string).
  assert (Hmiss : expected ∖ actual = {[c]}).
  { unfold expected, actual, schema, sample. simpl. set_solver. }
  assert (Hextra : actual ∖ expected = {[d]}).
  { unfold expected, actual, schema, sample. simpl. set_solver. }
  assert (Hboth : expected ∩ actual = {[a]} ∪ {[b]}).
  { unfold expected, actual, schema, sample. simpl. set_solver. }
  assert (Hsize : size expected = 3%nat).
  { assert (Hexp : expected = {[a]} ∪ ({[b]} ∪ {[c]})).
    { unfold expected, schema. simpl. set_solver. }
    rewrite Hexp, !size_union, !size_singleton by set_solver. reflexivity. }
  assert (Hbest : BasePipeline.best_match_for c {[d]} = (Some d, ratio c d)).
  { unfold BasePipeline.best_match_for. rewrite elements_singleton. simpl.
    unfold BasePipeline.better_match. simpl.
    replace (Qle_bool (ratio c d) 0) with false; [reflexivity |].
    symmetry. apply not_true_is_false. intros Hle.
    apply Qle_bool_iff in Hle. exact (Qlt_not_le _ _ Hpos Hle). }
  assert (Hfm : fuzzy_matched settings expected actual = [c]).
  { unfold fuzzy_matched. rewrite Hmiss, Hextra, elements_singleton. simpl.
    unfold fuzzy_hit. rewrite Hbest. simpl.
    apply Qle_bool_iff in Hthr. rewrite Hthr. reflexivity. }
  destruct (drift_state_warnings settings schema sample) as (mismatches & Hw & _).
  destruct (drift_state_matched settings schema sample) as [Hm _].
  destruct (drift_state_sets settings schema sample) as (_ & _ & Htot).
  pose proof (drift_state_confidence settings schema sample) as Hconf.
  fold st expected actual in Hw, Hm, Htot, Hconf.
  rewrite Hfm, Hextra in Hw. rewrite Hfm, Hboth in Hm.
  rewrite size_union, !size_singleton in Hm by set_solver. simpl in Hm.
  rewrite Hsize in Htot.
  split.
  { rewrite Hw. left. unfold rename_hint. rewrite Hbest. reflexivity. }
  split; [exact Hm |]. split; [exact Htot |].
  rewrite Hconf, Hm, Htot. reflexivity.
Qed.

(** The settings of the class body but for the drift threshold. *)
Definition with_threshold (threshold : Q) : Settings :=
  {| COINPAPRIKA_API_KEY := None; COINGECKO_API_KEY := None;
     ETL_MAX_RETRIES := 3; RATE_LIMIT_ENABLED := true;
     COINPAPRIKA_RATE_LIMIT := 25; COINGECKO_RATE_LIMIT := 50;
     BACKOFF_BASE_DELAY := 1; BACKOFF_MAX_DELAY := 60; BACKOFF_FACTOR := 2;
     CHECKPOINT_ENABLED := true; CHECKPOINT_INTERVAL := 50;
     SCHEMA_DRIFT_ENABLED := true; SCHEMA_DRIFT_THRESHOLD := threshold;
     CSV_FILE_PATH := "/app/data/crypto_data.csv" |}.

Lemma drift_rename_hints_witness :
  let sim := difflib.SequenceMatcher in
  let st := BasePipeline.drift_state default_settings
              [("id", Single t_str); ("symbol", Single t_str);
               ("market_cap", AnyOf [t_int; t_float])]
              [("id", VStr "bitcoin"); ("symbol", VStr "btc");
               ("marketcap", VInt 850000000000)] in
  rename_hint_rule default_settings st "market_cap" /\
  In (FieldRename "market_cap" (Some "marketcap") (ratio "market_cap" "marketcap"))
     (BasePipeline.warnings st) /\
  BasePipeline.matched st = (2 + 1)%nat /\
  BasePipeline.total_expected st = 3%nat /\
  (BasePipeline.confidence st == (2 + 1) / 3)%Q.
Proof.
  intros sim st.
  destruct (drift_rename_hints (H := sim) default_settings) as [Hrule Hexample].
  split.
  - apply Hrule. apply elem_of_elements. vm_compute. left.
  - apply Hexample.
    + refine (bool_decide_unpack _ _). vm_compute. exact I.
    + vm_compute. reflexivity.
    + vm_compute. discriminate.
Defined.

(** With a threshold of zero and no similarity between the missing key
    and the extra key, the similarity is at least the threshold and the
    hint names no key. *)
Lemma drift_hint_without_match :
  let sim := difflib.SequenceMatcher in
  let settings := with_threshold 0 in
  let st := BasePipeline.drift_state settings
              [("id", Single t_str); ("name", Single t_str); ("rank", Single t_int)]
              [("id", VStr "btc-bitcoin"); ("name", VStr "Bitcoin"); ("x", VInt 1)] in
  NoDup ["id"; "name"; "rank"; "x"] /\
  (ratio "rank" "x" == 0)%Q /\
  (SCHEMA_DRIFT_THRESHOLD settings <= ratio "rank" "x")%Q /\
  BasePipeline.warnings st = [FieldRename "rank" None 0] /\
  ~ In (FieldRename "rank" (Some "x") (ratio "rank" "x")) (BasePipeline.warnings st).
Proof.
  intros sim settings st.
  assert (Hw : BasePipeline.warnings st = [FieldRename "rank" None 0])
    by (vm_compute; reflexivity).
  split; [refine (bool_decide_unpack _ _); vm_compute; exact I |].
  split; [vm_compute; reflexivity |].
  split; [vm_compute; discriminate |].
  split; [exact Hw |].
  rewrite Hw. intros [Hin | []]. discriminate.
Qed.


(* ================================================================== *)
(** * What a program can return *)
(* ================================================================== *)

(** Every value the program can return satisfies [P], whatever the
    answers to its calls. *)
Inductive ensures {A : Type} (P : A -> Prop) : Prog A -> Prop :=
| ensures_ret (a : A) : P a -> ensures P (Ret a)
| ensures_raise (e : exn) : ensures P (Raise e)
| ensures_do (c : Cmd) (k : Reply c -> Prog A) :
    (forall r, ensures P (k r)) -> ensures P (Do c k).

Lemma ensures_exec {A W} (P : A -> Prop) (p : Prog A) (h : Handler W) (w : W) (a : A) :
  ensures P p -> result_of (exec h p w) = inr a -> P a.
Proof.
  intros Hp. revert w. induction Hp as [a' Ha | e | c k Hk IH]; intros w; simpl.
  - unfold result_of. simpl. intros [= <-]. exact Ha.
  - unfold result_of. simpl. discriminate.
  - destruct (h c w) as [r w1]. specialize (IH r w1).
    unfold result_of in *.
    destruct (exec h (k r) w1) as [[res w2] t]. exact IH.
Qed.

Lemma ensures_bind {A B} (Q : A -> Prop) (P : B -> Prop) (p : Prog A)
    (f : A -> Prog B) :
  ensures Q p -> (forall a, Q a -> ensures P (f a)) -> ensures P (p ≫= f).
Proof.
  intros Hp Hf. change (p ≫= f) with (bind p f).
  induction Hp as [a Ha | e | c k Hk IH]; simpl.
  - apply Hf, Ha.
  - apply ensures_raise.
  - apply ensures_do. exact IH.
Qed.

Lemma ensures_true {A} (p : Prog A) : ensures (fun _ => True) p.
Proof.
  induction p as [a | e | c k IH].
  - apply ensures_ret. exact I.
  - apply ensures_raise.
  - apply ensures_do. exact IH.
Qed.

Lemma ensures_then {A B} (P : B -> Prop) (p : Prog A) (f : A -> Prog B) :
  (forall a, ensures P (f a)) -> ensures P (p ≫= f).
Proof.
  intros Hf. apply (ensures_bind (fun _ => True)); [apply ensures_true | auto].
Qed.

Lemma ensures_try_except {A} (P : A -> Prop) (p : Prog A) (handler : exn -> Prog A) :
  ensures P p -> (forall e, ensures P (handler e)) -> ensures P (try_except p handler).
Proof.
  intros Hp Hh. induction Hp as [a Ha | e | c k Hk IH]; simpl.
  - apply ensures_ret, Ha.
  - apply Hh.
  - apply ensures_do. exact IH.
Qed.


(* ================================================================== *)
(** * The retry loop of [extract] *)
(* ================================================================== *)


(** The world after some answers were consumed and some sleeps made. *)
Definition later (w : World) (sleeps : list Q)
    (rest : list (exn + HttpResponse)) : World :=
  {| database := database w; clock := clock w; clock_reads := clock_reads w;
     responses := rest; files := files w; slept := (slept w ++ sleeps)%list |}.

Section RetryLoop.
Variable settings : Settings.
Variable url : string.
Variables headers params : Dict.
Variable rate_limit : Z.
Variable keep : list Dict -> list Dict.

Local Abbreviation attempt := (Common.attempt settings url headers params rate_limit keep).
Local Abbreviation retry_loop := (Common.retry_loop settings url headers params rate_limit keep).

(** The sleep before a request, when the rate is limited. *)
Definition pause : list Q :=
  if RATE_LIMIT_ENABLED settings then [(60 / inject_Z rate_limit)%Q] else [].

Definition rate_limit_usable : Prop :=
  RATE_LIMIT_ENABLED settings = true -> rate_limit <> 0%Z.



(** One turn of the loop. *)
Lemma retry_loop_turn (fuel : nat) (retry_count : Z) (w : World) :
  (retry_count < ETL_MAX_RETRIES settings)%Z ->
  exec world_handler (retry_loop (S fuel) retry_count) w
  = match exec world_handler (attempt retry_count) w with
    | (inl e, w1, t1) => (inl e, w1, t1)
    | (inr (Common.Returned all_data), w1, t1) =>
        (inr (all_data, retry_count), w1, t1)
    | (inr (Common.Again retry_count'), w1, t1) =>
        let '(r, w2, t2) := exec world_handler (retry_loop fuel retry_count') w1 in
        (r, w2, (t1 ++ t2)%list)
    end.
Proof.
  intros Hlt. cbn [Common.retry_loop].
  destruct (Z.ltb_spec retry_count (ETL_MAX_RETRIES settings)) as [_ | H]; [| lia].
  rewrite exec_bind.
  destruct (exec world_handler (attempt retry_count) w) as [[[e | [all_data | rc]] w1] t1];
    try reflexivity.
  simpl. rewrite app_nil_r. reflexivity.
Qed.


(** A turn that goes on has added one to [retry_count]. *)
Lemma attempt_increments (retry_count : Z) :
  ensures (fun step => match step with
                       | Common.Again retry_count' => retry_count' = (retry_count + 1)%Z
                       | Common.Returned _ => True
                       end)
          (attempt retry_count).
Proof.
  unfold Common.attempt. apply ensures_try_except.
  - apply ensures_then. intros _. apply ensures_then. intros response.
    destruct (status response =? 429)%Z.
    + apply ensures_then. intros delay. apply ensures_then. intros _.
      apply ensures_ret. reflexivity.
    + apply ensures_then. intros _. apply ensures_then. intros data.
      apply ensures_ret. exact I.
  - intros e. destruct (is_client_error e); [| apply ensures_raise].
    destruct (retry_count + 1 <? ETL_MAX_RETRIES settings)%Z; [| apply ensures_raise].
    apply ensures_then. intros delay. apply ensures_then. intros _.
    apply ensures_ret. reflexivity.
Qed.

(** The fuel of [extract] is enough: more fuel changes nothing, against
    any handler. *)
Lemma retry_loop_fuel {W} (h : Handler W) (fuel1 fuel2 : nat) (retry_count : Z) (w : W) :
  (Z.to_nat (ETL_MAX_RETRIES settings - retry_count) <= fuel1)%nat ->
  (Z.to_nat (ETL_MAX_RETRIES settings - retry_count) <= fuel2)%nat ->
  exec h (retry_loop fuel1 retry_count) w = exec h (retry_loop fuel2 retry_count) w.
Proof.
  revert fuel2 retry_count w.
  induction fuel1 as [| fuel1 IH]; intros fuel2 retry_count w H1 H2;
    destruct (retry_count <? ETL_MAX_RETRIES settings)%Z eqn:Hltb.
  - apply Z.ltb_lt in Hltb. lia.
  - destruct fuel2; cbn [Common.retry_loop]; rewrite Hltb; reflexivity.
  - apply Z.ltb_lt in Hltb as Hlt.
    destruct fuel2 as [| fuel2]; [lia |].
    cbn [Common.retry_loop]. rewrite Hltb, !exec_bind.
    pose proof (fun a => ensures_exec _ _ h w a (attempt_increments retry_count))
      as Hinc.
    unfold result_of in Hinc.
    destruct (exec h (attempt retry_count) w) as [[[e | [data | rc]] w1] t1];
      try reflexivity.
    specialize (Hinc _ eq_refl). simpl in Hinc. subst rc.
    rewrite (IH fuel2) by lia. reflexivity.
  - destruct fuel2; cbn [Common.retry_loop]; rewrite Hltb; reflexivity.
Qed.



End RetryLoop.



Lemma exec_get_last_checkpoint (src : string) (w : World) :
  exists checkpoint,
    exec world_handler (db.get_last_checkpoint src) w
    = (inr checkpoint, with_database (database w) w,
       [Ev (GetLastCheckpoint src) None]).
Proof. eexists. reflexivity. Qed.







Definition bitcoin_ticker (sym : string) : Dict :=
  [("id", VStr "btc-bitcoin"); ("name", VStr "Bitcoin"); ("symbol", VStr sym);
   ("rank", VInt 1);
   ("quotes", VDict [("USD", VDict [("price", VFloat (90001 # 2));
                                    ("market_cap", VInt 850000000000);
                                    ("volume_24h", VInt 25000000000);
                                    ("percent_change_24h", VFloat (5 # 2))])])].





(* ================================================================== *)
(** * The orchestrator *)
(* ================================================================== *)

Section Orchestrator.
Import ETLOrchestrator.

(** The outcome of a pipeline: the dict its [run] returned or the
    exception it raised. *)
Abbreviation Outcome := (exn + RunResult)%type.

(** The entry of [results] for an outcome: a failure has the status
    "failed", no record processed and the message of the exception. *)
Definition entry (o : Outcome) : SourceResult :=
  match o with
  | inr result => of_run result
  | inl e => {| sr_status := "failed"; sr_records_processed := 0;
                sr_duration := None; sr_error := Some (str_exn e) |}
  end.

Definition has_failed (o : Outcome) : bool :=
  match o with inl _ => true | inr _ => false end.

(** The names of the pipelines that failed, in order. *)
Definition failures (outcomes : list (string * Outcome)) : list string :=
  map fst (List.filter (fun no => has_failed (snd no)) outcomes).

(** The sum of the records processed by the pipelines that succeeded. *)
Fixpoint records_of_successes (outcomes : list (string * Outcome)) : Z :=
  match outcomes with
  | [] => 0
  | (_, inr result) :: rest =>
      (run_records_processed result + records_of_successes rest)%Z
  | (_, inl _) :: rest => records_of_successes rest
  end.

Context {W : Type} (h : Handler W).

(** Every pipeline runs once, in the order of the registry, from the
    state in which the one before it ended, whether that one failed or
    not. *)
Fixpoint run_each (pipelines : list (string * Prog RunResult)) (w : W)
    : list (string * Outcome) * W * list Event :=
  match pipelines with
  | [] => ([], w, [])
  | (source_name, pipeline_run) :: rest =>
      let '(o, w1, t1) := exec h pipeline_run w in
      let '(outcomes, w2, t2) := run_each rest w1 in
      ((source_name, o) :: outcomes, w2, (t1 ++ t2)%list)
  end.

Lemma run_pipelines_spec (pipelines : list (string * Prog RunResult))
    (acc : Progress) (w : W) :
  exec h (run_pipelines pipelines acc) w
  = let '(outcomes, w', t) := run_each pipelines w in
    (inr {| results := (results acc
                        ++ map (fun no => (fst no, entry (snd no))) outcomes)%list;
            total := (total acc + records_of_successes outcomes)%Z;
            failed := (failed acc ++ failures outcomes)%list |},
     w', t).
Proof.
  revert acc w. induction pipelines as [| [source_name pipeline_run] rest IH];
    intros acc w.
  - simpl. rewrite !app_nil_r, Z.add_0_r. destruct acc. reflexivity.
  - cbn [run_pipelines run_each].
    rewrite exec_bind, exec_try_except, exec_bind.
    destruct (exec h pipeline_run w) as [[[e | result] w1] t1]; simpl;
      rewrite IH; destruct (run_each rest w1) as [[outcomes w2] t2]; simpl.
    + unfold failures. simpl. rewrite <- !app_assoc. reflexivity.
    + unfold failures. simpl.
      rewrite app_nil_r, <- !app_assoc, Z.add_assoc. reflexivity.
Qed.

(** The status of the summary, as the method computes it. *)
Definition overall_status (failed_count pipeline_count : nat) : string :=
  if (failed_count =? pipeline_count)%nat then "failed"
  else if (failed_count =? 0)%nat then "success"
  else "partial_failure".

Lemma run_all_spec (pipelines : list (string * Prog RunResult)) (w : W) :
  exec h (run_all pipelines) w
  = let '(started, w0) := h DatetimeNow w in
    let '(outcomes, w1, t) := run_each pipelines w0 in
    let '(ended, w2) := h DatetimeNow w1 in
    (inr {| status := overall_status (length (failures outcomes)) (length pipelines);
            total_records := records_of_successes outcomes;
            duration_seconds := (ended - started)%Z;
            start_time := started;
            end_time := ended;
            sources := map (fun no => (fst no, entry (snd no))) outcomes;
            failed_sources := failures outcomes |},
     w2, (Ev DatetimeNow None :: t ++ [Ev DatetimeNow None])%list).
Proof.
  unfold run_all. cbn [mbind Prog_bind bind datetime_now exec].
  destruct (h DatetimeNow w) as [started w0].
  change (bind ?p ?f) with (p ≫= f).
  rewrite exec_bind, run_pipelines_spec.
  destruct (run_each pipelines w0) as [[outcomes w1] t]. simpl.
  destruct (h DatetimeNow w1) as [ended w2]. simpl.
  do 3 f_equal. f_equal.
  unfold overall_status, len.
  destruct (Z.eqb_spec (Z.of_nat (length (failures outcomes)))
                       (Z.of_nat (length pipelines))) as [Heq | Hne].
  - apply Nat2Z.inj in Heq. rewrite Heq, Nat.eqb_refl. reflexivity.
  - destruct (Nat.eqb_spec (length (failures outcomes)) (length pipelines))
      as [Heq | _]; [rewrite Heq in Hne; contradiction |].
    destruct (failures outcomes); reflexivity.
Qed.

End Orchestrator.

(** C3. [run_full_etl] runs the three registered pipelines in order, each
    one whether or not the ones before it raised.  For every outcome of
    the three runs, a pipeline that raised is recorded under its name
    with status "failed" and no record processed and is listed in
    [failed_sources]; [total_records] is the sum of the records processed
    by the pipelines that succeeded; and the status is "success" when
    none failed, "failed" when all three failed and "partial_failure"
    otherwise. *)
Theorem run_full_etl_aggregates `{NumericLiterals} `{StringSimilarity}
    (settings : Settings) {W : Type} (h : Handler W) (w : W)
    (p1 p2 p3 : Prog RunResult) :
  ETLOrchestrator.run_full_etl settings
  = ETLOrchestrator.run_all
      [("coinpaprika", BasePipeline.run (CoinPaprikaPipeline.pipeline settings));
       ("coingecko", BasePipeline.run (CoinGeckoPipeline.pipeline settings));
       ("csv", BasePipeline.run (CSVPipeline.pipeline settings))] /\
  let '(started, w0) := h DatetimeNow w in
  let '(o1, w1, t1) := exec h p1 w0 in
  let '(o2, w2, t2) := exec h p2 w1 in
  let '(o3, w3, t3) := exec h p3 w2 in
  let '(ended, w4) := h DatetimeNow w3 in
  let outcomes := [("coinpaprika", o1); ("coingecko", o2); ("csv", o3)] in
  exists summary,
    exec h (ETLOrchestrator.run_all
              [("coinpaprika", p1); ("coingecko", p2); ("csv", p3)]) w
    = (inr summary, w4,
       (Ev DatetimeNow None :: t1 ++ t2 ++ t3 ++ [Ev DatetimeNow None])%list) /\
    ETLOrchestrator.sources summary
    = [("coinpaprika", entry o1); ("coingecko", entry o2); ("csv", entry o3)] /\
    ETLOrchestrator.failed_sources summary = failures outcomes /\
    ETLOrchestrator.total_records summary = records_of_successes outcomes /\
    ETLOrchestrator.status summary
    = match length (failures outcomes) with
      | 0%nat => "success"
      | 3%nat => "failed"
      | _ => "partial_failure"
      end.
Proof.
  split; [reflexivity |].
  pose proof (run_all_spec h [("coinpaprika", p1); ("coingecko", p2); ("csv", p3)] w)
    as Hspec.
  cbn [run_each] in Hspec.
  destruct (h DatetimeNow w) as [started w0].
  destruct (exec h p1 w0) as [[o1 w1] t1].
  destruct (exec h p2 w1) as [[o2 w2] t2].
  destruct (exec h p3 w2) as [[o3 w3] t3].
  cbn [fst snd] in Hspec.
  destruct (h DatetimeNow w3) as [ended w4].
  eexists. split.
  { rewrite Hspec, app_nil_r, <- !app_assoc. reflexivity. }
  cbn [ETLOrchestrator.sources ETLOrchestrator.failed_sources
       ETLOrchestrator.total_records ETLOrchestrator.status map fst snd].
  repeat split.
  destruct o1, o2, o3; reflexivity.
Qed.


(* ================================================================== *)
(** * [BasePipeline.run] and the run log *)
(* ================================================================== *)

Section RunLog.
Import BasePipeline.
Context {W : Type} (h : Handler W).
Variable self : Pipeline.

(** A run that raises has logged a failed run as its last call: no
    record, the start time, an end time and the message of the exception
    of the stage.  The run raises that exception again, unless the log
    call raised itself. *)
Lemma run_failure_logged (w : W) (e : exn) :
  result_of (exec h (run self) w) = inl e ->
  let started := fst (h DatetimeNow w) in
  exists t0 ended e0 r,
    trace_of (exec h (run self) w)
    = (t0 ++ [Ev (LogRun (SOURCE_NAME self) "failed" 0 started (Some ended)
                         (Some (str_exn e0)) None) r])%list /\
    e = match r with Some e' => e' | None => e0 end.
Proof.
  unfold run. cbn [mbind Prog_bind bind datetime_now exec].
  destruct (h DatetimeNow w) as [started w0]. cbn [fst].
  rewrite exec_try_except.
  match goal with
  | |- context [exec h ?body w0] => destruct (exec h body w0) as [[[e0 | res] w1] t1]
  end.
  2:{ unfold result_of. simpl. discriminate. }
  cbn [mbind Prog_bind bind datetime_now exec db.log_run await].
  destruct (h DatetimeNow w1) as [ended w2].
  match goal with
  | |- context [h (LogRun ?a ?b ?c ?d ?f ?g ?i) w2] =>
      destruct (h (LogRun a b c d f g i) w2) as [[e' | []] w3]
  end; unfold result_of, trace_of; simpl; intros [= <-].
  - exists (Ev DatetimeNow None :: t1 ++ [Ev DatetimeNow None])%list, ended, e0, (Some e').
    split; [| reflexivity]. simpl. f_equal. rewrite <- app_assoc. reflexivity.
  - exists (Ev DatetimeNow None :: t1 ++ [Ev DatetimeNow None])%list, ended, e0, None.
    split; [| reflexivity]. simpl. f_equal. rewrite <- app_assoc. reflexivity.
Qed.

(** A run whose three stages succeed on data that is not empty logs a
    successful run with the number of normalized records as its last
    call. *)
Lemma run_success_logged (w w0 w1 w2 w3 w4 w5 : W) (started ended : timestamp)
    (raw : list Dict) (normalized : list NormalizedRecord)
    (t1 t2 t3 : list Event) :
  h DatetimeNow w = (started, w0) ->
  exec h (extract self) w0 = (inr raw, w1, t1) ->
  raw <> [] ->
  exec h (transform self raw) w1 = (inr normalized, w2, t2) ->
  exec h (load self normalized) w2 = (inr tt, w3, t3) ->
  h DatetimeNow w3 = (ended, w4) ->
  h (LogRun (SOURCE_NAME self) "success" (len normalized) started (Some ended)
       None (Some [("raw_count", VInt (len raw))])) w4 = (inr tt, w5) ->
  exec h (run self) w
  = (inr {| run_status := "success"; run_records_processed := len normalized;
            run_duration := (ended - started)%Z |},
     w5,
     (Ev DatetimeNow None :: t1 ++ t2 ++ t3
      ++ [Ev DatetimeNow None;
          Ev (LogRun (SOURCE_NAME self) "success" (len normalized) started
                (Some ended) None (Some [("raw_count", VInt (len raw))])) None])%list).
Proof.
  intros Hstart Hextract Hraw Htransform Hload Hend Hlog.
  unfold run. cbn [mbind Prog_bind bind datetime_now exec]. rewrite Hstart.
  rewrite exec_try_except.
  change (bind ?p ?f) with (p ≫= f).
  rewrite exec_bind, Hextract.
  destruct raw as [| item raw]; [contradiction |]. cbn [is_empty].
  rewrite exec_bind, Htransform, exec_bind, Hload.
  cbn [mbind Prog_bind bind datetime_now exec db.log_run await].
  rewrite Hend, Hlog. reflexivity.
Qed.

(** A run whose extraction is empty returns a success with no record and
    makes no call of its own after the extraction: nothing is logged. *)
Lemma run_empty_not_logged (w w0 w1 : W) (started : timestamp) (t1 : list Event) :
  h DatetimeNow w = (started, w0) ->
  exec h (extract self) w0 = (inr [], w1, t1) ->
  exec h (run self) w
  = (inr {| run_status := "success"; run_records_processed := 0;
            run_duration := 0 |},
     w1, Ev DatetimeNow None :: t1).
Proof.
  intros Hstart Hextract.
  unfold run. cbn [mbind Prog_bind bind datetime_now exec]. rewrite Hstart.
  rewrite exec_try_except.
  change (bind ?p ?f) with (p ≫= f).
  rewrite exec_bind, Hextract. simpl. rewrite app_nil_r. reflexivity.
Qed.

End RunLog.

(** A fresh world in which the CSV file has a header and no row. *)
Definition empty_csv_world : World :=
  {| database := DatabaseService.empty;
     clock := fun n => Z.of_nat n;
     clock_reads := 0;
     responses := [];
     files := [(CSV_FILE_PATH default_settings, [])];
     slept := [] |}.

(** C4. At an empty extraction [run] returns a success with no record
    processed and reports no run to [log_run]: the run log stays
    empty, although the success path and the failure path both log. *)
Theorem run_empty_extraction_logs_nothing :
  let x := exec world_handler
             (BasePipeline.run
                (CSVPipeline.pipeline (lit := PlainLiterals.literals)
                   (sim := difflib.SequenceMatcher) default_settings))
             empty_csv_world in
  result_of x = inr {| run_status := "success"; run_records_processed := 0;
                       run_duration := 0 |} /\
  DatabaseService.etl_runs (database (state_of x)) = [] /\
  map ev_cmd (trace_of x)
  = [DatetimeNow; PathExists (CSV_FILE_PATH default_settings);
     ReadCsv (CSV_FILE_PATH default_settings)].
Proof. repeat split. Qed.


(* ================================================================== *)
(** * The symbol of a normalized record *)
(* ================================================================== *)

(** A string that [upper] leaves as it is. *)
Definition upper_cased (s : string) : Prop := upper s = s.

Lemma upper_ascii_idempotent (c : ascii) :
  upper_ascii (upper_ascii c) = upper_ascii c.
Proof. destruct c as [[] [] [] [] [] [] [] []]; reflexivity. Qed.

Lemma upper_idempotent (s : string) : upper_cased (upper s).
Proof.
  unfold upper_cased. induction s as [| c s IH]; simpl; [reflexivity |].
  rewrite upper_ascii_idempotent, IH. reflexivity.
Qed.

Section Transform.
Context {lit : NumericLiterals} {sim : StringSimilarity}.
Variable settings : Settings.

(** The loop of [transform] only returns records that one of its turns
    has made. *)
Lemma transform_items_ensures (P : NormalizedRecord -> Prop)
    (transform_item : Dict -> Prog NormalizedRecord)
    (raw_data : list Dict) (normalized_records : list NormalizedRecord) :
  (forall item, ensures P (transform_item item)) ->
  Forall P normalized_records ->
  ensures (Forall P)
    (Common.transform_items transform_item raw_data normalized_records).
Proof.
  intros Hitem. revert normalized_records.
  induction raw_data as [| item raw_data IH]; intros normalized_records Hacc.
  - apply ensures_ret, Hacc.
  - cbn [Common.transform_items].
    apply (ensures_bind (Forall P)); [| intros acc Hacc'; apply IH, Hacc'].
    apply ensures_try_except; [| intros e; apply ensures_ret, Hacc].
    apply (ensures_bind P); [apply Hitem |].
    intros normalized Hn. apply ensures_ret.
    apply Forall_app. split; [exact Hacc | constructor; [exact Hn | constructor]].
Qed.

Lemma lift_ensures {A B} (P : B -> Prop) (r : exn + A) (f : A -> Prog B) :
  (forall a, ensures P (f a)) -> ensures P (lift r ≫= f).
Proof. intros Hf. apply ensures_then, Hf. Qed.

Lemma coingecko_item_upper (item : Dict) :
  ensures (fun r => upper_cased (symbol r)) (CoinGeckoPipeline.transform_item item).
Proof.
  unfold CoinGeckoPipeline.transform_item.
  repeat (apply ensures_then; intros ?).
  apply ensures_ret. apply upper_idempotent.
Qed.

Lemma csv_item_upper (item : Dict) :
  ensures (fun r => upper_cased (symbol r)) (CSVPipeline.transform_item item).
Proof.
  unfold CSVPipeline.transform_item.
  repeat (apply ensures_then; intros ?).
  apply ensures_ret. apply upper_idempotent.
Qed.

(** Every record that the [transform] of the CoinGecko pipeline and of
    the CSV pipeline returns has an upper-cased symbol, whatever the raw
    data and the answers of the collaborators. *)
Lemma coingecko_transform_upper (raw_data : list Dict) :
  ensures (Forall (fun r => upper_cased (symbol r)))
          (CoinGeckoPipeline.transform settings raw_data).
Proof.
  unfold CoinGeckoPipeline.transform. apply ensures_then. intros _.
  apply transform_items_ensures; [apply coingecko_item_upper | constructor].
Qed.

Lemma csv_transform_upper (raw_data : list Dict) :
  ensures (Forall (fun r => upper_cased (symbol r)))
          (CSVPipeline.transform settings raw_data).
Proof.
  unfold CSVPipeline.transform. apply ensures_then. intros _.
  apply transform_items_ensures; [apply csv_item_upper | constructor].
Qed.

(** The records of a [transform] are at most as many as the raw items. *)
Lemma transform_items_length {W} (h : Handler W) (w : W)
    (transform_item : Dict -> Prog NormalizedRecord)
    (raw_data : list Dict) (acc out : list NormalizedRecord) :
  result_of (exec h (Common.transform_items transform_item raw_data acc) w) = inr out ->
  (length out <= length acc + length raw_data)%nat.
Proof.
  revert acc w. induction raw_data as [| item raw_data IH]; intros acc w.
  - unfold result_of. simpl. intros [= <-]. lia.
  - cbn [Common.transform_items]. rewrite exec_bind, exec_try_except, exec_bind.
    unfold result_of in *.
    destruct (exec h (transform_item item) w) as [[[e | n] w1] t1]; simpl.
    + specialize (IH acc w1).
      destruct (exec h (Common.transform_items transform_item raw_data acc) w1)
        as [[r w2] t2]. simpl in *. intros Hr. specialize (IH Hr). lia.
    + specialize (IH (acc ++ [n])%list w1).
      destruct (exec h (Common.transform_items transform_item raw_data
                          (acc ++ [n])%list) w1) as [[r w2] t2].
      simpl in *. intros Hr. specialize (IH Hr). rewrite length_app in IH.
      simpl in IH. lia.
Qed.

End Transform.

(** The CoinGecko and CSV pipelines upper-case the symbol of every
    record they return, against any handler. *)
Lemma sibling_transforms_upper `{NumericLiterals} `{StringSimilarity}
    (settings : Settings) {W : Type} (h : Handler W) (w : W)
    (raw_data : list Dict) (out : list NormalizedRecord) :
  result_of (exec h (CoinGeckoPipeline.transform settings raw_data) w) = inr out \/
  result_of (exec h (CSVPipeline.transform settings raw_data) w) = inr out ->
  Forall (fun r => upper_cased (symbol r)) out.
Proof.
  intros [Hout | Hout]; revert Hout; apply ensures_exec.
  - apply coingecko_transform_upper.
  - apply csv_transform_upper.
Qed.

(** C2. The [transform] of the CoinPaprika pipeline keeps the symbol as
    the source gives it: an item with the symbol "btc" becomes a record
    with the symbol "btc", which is not upper-cased, whereas the CoinGecko
    and CSV pipelines return "BTC" for the same symbol. *)
Theorem coinpaprika_transform_keeps_case :
  let lit := PlainLiterals.literals in
  let sim := difflib.SequenceMatcher in
  let symbols_of (p : Prog (list NormalizedRecord)) :=
    match result_of (exec world_handler p fresh_world) with
    | inr out => inr (map symbol out)
    | inl e => inl e
    end in
  symbols_of (CoinPaprikaPipeline.transform default_settings [bitcoin_ticker "btc"])
  = inr ["btc"] /\
  ~ upper_cased "btc" /\
  symbols_of (CoinGeckoPipeline.transform default_settings
                [[("id", VStr "bitcoin"); ("symbol", VStr "btc");
                  ("name", VStr "Bitcoin"); ("current_price", VFloat (90001 # 2));
                  ("market_cap", VInt 850000000000);
                  ("total_volume", VInt 25000000000);
                  ("price_change_percentage_24h", VFloat (5 # 2));
                  ("market_cap_rank", VInt 1)]])
  = inr ["BTC"] /\
  symbols_of (CSVPipeline.transform default_settings
                [CSVPipeline.sample_row "btc" "Bitcoin" "45000.50" "850000000000"
                   "25000000000" "2.5" "1"])
  = inr ["BTC"].
Proof.
  intros lit sim symbols_of.
  split; [vm_compute; reflexivity |].
  split; [unfold upper_cased; simpl; discriminate |].
  split; vm_compute; reflexivity.
Qed.


(* ================================================================== *)
(** * Loading twice *)
(* ================================================================== *)

Section LoadTwice.
Import DatabaseService.

Lemma written_all (settings : Settings) (data : list NormalizedRecord) :
  (0 < CHECKPOINT_INTERVAL settings)%Z -> written settings data = data.
Proof.
  intros Hpos. unfold written.
  rewrite (py_range_batches settings data Hpos). unfold batches_at.
  rewrite map_map.
  rewrite (map_ext _ (chunk data (Z.to_nat (CHECKPOINT_INTERVAL settings))))
    by (intros k; apply py_slice_chunk, Hpos).
  apply concat_chunks, Hpos.
Qed.

(** Of a [load]: run twice with the same records on a table that
    satisfies its unique constraint, it leaves exactly one row for the key
    of every record, and the second run leaves [crypto_data] as the first
    left it. *)
Definition one_row_per_key (load : list NormalizedRecord -> Prog unit) : Prop :=
  forall (w : World) (data : list NormalizedRecord),
    unique_key (crypto_data (database w)) ->
    let first := state_of (exec world_handler (load data) w) in
    let second := state_of (exec world_handler (load data) first) in
    crypto_data (database second) = crypto_data (database first) /\
    forall r, In r data ->
      length (rows_with_key r (crypto_data (database second))) = 1%nat.

Lemma fold_insert_one_row (data rows : list NormalizedRecord) (r : NormalizedRecord) :
  unique_key rows -> In r data ->
  length (rows_with_key r (fold_left insert_on_conflict_do_nothing data rows)) = 1%nat.
Proof.
  intros Hu Hr.
  pose proof (fold_insert_preserves_unique data rows Hu r) as Hle.
  pose proof (rows_with_key_present r _ (fold_insert_makes_present r data rows Hr)) as Hge.
  lia.
Qed.

(** With a positive checkpoint interval the two API pipelines store one
    row per key, and the CSV pipeline does so whatever the settings. *)
Lemma load_twice_one_row_per_key (settings : Settings) :
  (0 < CHECKPOINT_INTERVAL settings)%Z ->
  one_row_per_key (CoinGeckoPipeline.load settings) /\
  one_row_per_key (CoinPaprikaPipeline.load settings) /\
  one_row_per_key CSVPipeline.load.
Proof.
  intros Hpos.
  assert (Hapi : forall src table, table_map src = Some table ->
                 one_row_per_key (Common.load settings src)).
  { intros src table Ht w data Hu first second.
    destruct (api_load_in_world settings src table data w Ht) as [_ Hc1].
    destruct (api_load_in_world settings src table data first Ht) as [_ Hc2].
    fold first in Hc1, Hc2. fold second in Hc2.
    rewrite (written_all settings data Hpos) in Hc1, Hc2.
    assert (Hsame : crypto_data (database second) = crypto_data (database first)).
    { rewrite Hc2, Hc1. apply fold_insert_idempotent. }
    split; [exact Hsame |]. intros r Hr. rewrite Hsame, Hc1.
    apply fold_insert_one_row; assumption. }
  split; [apply (Hapi "coingecko" raw_coingecko eq_refl) |].
  split; [apply (Hapi "coinpaprika" raw_coinpaprika eq_refl) |].
  intros w data Hu first second.
  destruct (csv_load_in_world data w) as [_ Hc1].
  destruct (csv_load_in_world data first) as [_ Hc2].
  fold first in Hc1, Hc2. fold second in Hc2.
  assert (Hsame : crypto_data (database second) = crypto_data (database first)).
  { rewrite Hc2, Hc1. apply fold_insert_idempotent. }
  split; [exact Hsame |]. intros r Hr. rewrite Hsame, Hc1.
  apply fold_insert_one_row; assumption.
Qed.

End LoadTwice.

(* ================================================================== *)
(** * The write methods of the database service *)
(* ================================================================== *)

Section ServiceWrites.
Import DatabaseService.

(** The rows that [save_raw_data] inserts: one per item, in order, each
    with the source id found at the position of the item, if any. *)
Definition raw_rows_of (items : list Dict) (source_ids : list string)
    : list RawRow :=
  imap (fun idx item => {| raw_payload := item;
                           raw_source_id := source_ids !! idx |}) items.

Lemma insert_raw_items_imap (idx : nat) (items : list Dict)
    (source_ids : list string) (rows : list RawRow) :
  insert_raw_items idx items source_ids rows
  = (rows ++ imap (fun i item => {| raw_payload := item;
                                    raw_source_id := source_ids !! (idx + i)%nat |})
                  items)%list.
Proof.
  revert idx rows. induction items as [| item items IH]; intros idx rows; simpl.
  - rewrite app_nil_r. reflexivity.
  - rewrite IH, <- app_assoc. simpl. rewrite Nat.add_0_r. do 2 f_equal.
    apply imap_ext. intros i x _. simpl. do 2 f_equal. lia.
Qed.



(** X2. For a known source [save_raw_data] appends one row per item to
    the raw table of the source, in the order of the items and after the
    rows already there; the row of the item at position [i] carries
    [source_ids[i]], or no source id when [source_ids] is shorter.  The
    other tables stay as they are. *)
Theorem save_raw_data_appends (src : string) (table : raw_table)
    (items : list Dict) (source_ids : list string) (d : Database) :
  table_map src = Some table ->
  let x := save_raw_data src items source_ids d in
  fst x = inr tt /\
  raw_rows table (snd x) = (raw_rows table d ++ raw_rows_of items source_ids)%list /\
  (forall i item, items !! i = Some item ->
     raw_rows table (snd x) !! (length (raw_rows table d) + i)%nat
     = Some {| raw_payload := item; raw_source_id := source_ids !! i |}) /\
  length (raw_rows table (snd x))
  = (length (raw_rows table d) + length items)%nat /\
  (forall other, other <> table -> raw_rows other (snd x) = raw_rows other d) /\
  crypto_data (snd x) = crypto_data d /\
  etl_checkpoints (snd x) = etl_checkpoints d /\
  etl_runs (snd x) = etl_runs d /\
  schema_drift_logs (snd x) = schema_drift_logs d.
Proof.
  intros Ht x. subst x. unfold save_raw_data. rewrite Ht. cbn [fst snd].
  rewrite insert_raw_items_imap.
  assert (Hrows : raw_rows table
                    (set_raw_rows table
                       (raw_rows table d ++ raw_rows_of items source_ids)%list d)
                  = (raw_rows table d ++ raw_rows_of items source_ids)%list)
    by (destruct table; reflexivity).
  change (imap _ items) with (raw_rows_of items source_ids).
  rewrite Hrows.
  split; [reflexivity |]. split; [reflexivity |]. split.
  { intros i item Hi. rewrite lookup_app_r by lia.
    replace (length (raw_rows table d) + i - length (raw_rows table d))%nat
      with i by lia.
    unfold raw_rows_of. rewrite list_lookup_imap, Hi. reflexivity. }
  split.
  { rewrite length_app. unfold raw_rows_of. rewrite length_imap. reflexivity. }
  split; [| repeat split].
  intros other Hother. destruct table, other; try reflexivity; contradiction.
Qed.

Lemma save_raw_data_appends_witness :
  let items := [[("symbol", VStr "BTC")]; [("symbol", VStr "ETH")]] in
  let x := save_raw_data "csv" items ["BTC"] empty in
  fst x = inr tt /\
  raw_rows raw_csv (snd x) = (raw_rows raw_csv empty ++ raw_rows_of items ["BTC"])%list /\
  (forall i item, items !! i = Some item ->
     raw_rows raw_csv (snd x) !! (length (raw_rows raw_csv empty) + i)%nat
     = Some {| raw_payload := item; raw_source_id := ["BTC"] !! i |}) /\
  length (raw_rows raw_csv (snd x))
  = (length (raw_rows raw_csv empty) + length items)%nat /\
  (forall other, other <> raw_csv -> raw_rows other (snd x) = raw_rows other empty) /\
  crypto_data (snd x) = crypto_data empty /\
  etl_checkpoints (snd x) = etl_checkpoints empty /\
  etl_runs (snd x) = etl_runs empty /\
  schema_drift_logs (snd x) = schema_drift_logs empty.
Proof.
  apply (save_raw_data_appends "csv" raw_csv). reflexivity.
Defined.

(** ** Checkpoints *)

Lemma pending_other (src other : string) (row : CheckpointRow) :
  other <> src -> pending other (complete src row) = pending other row.
Proof.
  intros Hne. unfold complete.
  destruct (pending src row) eqn:Hp; [| reflexivity].
  unfold pending in *. simpl.
  apply andb_true_iff in Hp as [Hs _]. apply String.eqb_eq in Hs.
  rewrite Hs. destruct (String.eqb_spec src other) as [-> | _]; [contradiction |].
  reflexivity.
Qed.

Lemma pending_complete (src : string) (row : CheckpointRow) :
  pending src (complete src row) = false.
Proof.
  unfold complete. destruct (pending src row) eqn:Hp; [| exact Hp].
  unfold pending. simpl. apply andb_false_r.
Qed.

Lemma filter_pending_complete (src : string) (rows : list CheckpointRow) :
  List.filter (pending src) (map (complete src) rows) = [].
Proof.
  induction rows as [| row rows IH]; simpl; [reflexivity |].
  rewrite pending_complete. exact IH.
Qed.

Lemma filter_pending_other (src other : string) (rows : list CheckpointRow) :
  other <> src ->
  map (fun row => (ck_data row, ck_records_processed row))
      (List.filter (pending other) (map (complete src) rows))
  = map (fun row => (ck_data row, ck_records_processed row))
        (List.filter (pending other) rows).
Proof.
  intros Hne. induction rows as [| row rows IH]; simpl; [reflexivity |].
  rewrite (pending_other src other row Hne).
  destruct (pending other row); simpl; rewrite IH; [| reflexivity].
  f_equal. unfold complete. destruct (pending src row); reflexivity.
Qed.

Lemma complete_idempotent (src : string) (row : CheckpointRow) :
  complete src (complete src row) = complete src row.
Proof.
  unfold complete at 1. rewrite pending_complete. reflexivity.
Qed.

(** What [get_last_checkpoint] returns, from the pending rows of the
    source. *)
Definition last_pending (src : string) (rows : list CheckpointRow)
    : option Checkpoint :=
  match List.rev (List.filter (pending src) rows) with
  | row :: _ => Some {| data := ck_data row;
                        records_processed := ck_records_processed row |}
  | [] => None
  end.

Lemma get_last_checkpoint_last_pending (src : string) (d : Database) :
  get_last_checkpoint src d = (inr (last_pending src (etl_checkpoints d)), d).
Proof. reflexivity. Qed.

Lemma last_pending_completed (src : string) (rows : list CheckpointRow) :
  last_pending src (map (complete src) rows) = None.
Proof. unfold last_pending. rewrite filter_pending_complete. reflexivity. Qed.

Lemma last_pending_other (src other : string) (rows : list CheckpointRow) :
  other <> src ->
  last_pending other (map (complete src) rows) = last_pending other rows.
Proof.
  intros Hne. unfold last_pending.
  pose proof (filter_pending_other src other rows Hne) as H.
  apply (f_equal (@List.rev _)) in H. rewrite <- !map_rev in H.
  destruct (List.rev (List.filter (pending other) (map (complete src) rows)))
    as [| r1 l1], (List.rev (List.filter (pending other) rows)) as [| r2 l2];
    simpl in H; try discriminate; [reflexivity |].
  injection H as H1 H2 _. rewrite H1, H2. reflexivity.
Qed.

(** X3. A checkpoint that was saved is the one [get_last_checkpoint]
    returns for its source, with the data and the count it was saved
    with, whatever checkpoints the table held before; the answer for
    every other source is what it was, and reading changes nothing. *)
Theorem checkpoint_round_trip (src : string) (checkpoint_data : Dict)
    (processed : Z) (d : Database) :
  let saved := save_checkpoint src checkpoint_data processed d in
  fst saved = inr tt /\
  get_last_checkpoint src (snd saved)
  = (inr (Some {| data := checkpoint_data; records_processed := processed |}),
     snd saved) /\
  forall other, other <> src ->
    fst (get_last_checkpoint other (snd saved)) = fst (get_last_checkpoint other d).
Proof.
  intros saved. subst saved. split; [reflexivity |]. split.
  - unfold get_last_checkpoint, save_checkpoint. cbn [fst snd etl_checkpoints set_etl_checkpoints].
    rewrite List.filter_app. cbn [List.filter]. unfold pending at 2.
    cbn [ck_source ck_completed]. rewrite String.eqb_refl. cbn [andb negb].
    rewrite rev_app_distr. reflexivity.
  - intros other Hne.
    unfold get_last_checkpoint, save_checkpoint. cbn [fst snd etl_checkpoints set_etl_checkpoints].
    rewrite List.filter_app. cbn [List.filter]. unfold pending at 2.
    cbn [ck_source ck_completed].
    destruct (String.eqb_spec src other) as [-> | _]; [contradiction |].
    cbn [andb]. rewrite app_nil_r. reflexivity.
Qed.

(** X4. After [mark_checkpoint_completed] the source has no pending
    checkpoint: [get_last_checkpoint] returns [None] for it, and returns
    what it returned before for every other source.  No row is deleted,
    no row loses its data, and marking a second time changes nothing. *)
Theorem mark_checkpoint_completed_clears (src : string) (d : Database) :
  let marked := mark_checkpoint_completed src d in
  fst marked = inr tt /\
  fst (get_last_checkpoint src (snd marked)) = inr None /\
  (forall other, other <> src ->
     fst (get_last_checkpoint other (snd marked))
     = fst (get_last_checkpoint other d)) /\
  map (fun row => (ck_source row, ck_data row, ck_records_processed row))
      (etl_checkpoints (snd marked))
  = map (fun row => (ck_source row, ck_data row, ck_records_processed row))
        (etl_checkpoints d) /\
  (forall row, In row (etl_checkpoints d) -> ck_completed row = true ->
     In row (etl_checkpoints (snd marked))) /\
  snd (mark_checkpoint_completed src (snd marked)) = snd marked.
Proof.
  intros marked. subst marked.
  split; [reflexivity |]. split.
  { rewrite get_last_checkpoint_last_pending. cbn [fst].
    unfold mark_checkpoint_completed. cbn [snd etl_checkpoints set_etl_checkpoints].
    rewrite last_pending_completed. reflexivity. }
  split.
  { intros other Hne. rewrite !get_last_checkpoint_last_pending. cbn [fst].
    unfold mark_checkpoint_completed. cbn [snd etl_checkpoints set_etl_checkpoints].
    rewrite (last_pending_other src other _ Hne). reflexivity. }
  split.
  { unfold mark_checkpoint_completed. cbn [snd etl_checkpoints set_etl_checkpoints].
    rewrite map_map. apply map_ext. intros row. unfold complete.
    destruct (pending src row); reflexivity. }
  split.
  { intros row Hin Hdone.
    unfold mark_checkpoint_completed. cbn [snd etl_checkpoints set_etl_checkpoints].
    apply in_map_iff. exists row. split; [| exact Hin].
    unfold complete, pending. rewrite Hdone, andb_false_r. reflexivity. }
  unfold mark_checkpoint_completed, set_etl_checkpoints. cbn.
  f_equal. rewrite map_map. apply map_ext. intros row. apply complete_idempotent.
Qed.

End ServiceWrites.

(* ================================================================== *)
(** * [load] at the edges of its settings *)
(* ================================================================== *)

(** The settings of the class body but for the checkpoint interval. *)
Definition with_checkpoint_interval (interval : Z) : Settings :=
  {| COINPAPRIKA_API_KEY := None; COINGECKO_API_KEY := None;
     ETL_MAX_RETRIES := 3; RATE_LIMIT_ENABLED := true;
     COINPAPRIKA_RATE_LIMIT := 25; COINGECKO_RATE_LIMIT := 50;
     BACKOFF_BASE_DELAY := 1; BACKOFF_MAX_DELAY := 60; BACKOFF_FACTOR := 2;
     CHECKPOINT_ENABLED := true; CHECKPOINT_INTERVAL := interval;
     SCHEMA_DRIFT_ENABLED := true; SCHEMA_DRIFT_THRESHOLD := 8 # 10;
     CSV_FILE_PATH := "/app/data/crypto_data.csv" |}.

Section LoadEdges.
Import DatabaseService.

Lemma py_range_negative_step (stop step : Z) :
  (0 <= stop)%Z -> (step < 0)%Z -> py_range 0 stop step = inr [].
Proof.
  intros Hstop Hstep. unfold py_range.
  destruct (Z.eqb_spec step 0) as [| _]; [lia |].
  destruct (Z.ltb_spec 0 step) as [| _]; [lia |].
  assert (Hq : ((0 - stop - step - 1) / - step < 1)%Z)
    by (apply Z.div_lt_upper_bound; lia).
  destruct ((0 - stop - step - 1) / - step)%Z; try reflexivity; lia.
Qed.

Lemma written_nonpositive (settings : Settings) (data : list NormalizedRecord) :
  (CHECKPOINT_INTERVAL settings <= 0)%Z -> written settings data = [].
Proof.
  intros Hle. unfold written.
  destruct (Z.eq_dec (CHECKPOINT_INTERVAL settings) 0%Z) as [H0 | Hne];
    [rewrite H0; reflexivity |].
  rewrite py_range_negative_step by (unfold len; lia). reflexivity.
Qed.

(** Of the [load] of an API pipeline: it makes one call, the write of the
    raw payloads, and raises; the exception is the [ValueError] of
    [range] unless the write raised itself.  Against the database service
    the raw rows are in and [crypto_data] is as it was. *)
Definition raises_after_raw_rows (src : string) (table : raw_table)
    (load : list NormalizedRecord -> Prog unit) : Prop :=
  (forall (data : list NormalizedRecord) (W : Type) (h : Handler W) (w : W),
     let x := exec h (load data) w in
     exists r,
       trace_of x = [Ev (SaveRawData src (map raw_data data) (map symbol data)) r] /\
       result_of x
       = inl (match r with
              | Some e => e
              | None => ValueError "range() arg 3 must not be zero"
              end)) /\
  forall (data : list NormalizedRecord) (w : World),
    let x := exec world_handler (load data) w in
    result_of x = inl (ValueError "range() arg 3 must not be zero") /\
    raw_rows table (database (state_of x))
    = (raw_rows table (database w) ++ map raw_row_of data)%list /\
    crypto_data (database (state_of x)) = crypto_data (database w).

Lemma api_load_zero_interval (settings : Settings) (src : string) (table : raw_table) :
  CHECKPOINT_INTERVAL settings = 0%Z ->
  table_map src = Some table ->
  raises_after_raw_rows src table (Common.load settings src).
Proof.
  intros H0 Ht. split.
  - intros data W h w x. subst x.
    unfold Common.load, db.save_raw_data, await. rewrite H0.
    cbn [mbind Prog_bind bind exec].
    destruct (h (SaveRawData src (map raw_data data) (map symbol data)) w)
      as [[e | []] w1]; simpl.
    + exists (Some e). split; reflexivity.
    + exists None. split; reflexivity.
  - intros data w x.
    destruct (api_load_in_world settings src table data w Ht) as [Hr Hc].
    fold x in Hr, Hc. rewrite written_nonpositive in Hc by lia.
    split; [| split; [exact Hr | exact Hc]].
    subst x. unfold Common.load.
    rewrite exec_bind, (exec_save_raw_data src table data w Ht), H0.
    reflexivity.
Qed.

(** X5. With [CHECKPOINT_INTERVAL] at zero the [load] of the CoinGecko and
    CoinPaprika pipelines makes one call, the write of the raw payloads,
    and raises: the [ValueError] of [range(0, n, 0)] unless that write
    raised itself, whatever the records, even none.  No normalized record
    is written and no checkpoint call is made; against the database
    service the raw rows are stored. *)
Theorem load_zero_interval_raises (settings : Settings) :
  CHECKPOINT_INTERVAL settings = 0%Z ->
  raises_after_raw_rows "coingecko" raw_coingecko (CoinGeckoPipeline.load settings) /\
  raises_after_raw_rows "coinpaprika" raw_coinpaprika
    (CoinPaprikaPipeline.load settings).
Proof.
  intros H0. split; apply api_load_zero_interval; auto.
Qed.

Lemma load_zero_interval_raises_witness :
  raises_after_raw_rows "coingecko" raw_coingecko
    (CoinGeckoPipeline.load (with_checkpoint_interval 0)) /\
  raises_after_raw_rows "coinpaprika" raw_coinpaprika
    (CoinPaprikaPipeline.load (with_checkpoint_interval 0)).
Proof.
  apply (load_zero_interval_raises (with_checkpoint_interval 0)). reflexivity.
Defined.

(** Of the [load] of an API pipeline: its calls are the write of the raw
    payloads and, with checkpoints enabled, the completion of the
    checkpoint; no batch is written.  Against the database service it
    returns and [crypto_data] is as it was. *)
Definition writes_no_batch (settings : Settings) (src : string)
    (load : list NormalizedRecord -> Prog unit) : Prop :=
  (forall data : list NormalizedRecord,
     runs_plan (load data)
       (SaveRawData src (map raw_data data) (map symbol data)
        :: if CHECKPOINT_ENABLED settings
           then [MarkCheckpointCompleted src] else [])) /\
  forall (data : list NormalizedRecord) (w : World),
    let x := exec world_handler (load data) w in
    result_of x = inr tt /\
    crypto_data (database (state_of x)) = crypto_data (database w).

Lemma api_load_negative_interval (settings : Settings) (src : string)
    (table : raw_table) :
  (CHECKPOINT_INTERVAL settings < 0)%Z ->
  table_map src = Some table ->
  writes_no_batch settings src (Common.load settings src).
Proof.
  intros Hneg Ht. split.
  - intros data. unfold Common.load.
    apply (runs_plan_bind _ _ [_]).
    { apply runs_plan_await. intros r. reflexivity. }
    intros _. rewrite py_range_negative_step by (unfold len; lia).
    change (lift (inr ?x) ≫= ?f) with (f x). cbv beta.
    cbn [Common.load_batches].
    change (Ret 0%Z ≫= ?f) with (f 0%Z). cbv beta.
    destruct (CHECKPOINT_ENABLED settings).
    + apply runs_plan_await. intros r. reflexivity.
    + apply runs_plan_ret.
  - intros data w x.
    destruct (api_load_in_world settings src table data w Ht) as [_ Hc].
    fold x in Hc. rewrite written_nonpositive in Hc by lia.
    split; [| exact Hc].
    subst x. unfold Common.load.
    rewrite exec_bind, (exec_save_raw_data src table data w Ht).
    rewrite py_range_negative_step by (unfold len; lia).
    destruct (CHECKPOINT_ENABLED settings); reflexivity.
Qed.

(** X6. With a negative [CHECKPOINT_INTERVAL] the loop of [load] has no
    turn: the CoinGecko and CoinPaprika pipelines write the raw payloads,
    mark the checkpoint completed when checkpoints are enabled, and
    return as after a success, although no normalized record was handed
    to [save_normalized_data]. *)
Theorem load_negative_interval_writes_nothing (settings : Settings) :
  (CHECKPOINT_INTERVAL settings < 0)%Z ->
  writes_no_batch settings "coingecko" (CoinGeckoPipeline.load settings) /\
  writes_no_batch settings "coinpaprika" (CoinPaprikaPipeline.load settings).
Proof.
  intros Hneg.
  split; [apply (api_load_negative_interval settings "coingecko" raw_coingecko)
         | apply (api_load_negative_interval settings "coinpaprika" raw_coinpaprika)];
    auto.
Qed.

Lemma load_negative_interval_writes_nothing_witness :
  writes_no_batch (with_checkpoint_interval (-1)) "coingecko"
    (CoinGeckoPipeline.load (with_checkpoint_interval (-1))) /\
  writes_no_batch (with_checkpoint_interval (-1)) "coinpaprika"
    (CoinPaprikaPipeline.load (with_checkpoint_interval (-1))).
Proof.
  apply (load_negative_interval_writes_nothing (with_checkpoint_interval (-1))).
  reflexivity.
Defined.

(** ** The checkpoints that a [load] leaves *)






(** ** The normalized rows that a [load] leaves *)

Lemma fold_insert_sublist (records rows : list NormalizedRecord) :
  exists added,
    fold_left insert_on_conflict_do_nothing records rows = (rows ++ added)%list /\
    sublist added records.
Proof.
  revert rows. induction records as [| x records IH]; intros rows; simpl.
  - exists []. rewrite app_nil_r. split; [reflexivity | constructor].
  - unfold insert_on_conflict_do_nothing at 2.
    destruct (existsb (same_key x) rows).
    + destruct (IH rows) as (added & -> & Hsub).
      exists added. split; [reflexivity | apply sublist_cons, Hsub].
    + destruct (IH (rows ++ [x])%list) as (added & -> & Hsub).
      exists (x :: added). rewrite <- app_assoc.
      split; [reflexivity | apply sublist_skip, Hsub].
Qed.

Lemma written_sublist (settings : Settings) (data : list NormalizedRecord) :
  sublist (written settings data) data.
Proof.
  destruct (Z.lt_ge_cases 0 (CHECKPOINT_INTERVAL settings)) as [Hpos | Hle].
  - rewrite written_all by exact Hpos. reflexivity.
  - rewrite written_nonpositive by exact Hle. apply sublist_nil_l.
Qed.

(** Of a [load] against the database service: the rows of [crypto_data]
    stay, in their order; the rows added after them are records of the
    call, in their order; and the unique constraint holds afterwards if it
    held before. *)
Definition keeps_normalized_rows (load : list NormalizedRecord -> Prog unit)
    : Prop :=
  forall (data : list NormalizedRecord) (w : World),
    let before := crypto_data (database w) in
    let after := crypto_data (database (state_of (exec world_handler (load data) w))) in
    (exists added, after = (before ++ added)%list /\ sublist added data) /\
    (unique_key before -> unique_key after).

Lemma keeps_normalized_rows_fold (load : list NormalizedRecord -> Prog unit)
    (inserted : list NormalizedRecord -> list NormalizedRecord) :
  (forall data, sublist (inserted data) data) ->
  (forall data w,
     crypto_data (database (state_of (exec world_handler (load data) w)))
     = fold_left insert_on_conflict_do_nothing (inserted data)
         (crypto_data (database w))) ->
  keeps_normalized_rows load.
Proof.
  intros Hsub Hfold data w before after. subst before after.
  rewrite Hfold. split.
  - destruct (fold_insert_sublist (inserted data) (crypto_data (database w)))
      as (added & -> & Hadded).
    exists added. split; [reflexivity |].
    etrans; [exact Hadded | apply Hsub].
  - apply fold_insert_preserves_unique.
Qed.

(** X8. Whatever the settings, a [load] of any of the three pipelines
    against the database service deletes and changes no row of
    [crypto_data]: the rows that were there stay in place, what is added
    comes after them and consists of records of the call in their order,
    and a table that satisfied [UNIQUE(source, symbol, last_updated)]
    still does. *)
Theorem load_keeps_normalized_rows (settings : Settings) :
  keeps_normalized_rows (CoinGeckoPipeline.load settings) /\
  keeps_normalized_rows (CoinPaprikaPipeline.load settings) /\
  keeps_normalized_rows CSVPipeline.load.
Proof.
  split; [| split].
  - apply (keeps_normalized_rows_fold _ (written settings));
      [apply written_sublist |].
    intros data w.
    apply (api_load_in_world settings "coingecko" raw_coingecko data w eq_refl).
  - apply (keeps_normalized_rows_fold _ (written settings));
      [apply written_sublist |].
    intros data w.
    apply (api_load_in_world settings "coinpaprika" raw_coinpaprika data w eq_refl).
  - apply (keeps_normalized_rows_fold _ (fun data => data)); [reflexivity |].
    intros data w. apply (csv_load_in_world data w).
Qed.





End LoadEdges.

(* ================================================================== *)
(** * What [run] and [run_single_source] log *)
(* ================================================================== *)

Section RunOutcome.
Import BasePipeline.
Context {W : Type} (h : Handler W).
Variable self : Pipeline.

(** X10. Against any collaborators, [run] ends in one of three ways.  It
    raises, and its last call is then [log_run] with the status "failed",
    no record, the start time and the message of the exception of the
    stage, which is raised again unless that call raised itself.  Or the
    extraction was empty, and it returns a success with no record and a
    duration of zero without any call after the extraction.  Or it
    returns a success whose last two calls are the clock and [log_run]
    with the status "success", the number of records it returns and the
    number of raw items, its duration being the time between the two
    readings of the clock. *)
Theorem run_logs_its_outcome (w : W) :
  let x := exec h (run self) w in
  let started := fst (h DatetimeNow w) in
  match result_of x with
  | inl e =>
      exists t0 ended e0 r,
        trace_of x
        = (t0 ++ [Ev (LogRun (SOURCE_NAME self) "failed" 0 started (Some ended)
                        (Some (str_exn e0)) None) r])%list /\
        e = match r with Some e' => e' | None => e0 end
  | inr result =>
      run_status result = "success" /\
      ((run_records_processed result = 0%Z /\ run_duration result = 0%Z /\
        exists w1 t1,
          exec h (extract self) (snd (h DatetimeNow w)) = (inr [], w1, t1) /\
          exec h (run self) w = (inr result, w1, Ev DatetimeNow None :: t1)) \/
       (exists t0 ended raw_count,
          trace_of x
          = (t0 ++ [Ev DatetimeNow None;
                    Ev (LogRun (SOURCE_NAME self) "success"
                          (run_records_processed result) started (Some ended)
                          None (Some [("raw_count", VInt raw_count)])) None])%list /\
          (0 < raw_count)%Z /\
          run_duration result = (ended - started)%Z))
  end.
Proof.
  intros x started.
  destruct (result_of x) as [e | result] eqn:Hres.
  { apply (run_failure_logged h self w e Hres). }
  subst x started. revert Hres.
  unfold run. cbn [mbind Prog_bind bind datetime_now exec].
  destruct (h DatetimeNow w) as [started w0]. cbn [fst snd].
  rewrite exec_try_except.
  change (bind ?p ?f) with (p ≫= f).
  rewrite exec_bind.
  destruct (exec h (extract self) w0) as [[[e1 | raw] w1] t1].
  { cbn [mbind Prog_bind bind datetime_now exec db.log_run await].
    destruct (h DatetimeNow w1) as [ended w2].
    match goal with
    | |- context [h (LogRun ?a ?b ?c ?d ?f ?g ?i) w2] =>
        destruct (h (LogRun a b c d f g i) w2) as [[e' | []] w3]
    end; unfold result_of; simpl; discriminate. }
  destruct raw as [| item raw]; cbn [is_empty].
  { unfold result_of, trace_of. simpl. intros [= <-].
    split; [reflexivity |]. left.
    split; [reflexivity |]. split; [reflexivity |].
    exists w1, t1. rewrite app_nil_r. auto. }
  rewrite exec_bind.
  destruct (exec h (transform self (item :: raw)) w1) as [[[e2 | normalized] w2] t2].
  { cbn [mbind Prog_bind bind datetime_now exec db.log_run await].
    destruct (h DatetimeNow w2) as [ended w3].
    match goal with
    | |- context [h (LogRun ?a ?b ?c ?d ?f ?g ?i) w3] =>
        destruct (h (LogRun a b c d f g i) w3) as [[e' | []] w4]
    end; unfold result_of; simpl; discriminate. }
  rewrite exec_bind.
  destruct (exec h (load self normalized) w2) as [[[e3 | []] w3] t3].
  { cbn [mbind Prog_bind bind datetime_now exec db.log_run await].
    destruct (h DatetimeNow w3) as [ended w4].
    match goal with
    | |- context [h (LogRun ?a ?b ?c ?d ?f ?g ?i) w4] =>
        destruct (h (LogRun a b c d f g i) w4) as [[e' | []] w5]
    end; unfold result_of; simpl; discriminate. }
  cbn [mbind Prog_bind bind datetime_now exec db.log_run await].
  destruct (h DatetimeNow w3) as [ended w4].
  match goal with
  | |- context [h (LogRun ?a ?b ?c ?d ?f ?g ?i) w4] =>
      destruct (h (LogRun a b c d f g i) w4) as [[e' | []] w5] eqn:Hlog
  end.
  { cbn [lift id exec bind mbind Prog_bind datetime_now db.log_run await].
    destruct (h DatetimeNow w5) as [ended' w6].
    match goal with
    | |- context [h (LogRun ?a ?b ?c ?d ?f ?g ?i) w6] =>
        destruct (h (LogRun a b c d f g i) w6) as [[e'' | []] w7]
    end; unfold result_of; simpl; discriminate. }
  unfold result_of, trace_of. simpl. intros [= <-].
  split; [reflexivity |]. right.
  exists (Ev DatetimeNow None :: t1 ++ t2 ++ t3)%list, ended,
         (len (item :: raw)).
  split; [| split; [unfold len; simpl; lia | reflexivity]].
  cbn [run_records_processed]. simpl. f_equal.
  rewrite <- !app_assoc. reflexivity.
Qed.

End RunOutcome.

Section SingleSource.
Import ETLOrchestrator DatabaseService.
Context {lit : NumericLiterals} {sim : StringSimilarity}.
Variable settings : Settings.

Lemma registry_lookup_none (src : string) :
  src <> "coinpaprika" -> src <> "coingecko" -> src <> "csv" ->
  registry_lookup (pipelines settings) src = None.
Proof.
  intros H1 H2 H3. unfold pipelines. cbn [registry_lookup].
  destruct (String.eqb_spec "coinpaprika" src) as [<- | _]; [contradiction |].
  destruct (String.eqb_spec "coingecko" src) as [<- | _]; [contradiction |].
  destruct (String.eqb_spec "csv" src) as [<- | _]; [contradiction |].
  reflexivity.
Qed.

(** X11. For a source that is none of the three registered names,
    [run_single_source] raises the [ValueError] "Unknown source: ..."
    before any call: nothing runs, nothing is read from the clock and
    nothing is logged. *)
Theorem run_single_source_unknown {W : Type} (h : Handler W) (w : W)
    (src : string) :
  src <> "coinpaprika" -> src <> "coingecko" -> src <> "csv" ->
  exec h (run_single_source settings src) w
  = (inl (ValueError ("Unknown source: " ++ src)), w, []).
Proof.
  intros H1 H2 H3. unfold run_single_source.
  rewrite registry_lookup_none by assumption. reflexivity.
Qed.

(** X12. Against the database service, [run_single_source] for a
    registered source ends as the [run] of its pipeline ends, with the
    same result or the same exception, and has added one row to
    [etl_runs] after whatever rows that [run] wrote: a row of the source
    that starts at the first reading of the clock, with the status
    "success" and the number of records of the result, or with the status
    "failed", no record and the message of the exception. *)
Theorem run_single_source_logs_again (src : string)
    (pipeline : BasePipeline.Pipeline) (w : World) :
  registry_lookup (pipelines settings) src = Some pipeline ->
  let x := exec world_handler (run_single_source settings src) w in
  let y := exec world_handler (BasePipeline.run pipeline)
             (snd (world_handler DatetimeNow w)) in
  result_of x = result_of y /\
  exists row,
    etl_runs (database (state_of x))
    = (etl_runs (database (state_of y)) ++ [row])%list /\
    er_source row = src /\
    er_start_time row = clock w (clock_reads w) /\
    match result_of y with
    | inr result =>
        er_status row = "success" /\
        er_records_processed row = run_records_processed result /\
        er_error_message row = None
    | inl e =>
        er_status row = "failed" /\
        er_records_processed row = 0%Z /\
        er_error_message row = Some (str_exn e)
    end.
Proof.
  intros Hreg x y. subst x y. unfold run_single_source. rewrite Hreg.
  cbn [mbind Prog_bind bind datetime_now exec].
  destruct (world_handler DatetimeNow w) as [started w0] eqn:Hstart.
  assert (Hs : started = clock w (clock_reads w)) by (injection Hstart; auto).
  cbn [snd].
  rewrite exec_try_except.
  change (bind ?p ?f) with (p ≫= f).
  rewrite exec_bind.
  destruct (exec world_handler (BasePipeline.run pipeline) w0)
    as [[[e | result] w1] t1].
  - unfold result_of, state_of. simpl.
    split; [reflexivity |]. eexists. split; [reflexivity |].
    simpl. rewrite Hs. auto.
  - unfold result_of, state_of. simpl.
    split; [reflexivity |]. eexists. split; [reflexivity |].
    simpl. rewrite Hs. auto.
Qed.

End SingleSource.

Lemma run_single_source_unknown_witness :
  exec world_handler
    (ETLOrchestrator.run_single_source (lit := PlainLiterals.literals)
       (sim := difflib.SequenceMatcher) default_settings "binance") fresh_world
  = (inl (ValueError ("Unknown source: " ++ "binance")), fresh_world, []).
Proof.
  apply (run_single_source_unknown (lit := PlainLiterals.literals)
           (sim := difflib.SequenceMatcher) default_settings world_handler
           fresh_world "binance"); discriminate.
Defined.

Lemma run_single_source_logs_again_witness :
  let lit := PlainLiterals.literals in
  let sim := difflib.SequenceMatcher in
  let pipeline := CSVPipeline.pipeline default_settings in
  let x := exec world_handler
             (ETLOrchestrator.run_single_source default_settings "csv")
             fresh_world in
  let y := exec world_handler (BasePipeline.run pipeline)
             (snd (world_handler DatetimeNow fresh_world)) in
  result_of x = result_of y /\
  exists row,
    DatabaseService.etl_runs (database (state_of x))
    = (DatabaseService.etl_runs (database (state_of y)) ++ [row])%list /\
    DatabaseService.er_source row = "csv" /\
    DatabaseService.er_start_time row = clock fresh_world (clock_reads fresh_world) /\
    match result_of y with
    | inr result =>
        DatabaseService.er_status row = "success" /\
        DatabaseService.er_records_processed row = run_records_processed result /\
        DatabaseService.er_error_message row = None
    | inl e =>
        DatabaseService.er_status row = "failed" /\
        DatabaseService.er_records_processed row = 0%Z /\
        DatabaseService.er_error_message row = Some (str_exn e)
    end.
Proof.
  intros lit sim pipeline.
  apply (run_single_source_logs_again (lit := lit) (sim := sim)
           default_settings "csv" pipeline fresh_world).
  reflexivity.
Defined.

(* ================================================================== *)
(** * The loop of [transform] *)
(* ================================================================== *)

Section TransformLoop.
Context {W : Type} (h : Handler W).
Variable transform_item : Dict -> Prog NormalizedRecord.
Variable P : Dict -> NormalizedRecord -> Prop.
Hypothesis item_ok : forall item, ensures (P item) (transform_item item).

(** The loop always returns: its records are those it started with,
    followed by one record for each item of a subsequence of the raw
    items, in order. *)
Lemma transform_items_returns (raw : list Dict) (acc : list NormalizedRecord)
    (w : W) :
  exists out w' t kept new,
    exec h (Common.transform_items transform_item raw acc) w = (inr out, w', t) /\
    out = (acc ++ new)%list /\ sublist kept raw /\ Forall2 P kept new.
Proof.
  revert acc w. induction raw as [| item raw IH]; intros acc w.
  - exists acc, w, [], [], []. simpl. rewrite app_nil_r.
    repeat split; constructor.
  - cbn [Common.transform_items]. rewrite exec_bind, exec_try_except, exec_bind.
    destruct (exec h (transform_item item) w) as [[[e | n] w1] t1] eqn:Hitem.
    + destruct (IH acc w1) as (out & w' & t & kept & new & Hex & Hout & Hsub & HP).
      cbn [exec]. rewrite Hex.
      exists out, w', ((t1 ++ []) ++ t)%list, kept, new.
      repeat split; auto. apply sublist_cons, Hsub.
    + assert (Hn : P item n).
      { apply (ensures_exec _ _ h w n (item_ok item)).
        unfold result_of. rewrite Hitem. reflexivity. }
      destruct (IH (acc ++ [n])%list w1)
        as (out & w' & t & kept & new & Hex & Hout & Hsub & HP).
      cbn [exec]. rewrite Hex.
      exists out, w', ((t1 ++ []) ++ t)%list, (item :: kept), (n :: new).
      split; [reflexivity |]. split; [rewrite Hout, <- app_assoc; reflexivity |].
      split; [apply sublist_skip, Hsub | constructor; assumption].
Qed.

End TransformLoop.

Lemma check_drift_exec `{StringSimilarity} (settings : Settings) (src : string)
    (schema : Schema) (raw : list Dict) {W : Type} (h : Handler W) (w : W) :
  let y := exec h (Common.check_drift settings src schema raw) w in
  (exists w1 t1, y = (inr tt, w1, t1)) \/
  (exists e w1 expected actual confidence warnings,
     y = (inl e, w1,
          [Ev (LogSchemaDrift src expected actual confidence warnings) (Some e)])).
Proof.
  intros y. subst y. unfold Common.check_drift.
  destruct (SCHEMA_DRIFT_ENABLED settings); [| left; eexists _, _; reflexivity].
  destruct raw as [| first raw]; [left; eexists _, _; reflexivity |].
  unfold BasePipeline.detect_schema_drift.
  destruct (BasePipeline.is_empty _); [left; eexists _, _; reflexivity |].
  unfold db.log_schema_drift, await. cbn [exec].
  match goal with
  | |- context [h ?c w] => destruct (h c w) as [[e | []] w1]
  end; simpl.
  - right. eexists _, _, _, _, _, _. reflexivity.
  - left. eexists _, _. reflexivity.
Qed.

(** Of a [transform]: against any collaborators it returns unless the
    log of a schema drift raised, which is then its only call; no item
    makes it raise.  The records it returns come from a subsequence of
    the raw items, in their order: each carries its item as [raw_data]
    and the name of the source, and there are at most as many records as
    items. *)
Definition skips_bad_items (src : string)
    (transform : list Dict -> Prog (list NormalizedRecord)) : Prop :=
  forall (W : Type) (h : Handler W) (w : W) (raw : list Dict),
    let x := exec h (transform raw) w in
    match result_of x with
    | inr out =>
        sublist (map raw_data out) raw /\
        Forall (fun r => source r = src) out /\
        (length out <= length raw)%nat
    | inl e =>
        exists expected actual confidence warnings,
          trace_of x
          = [Ev (LogSchemaDrift src expected actual confidence warnings) (Some e)]
    end.

Lemma skips_bad_items_loop `{StringSimilarity} (settings : Settings) (src : string)
    (schema : Schema) (transform_item : Dict -> Prog NormalizedRecord) :
  (forall item,
     ensures (fun r => raw_data r = item /\ source r = src) (transform_item item)) ->
  skips_bad_items src
    (fun raw => Common.check_drift settings src schema raw;;
                Common.transform_items transform_item raw []).
Proof.
  intros Hitem W h w raw x. subst x. rewrite exec_bind.
  destruct (check_drift_exec settings src schema raw h w)
    as [(w1 & t1 & ->) | (e & w1 & ex & ac & cf & ws & ->)].
  - destruct (transform_items_returns h transform_item _ Hitem raw [] w1)
      as (out & w' & t & kept & new & -> & Hout & Hsub & HP).
    unfold result_of. cbn [fst]. simpl in Hout. subst out.
    assert (Hmap : map raw_data new = kept /\ Forall (fun r => source r = src) new).
    { clear Hsub. induction HP as [| item r kept new [Hr Hs] HP [IH1 IH2]].
      - split; constructor.
      - split; [simpl; rewrite Hr, IH1; reflexivity | constructor; assumption]. }
    destruct Hmap as [Hmap Hsrc]. rewrite Hmap.
    split; [exact Hsub |]. split; [exact Hsrc |].
    rewrite <- (length_map raw_data), Hmap. apply sublist_length, Hsub.
  - unfold result_of, trace_of. cbn [fst snd]. eexists _, _, _, _. reflexivity.
Qed.

Section Transforms.
Context {lit : NumericLiterals} {sim : StringSimilarity}.
Variable settings : Settings.

Lemma coingecko_item_provenance (item : Dict) :
  ensures (fun r => raw_data r = item /\ source r = "coingecko")
          (CoinGeckoPipeline.transform_item item).
Proof.
  unfold CoinGeckoPipeline.transform_item.
  repeat (apply ensures_then; intros ?).
  apply ensures_ret. split; reflexivity.
Qed.

Lemma coinpaprika_item_provenance (item : Dict) :
  ensures (fun r => raw_data r = item /\ source r = "coinpaprika")
          (CoinPaprikaPipeline.transform_item item).
Proof.
  unfold CoinPaprikaPipeline.transform_item.
  repeat (apply ensures_then; intros ?).
  apply ensures_ret. split; reflexivity.
Qed.

Lemma csv_item_provenance (item : Dict) :
  ensures (fun r => raw_data r = item /\ source r = "csv")
          (CSVPipeline.transform_item item).
Proof.
  unfold CSVPipeline.transform_item.
  repeat (apply ensures_then; intros ?).
  apply ensures_ret. split; reflexivity.
Qed.

(** X13. No raw item makes a [transform] raise: each of the three
    pipelines skips the items it cannot convert and returns the records
    of the others, in the order of the items, each with its item as
    [raw_data] and the name of its source; so it returns at most as many
    records as it was given items.  A [transform] raises only when the
    log of a schema drift raises, before any item is converted. *)
Theorem transform_skips_bad_items :
  skips_bad_items "coingecko" (CoinGeckoPipeline.transform settings) /\
  skips_bad_items "coinpaprika" (CoinPaprikaPipeline.transform settings) /\
  skips_bad_items "csv" (CSVPipeline.transform settings).
Proof.
  split; [| split].
  - apply (skips_bad_items_loop settings "coingecko"
             CoinGeckoPipeline.get_expected_schema).
    apply coingecko_item_provenance.
  - apply (skips_bad_items_loop settings "coinpaprika"
             CoinPaprikaPipeline.get_expected_schema).
    apply coinpaprika_item_provenance.
  - apply (skips_bad_items_loop settings "csv" CSVPipeline.get_expected_schema).
    apply csv_item_provenance.
Qed.

End Transforms.

(* ================================================================== *)
(** * The timestamps of the records *)
(* ================================================================== *)

(** Of the body of the loop of a [transform]: an item either raises
    before any call, or reads the clock once and returns a record whose
    [last_updated] is that reading. *)
Definition stamps_record (transform_item : Dict -> Prog NormalizedRecord) : Prop :=
  forall item,
    (exists e, transform_item item = Raise e) \/
    (exists f, transform_item item = Do DatetimeNow (fun now => Ret (f now)) /\
               forall t, last_updated (f t) = t).

Ltac split_lifts :=
  repeat (cbn [lift mbind Prog_bind bind];
          match goal with
          | |- context [lift ?r] =>
              lazymatch r with
              | inl _ => fail
              | inr _ => fail
              | _ => destruct r as [? | ?]; [left; eexists; reflexivity |]
              end
          end).

Section Stamps.
Context {lit : NumericLiterals} {sim : StringSimilarity}.
Variable settings : Settings.

Lemma coingecko_stamps : stamps_record CoinGeckoPipeline.transform_item.
Proof.
  intros item. unfold CoinGeckoPipeline.transform_item, datetime_now.
  split_lifts. cbn [lift mbind Prog_bind bind].
  right. eexists (fun now => _). split; reflexivity.
Qed.

Lemma coinpaprika_stamps : stamps_record CoinPaprikaPipeline.transform_item.
Proof.
  intros item. unfold CoinPaprikaPipeline.transform_item, datetime_now.
  split_lifts. cbn [lift mbind Prog_bind bind].
  right. eexists (fun now => _). split; reflexivity.
Qed.

Lemma csv_stamps : stamps_record CSVPipeline.transform_item.
Proof.
  intros item. unfold CSVPipeline.transform_item, datetime_now.
  split_lifts. cbn [lift mbind Prog_bind bind].
  right. eexists (fun now => _). split; reflexivity.
Qed.

Lemma transform_items_stamps (transform_item : Dict -> Prog NormalizedRecord)
    (raw : list Dict) (acc : list NormalizedRecord) (w : World) :
  stamps_record transform_item ->
  exists new w' t,
    exec world_handler (Common.transform_items transform_item raw acc) w
    = (inr (acc ++ new)%list, w', t) /\
    map last_updated new = map (clock w) (seq (clock_reads w) (length new)) /\
    clock w' = clock w /\
    clock_reads w' = (clock_reads w + length new)%nat /\
    database w' = database w.
Proof.
  intros Hst. revert acc w. induction raw as [| item raw IH]; intros acc w.
  - exists [], w, []. simpl. rewrite app_nil_r, Nat.add_0_r. auto.
  - cbn [Common.transform_items]. rewrite exec_bind.
    destruct (Hst item) as [[e ->] | (f & -> & Hlast)].
    + cbn [mbind Prog_bind bind try_except exec].
      destruct (IH acc w) as (new & w' & t & -> & Hmap & Hclock & Hreads & Hdb).
      exists new, w', t. auto.
    + cbn [mbind Prog_bind bind try_except exec world_handler].
      match goal with
      | |- context [exec world_handler (Common.transform_items _ raw ?acc') ?w1] =>
          destruct (IH acc' w1)
            as (new & w' & t & -> & Hmap & Hclock & Hreads & Hdb)
      end.
      cbn [clock clock_reads database] in Hmap, Hclock, Hreads, Hdb.
      exists (f (clock w (clock_reads w)) :: new), w', (Ev DatetimeNow None :: t).
      split; [rewrite <- app_assoc; reflexivity |].
      split; [simpl; rewrite Hlast, Hmap; reflexivity |].
      split; [exact Hclock |]. split; [rewrite Hreads; simpl; lia | exact Hdb].
Qed.

(** The message of the [TypeError] that [json.dumps] raises on a
    class. *)
Definition not_serializable : exn :=
  TypeError "Object of type type is not JSON serializable".

Lemma check_drift_world (src : string) (schema : Schema) (raw : list Dict)
    (w : World) :
  exists r w1 t1,
    exec world_handler (Common.check_drift settings src schema raw) w
    = (r, w1, t1) /\
    (r = inr tt \/ r = inl not_serializable) /\
    clock w1 = clock w /\ clock_reads w1 = clock_reads w /\
    DatabaseService.crypto_data (database w1)
    = DatabaseService.crypto_data (database w).
Proof.
  unfold Common.check_drift.
  destruct (SCHEMA_DRIFT_ENABLED settings);
    [| eexists _, _, _; split; [reflexivity | auto]].
  destruct raw as [| first raw]; [eexists _, _, _; split; [reflexivity | auto] |].
  unfold BasePipeline.detect_schema_drift.
  destruct (BasePipeline.is_empty _);
    [eexists _, _, _; split; [reflexivity | auto] |].
  unfold db.log_schema_drift, await. cbn [exec world_handler].
  unfold on_database, DatabaseService.log_schema_drift.
  destruct (forallb _ schema);
    eexists _, _, _; (split; [reflexivity |]); auto.
Qed.

(** Of a [transform] against the service and its clock: the records it
    returns carry, in order, the successive readings of the clock, one
    reading per record and none for a skipped item; with a clock that
    never gives the same reading twice no two records of a call have the
    same [last_updated].  When it raises it has not read the clock.
    Either way [crypto_data] is as it was. *)
Definition stamps_with_clock
    (transform : list Dict -> Prog (list NormalizedRecord)) : Prop :=
  forall (w : World) (raw : list Dict),
    let x := exec world_handler (transform raw) w in
    DatabaseService.crypto_data (database (state_of x))
    = DatabaseService.crypto_data (database w) /\
    match result_of x with
    | inr out =>
        map last_updated out = map (clock w) (seq (clock_reads w) (length out)) /\
        clock_reads (state_of x) = (clock_reads w + length out)%nat /\
        ((forall i j, clock w i = clock w j -> i = j) ->
         NoDup (map last_updated out))
    | inl e => clock_reads (state_of x) = clock_reads w
    end.

Lemma stamps_with_clock_loop (src : string) (schema : Schema)
    (transform_item : Dict -> Prog NormalizedRecord) :
  stamps_record transform_item ->
  stamps_with_clock
    (fun raw => Common.check_drift settings src schema raw;;
                Common.transform_items transform_item raw []).
Proof.
  intros Hst w raw x. subst x. rewrite exec_bind.
  destruct (check_drift_world src schema raw w)
    as (r & w1 & t1 & -> & [-> | ->] & Hclock & Hreads & Hrows).
  - destruct (transform_items_stamps transform_item raw [] w1 Hst)
      as (new & w' & t & -> & Hmap & Hclock' & Hreads' & Hdb).
    unfold result_of, state_of. cbn [fst snd app].
    rewrite Hclock, Hreads in Hmap. rewrite Hreads in Hreads'.
    split; [rewrite Hdb; exact Hrows |].
    split; [exact Hmap |]. split; [exact Hreads' |].
    intros Hinj. rewrite Hmap. apply NoDup_fmap_2; [| apply NoDup_seq].
    intros i j Hij. apply Hinj, Hij.
  - unfold result_of, state_of. cbn [fst snd]. auto.
Qed.

(** X14. The [last_updated] of a record is the time of its conversion,
    not a time of the source: against the service and its clock, the
    records that the [transform] of each pipeline returns carry the
    successive readings of the clock, one per record in order, and the
    clock is read for nothing else; a skipped item reads none, and a
    [transform] that raises has read none.  A [transform] leaves
    [crypto_data] as it is, and with a clock that never repeats a reading
    the records of one call have pairwise different timestamps. *)
Theorem transform_stamps_records :
  stamps_with_clock (CoinGeckoPipeline.transform settings) /\
  stamps_with_clock (CoinPaprikaPipeline.transform settings) /\
  stamps_with_clock (CSVPipeline.transform settings).
Proof.
  split; [| split].
  - apply (stamps_with_clock_loop "coingecko" CoinGeckoPipeline.get_expected_schema),
      coingecko_stamps.
  - apply (stamps_with_clock_loop "coinpaprika" CoinPaprikaPipeline.get_expected_schema),
      coinpaprika_stamps.
  - apply (stamps_with_clock_loop "csv" CSVPipeline.get_expected_schema),
      csv_stamps.
Qed.

End Stamps.

(* ================================================================== *)
(** * The fields an item needs *)
(* ================================================================== *)

Lemma lift_ensures_value {A B} (P : B -> Prop) (r : exn + A) (f : A -> Prog B) :
  (forall a, r = inr a -> ensures P (f a)) -> ensures P (lift r ≫= f).
Proof.
  intros Hf. destruct r as [e | a].
  - apply ensures_raise.
  - apply (Hf a eq_refl).
Qed.

(** The item has the key, with a value that is not missing. *)
Definition has_field (item : Dict) (key : string) : Prop :=
  dict_lookup item key <> None.

Lemma required_has_field `{NumericLiterals} {A}
    (validate : string -> value -> exn + A) (item : Dict) (key : string) (a : A) :
  required validate item key = inr a -> has_field item key.
Proof.
  unfold required, has_field. destruct (dict_lookup item key); [| discriminate].
  intros _. discriminate.
Qed.

Lemma required_str `{NumericLiterals} (item : Dict) (key : string) (s : string) :
  required validate_str item key = inr s -> dict_lookup item key = Some (VStr s).
Proof.
  unfold required. destruct (dict_lookup item key) as [[] |]; simpl;
    try discriminate. intros [= ->]. reflexivity.
Qed.

Section RequiredFields.
Context {lit : NumericLiterals} {sim : StringSimilarity}.
Variable settings : Settings.

(** What holds of a record of the CSV pipeline and its row. *)
Definition csv_row_complete (r : NormalizedRecord) : Prop :=
  Forall (has_field (raw_data r))
    ["symbol"; "name"; "price"; "market_cap"; "volume_24h";
     "percent_change_24h"; "rank"] /\
  (exists s, dict_lookup (raw_data r) "symbol" = Some (VStr s) /\ symbol r = upper s) /\
  dict_lookup (raw_data r) "name" = Some (VStr (name r)).

(** What holds of a record of the CoinPaprika pipeline and its item. *)
Definition coinpaprika_item_complete (r : NormalizedRecord) : Prop :=
  Forall (has_field (raw_data r)) ["id"; "name"; "symbol"; "rank"; "quotes"] /\
  dict_lookup (raw_data r) "symbol" = Some (VStr (symbol r)) /\
  dict_lookup (raw_data r) "name" = Some (VStr (name r)) /\
  exists quotes, dict_lookup (raw_data r) "quotes" = Some (VDict quotes).

Lemma csv_item_complete (item : Dict) :
  ensures csv_row_complete (CSVPipeline.transform_item item).
Proof.
  unfold CSVPipeline.transform_item.
  apply lift_ensures_value. intros s Hs.
  apply lift_ensures_value. intros nm Hnm.
  apply lift_ensures_value. intros price Hprice.
  apply lift_ensures_value. intros cap Hcap.
  apply lift_ensures_value. intros vol Hvol.
  apply lift_ensures_value. intros chg Hchg.
  apply lift_ensures_value. intros rk Hrk.
  apply ensures_then. intros now. apply ensures_ret.
  unfold csv_row_complete. cbn [raw_data symbol name].
  split; [| split].
  - repeat constructor; eapply required_has_field; eassumption.
  - exists s. split; [apply required_str, Hs | reflexivity].
  - apply required_str, Hnm.
Qed.

Lemma coinpaprika_item_is_complete (item : Dict) :
  ensures coinpaprika_item_complete (CoinPaprikaPipeline.transform_item item).
Proof.
  unfold CoinPaprikaPipeline.transform_item.
  apply lift_ensures_value. intros id_ Hid.
  apply lift_ensures_value. intros nm Hnm.
  apply lift_ensures_value. intros s Hs.
  apply lift_ensures_value. intros rk Hrk.
  apply lift_ensures_value. intros quotes Hquotes.
  cbv zeta.
  repeat (apply ensures_then; intros ?). apply ensures_ret.
  unfold coinpaprika_item_complete. cbn [raw_data symbol name].
  split; [| split; [| split]].
  - repeat constructor; eapply required_has_field; eassumption.
  - apply required_str, Hs.
  - apply required_str, Hnm.
  - exists quotes. revert Hquotes. unfold required.
    destruct (dict_lookup item "quotes") as [[] |]; simpl; try discriminate.
    intros [= ->]. reflexivity.
Qed.

(** X15. An item that lacks a field of the validation model gives no
    record: against any collaborators, every record that the [transform]
    of the CSV pipeline returns comes from a row with all seven columns,
    whose symbol and name are strings, the record carrying the upper-cased
    symbol and the name; and every record of the CoinPaprika pipeline
    comes from an item with the keys id, name, symbol, rank and quotes,
    whose symbol and name are the strings of the record and whose quotes
    are a dict. *)
Theorem transform_requires_fields {W : Type} (h : Handler W) (w : W)
    (raw : list Dict) :
  match result_of (exec h (CSVPipeline.transform settings raw) w) with
  | inr out => Forall csv_row_complete out
  | inl _ => True
  end /\
  match result_of (exec h (CoinPaprikaPipeline.transform settings raw) w) with
  | inr out => Forall coinpaprika_item_complete out
  | inl _ => True
  end.
Proof.
  split.
  - destruct (result_of (exec h (CSVPipeline.transform settings raw) w))
      as [e | out] eqn:Hres; [exact I |].
    revert Hres. apply ensures_exec.
    unfold CSVPipeline.transform. apply ensures_then. intros _.
    apply transform_items_ensures; [apply csv_item_complete | constructor].
  - destruct (result_of (exec h (CoinPaprikaPipeline.transform settings raw) w))
      as [e | out] eqn:Hres; [exact I |].
    revert Hres. apply ensures_exec.
    unfold CoinPaprikaPipeline.transform. apply ensures_then. intros _.
    apply transform_items_ensures; [apply coinpaprika_item_is_complete | constructor].
Qed.

(** ** The defaults of the CoinGecko pipeline *)










End RequiredFields.


(* ================================================================== *)
(** * How many requests an [extract] makes *)
(* ================================================================== *)

(** [session.get] *)
Definition is_request (c : Cmd) : bool :=
  match c with HttpGet _ _ _ => true | _ => false end.

(** The requests of a run. *)
Definition requests (t : list Event) : list Cmd :=
  List.filter is_request (map ev_cmd t).

(** On every path the program makes at most [n] requests, and what it
    returns satisfies [Q]. *)
Inductive requests_within {A : Type} (Q : A -> Prop) : nat -> Prog A -> Prop :=
| within_ret (n : nat) (a : A) : Q a -> requests_within Q n (Ret a)
| within_raise (n : nat) (e : exn) : requests_within Q n (Raise e)
| within_request (n : nat) (c : Cmd) (k : Reply c -> Prog A) :
    is_request c = true ->
    (forall r, requests_within Q n (k r)) ->
    requests_within Q (S n) (Do c k)
| within_call (n : nat) (c : Cmd) (k : Reply c -> Prog A) :
    is_request c = false ->
    (forall r, requests_within Q n (k r)) ->
    requests_within Q n (Do c k).

Lemma requests_within_le {A} (Q : A -> Prop) (n m : nat) (p : Prog A) :
  requests_within Q n p -> (n <= m)%nat -> requests_within Q m p.
Proof.
  intros Hp. revert m.
  induction Hp as [n a Ha | n e | n c k Hc Hk IH | n c k Hc Hk IH]; intros m Hle.
  - apply within_ret, Ha.
  - apply within_raise.
  - destruct m as [| m]; [lia |].
    apply within_request; [exact Hc |]. intros r. apply IH. lia.
  - apply within_call; [exact Hc |]. intros r. apply IH, Hle.
Qed.

Lemma requests_within_bind {A B} (Q : A -> Prop) (R : B -> Prop) (n m : nat)
    (p : Prog A) (f : A -> Prog B) :
  requests_within Q n p ->
  (forall a, Q a -> requests_within R m (f a)) ->
  requests_within R (n + m) (p ≫= f).
Proof.
  intros Hp Hf. change (p ≫= f) with (bind p f).
  induction Hp as [n a Ha | n e | n c k Hc Hk IH | n c k Hc Hk IH]; simpl.
  - apply (requests_within_le R m); [apply Hf, Ha | lia].
  - apply within_raise.
  - apply within_request; [exact Hc | exact IH].
  - apply within_call; [exact Hc | exact IH].
Qed.

Lemma requests_within_try_except {A} (Q : A -> Prop) (n m : nat) (p : Prog A)
    (handler : exn -> Prog A) :
  requests_within Q n p ->
  (forall e, requests_within Q m (handler e)) ->
  requests_within Q (n + m) (try_except p handler).
Proof.
  intros Hp Hh.
  induction Hp as [n a Ha | n e | n c k Hc Hk IH | n c k Hc Hk IH]; simpl.
  - apply within_ret, Ha.
  - apply (requests_within_le Q m); [apply Hh | lia].
  - apply within_request; [exact Hc | exact IH].
  - apply within_call; [exact Hc | exact IH].
Qed.

Lemma requests_within_exec {A W} (Q : A -> Prop) (n : nat) (p : Prog A)
    (h : Handler W) (w : W) :
  requests_within Q n p ->
  (length (requests (trace_of (exec h p w))) <= n)%nat.
Proof.
  intros Hp. revert w.
  induction Hp as [n a Ha | n e | n c k Hc Hk IH | n c k Hc Hk IH]; intros w.
  - simpl. lia.
  - simpl. lia.
  - simpl. destruct (h c w) as [r w1]. specialize (IH r w1).
    unfold trace_of, requests in *.
    destruct (exec h (k r) w1) as [[res w2] t]. simpl in *. rewrite Hc.
    simpl. lia.
  - simpl. destruct (h c w) as [r w1]. specialize (IH r w1).
    unfold trace_of, requests in *.
    destruct (exec h (k r) w1) as [[res w2] t]. simpl in *. rewrite Hc.
    exact IH.
Qed.

Ltac walk_requests :=
  repeat (cbn [lift await mbind Prog_bind bind try_except id asyncio_sleep
               session_get];
          match goal with
          | |- requests_within _ _ (Ret _) => apply within_ret; try exact I
          | |- requests_within _ _ (Raise _) => apply within_raise
          | |- requests_within _ (S _) (Do (HttpGet _ _ _) _) =>
              apply within_request; [reflexivity | intros ?]
          | |- requests_within _ _ (Do _ _) =>
              apply within_call; [reflexivity | intros ?]
          | |- context [lift ?r] =>
              lazymatch r with
              | inl _ => fail
              | inr _ => fail
              | _ => destruct r
              end
          | |- context [match ?x with _ => _ end] => destruct x
          end).

Section RequestBound.
Variable settings : Settings.
Variable url : string.
Variables headers params : Dict.
Variable rate_limit : Z.
Variable keep : list Dict -> list Dict.

Local Abbreviation attempt := (Common.attempt settings url headers params rate_limit keep).
Local Abbreviation retry_loop := (Common.retry_loop settings url headers params rate_limit keep).

(** A turn of the loop makes at most one request, and goes on with one
    more retry counted. *)
Lemma attempt_one_request (retry_count : Z) :
  requests_within
    (fun step => match step with
                 | Common.Again retry_count' => retry_count' = (retry_count + 1)%Z
                 | Common.Returned _ => True
                 end)
    1 (attempt retry_count).
Proof.
  unfold Common.attempt, Common.raise_for_status, BasePipeline.calculate_backoff.
  walk_requests; reflexivity.
Qed.

Lemma retry_loop_requests (fuel : nat) (retry_count : Z) :
  requests_within (fun _ => True)
    (Z.to_nat (ETL_MAX_RETRIES settings - retry_count))
    (retry_loop fuel retry_count).
Proof.
  revert retry_count. induction fuel as [| fuel IH]; intros retry_count;
    cbn [Common.retry_loop];
    destruct (Z.ltb_spec retry_count (ETL_MAX_RETRIES settings)) as [Hlt | Hge];
    try apply within_raise.
  replace (Z.to_nat (ETL_MAX_RETRIES settings - retry_count))
    with (1 + Z.to_nat (ETL_MAX_RETRIES settings - (retry_count + 1)))%nat by lia.
  eapply requests_within_bind; [apply attempt_one_request |].
  intros [all_data | retry_count'] Hstep.
  - apply within_ret. exact I.
  - subst retry_count'. apply IH.
Qed.

Lemma fetch_requests {W : Type} (h : Handler W) (w : W) :
  (length (requests (trace_of
     (exec h (Common.fetch settings url headers params rate_limit keep) w)))
   <= Z.to_nat (ETL_MAX_RETRIES settings))%nat.
Proof.
  unfold Common.fetch.
  pose proof (requests_within_exec _ _ _ h w
                (retry_loop_requests (Z.to_nat (ETL_MAX_RETRIES settings)) 0)) as H.
  rewrite Z.sub_0_r in H. exact H.
Qed.

End RequestBound.

(** X17. Whatever the server and the other collaborators answer, an
    [extract] of the CoinGecko or CoinPaprika pipeline makes at most
    [ETL_MAX_RETRIES] requests; with [ETL_MAX_RETRIES] at zero or below it
    makes none and raises. *)
Theorem extract_requests_bounded (settings : Settings) {W : Type}
    (h : Handler W) (w : W) :
  let gecko := exec h (CoinGeckoPipeline.extract settings) w in
  let paprika := exec h (CoinPaprikaPipeline.extract settings) w in
  (length (requests (trace_of gecko)) <= Z.to_nat (ETL_MAX_RETRIES settings))%nat /\
  (length (requests (trace_of paprika)) <= Z.to_nat (ETL_MAX_RETRIES settings))%nat /\
  ((ETL_MAX_RETRIES settings <= 0)%Z ->
   requests (trace_of gecko) = [] /\ requests (trace_of paprika) = [] /\
   (exists e, result_of gecko = inl e) /\ (exists e, result_of paprika = inl e)).
Proof.
  intros gecko paprika.
  assert (Hg : (length (requests (trace_of gecko))
                <= Z.to_nat (ETL_MAX_RETRIES settings))%nat).
  { subst gecko. unfold CoinGeckoPipeline.extract. rewrite exec_bind.
    pose proof (fetch_requests settings
                  (CoinGeckoPipeline.BASE_URL ++ "/coins/markets")
                  (CoinGeckoPipeline.headers settings) CoinGeckoPipeline.params
                  (COINGECKO_RATE_LIMIT settings) (fun data => data) h w) as H.
    fold (CoinGeckoPipeline.fetch settings) in H. unfold trace_of in *.
    destruct (exec h (CoinGeckoPipeline.fetch settings) w) as [[[e | r] w1] t1];
      simpl in *; [exact H | rewrite app_nil_r; exact H]. }
  assert (Hp : (length (requests (trace_of paprika))
                <= Z.to_nat (ETL_MAX_RETRIES settings))%nat).
  { subst paprika. unfold CoinPaprikaPipeline.extract, db.get_last_checkpoint, await.
    cbn [mbind Prog_bind bind exec].
    destruct (h (GetLastCheckpoint CoinPaprikaPipeline.SOURCE_NAME) w)
      as [[e | ck] w0]; cbn [lift id bind exec]; [simpl; lia |].
    change (bind ?p ?f) with (p ≫= f). rewrite exec_bind.
    pose proof (fetch_requests settings
                  (CoinPaprikaPipeline.BASE_URL ++ "/tickers")
                  (CoinPaprikaPipeline.headers settings) []
                  (COINPAPRIKA_RATE_LIMIT settings) (fun data => py_slice data 0 100)
                  h w0) as H.
    fold (CoinPaprikaPipeline.fetch settings) in H. unfold trace_of in *.
    destruct (exec h (CoinPaprikaPipeline.fetch settings) w0) as [[[e | r] w1] t1];
      simpl in *; [exact H | rewrite app_nil_r; exact H]. }
  split; [exact Hg |]. split; [exact Hp |].
  intros Hmax.
  split; [destruct (requests (trace_of gecko)); [reflexivity | simpl in Hg; lia] |].
  split; [destruct (requests (trace_of paprika)); [reflexivity | simpl in Hp; lia] |].
  assert (Hloop : forall url headers params rate_limit keep fuel,
            Common.retry_loop settings url headers params rate_limit keep fuel 0
            = Raise (Exception ("Failed to extract data after "
                                ++ str_int (ETL_MAX_RETRIES settings) ++ " retries"))).
  { intros. destruct fuel; cbn [Common.retry_loop];
      destruct (Z.ltb_spec 0 (ETL_MAX_RETRIES settings)); try lia; reflexivity. }
  split.
  - subst gecko. unfold CoinGeckoPipeline.extract, CoinGeckoPipeline.fetch, Common.fetch.
    rewrite Hloop. eexists. reflexivity.
  - subst paprika.
    unfold CoinPaprikaPipeline.extract, CoinPaprikaPipeline.fetch, Common.fetch.
    rewrite Hloop. unfold db.get_last_checkpoint, await.
    cbn [mbind Prog_bind bind exec].
    destruct (h (GetLastCheckpoint CoinPaprikaPipeline.SOURCE_NAME) w)
      as [[e | ck] w0]; eexists; reflexivity.
Qed.

(* ================================================================== *)
(** * The [except aiohttp.ClientError] clause of [extract] *)
(* ================================================================== *)

(** An answer that the [except] clause catches: a client error from the
    session, an error status other than 429, or a body that fails to
    decode with a client error. *)
Definition client_failure (r : exn + HttpResponse) : Prop :=
  match r with
  | inl e => is_client_error e = true
  | inr response =>
      status response <> 429%Z /\
      ((400 <= status response)%Z \/
       exists e, json response = inl e /\ is_client_error e = true)
  end.

(** The exception that such an answer raises in the [try] block. *)
Definition client_exception (r : exn + HttpResponse) : exn :=
  match r with
  | inl e => e
  | inr response =>
      if (400 <=? status response)%Z then ClientError "ClientResponseError"
      else match json response with
           | inl e => e
           | inr _ => ClientError "ClientResponseError"
           end
  end.

Section ClientErrors.
Variable settings : Settings.
Variable url : string.
Variables headers params : Dict.
Variable rate_limit : Z.
Variable keep : list Dict -> list Dict.

Local Abbreviation attempt := (Common.attempt settings url headers params rate_limit keep).
Local Abbreviation retry_loop := (Common.retry_loop settings url headers params rate_limit keep).
Local Abbreviation sleeps := (pause settings rate_limit).
Local Abbreviation usable := (rate_limit_usable settings rate_limit).

Ltac run_attempt Hrate :=
  unfold Common.attempt, Common.raise_for_status, Common.py_div,
    BasePipeline.calculate_backoff, pause, rate_limit_usable in *;
  destruct (RATE_LIMIT_ENABLED settings);
  [destruct (Z.eqb_spec rate_limit 0) as [H0 | _]; [destruct (Hrate eq_refl H0) |] |];
  unfold result_of, state_of, trace_of, later; simpl.


(** The same turn when no retry is left: it raises the exception, and
    does not sleep for a backoff. *)
Lemma attempt_client_failure_last (retry_count : Z) (w : World)
    (r : exn + HttpResponse) (rest : list (exn + HttpResponse)) :
  usable ->
  responses w = r :: rest ->
  client_failure r ->
  (ETL_MAX_RETRIES settings <= retry_count + 1)%Z ->
  let x := exec world_handler (attempt retry_count) w in
  result_of x = inl (client_exception r) /\
  state_of x = later w sleeps rest.
Proof.
  intros Hrate Hresp Hfail Hge x. subst x.
  destruct w as [d c n rs fs sl]. simpl in Hresp. subst rs.
  apply Z.ltb_ge in Hge.
  run_attempt Hrate.
  all: destruct r as [e | [s body]]; simpl in *.
  all: try (rewrite Hfail; simpl; rewrite Hge; simpl; rewrite ?app_nil_r; auto; fail).
  all: destruct Hfail as [H429 Hfail];
    destruct (Z.eqb_spec s 429) as [| _]; [contradiction |];
    destruct (Z.leb_spec 400 s) as [Hbig | Hlow]; simpl;
    [rewrite Hge; simpl; rewrite ?app_nil_r; auto |];
    destruct Hfail as [Hbig | (e & -> & He)]; [lia |]; simpl;
    rewrite He, Hge; simpl; rewrite ?app_nil_r; auto.
Qed.

(** A turn on an exception of the session that is no client error: it
    is raised, whatever the retry count. *)
Lemma attempt_other_exception (retry_count : Z) (w : World) (e : exn)
    (rest : list (exn + HttpResponse)) :
  usable ->
  responses w = inl e :: rest ->
  is_client_error e = false ->
  let x := exec world_handler (attempt retry_count) w in
  result_of x = inl e /\ state_of x = later w sleeps rest.
Proof.
  intros Hrate Hresp He x. subst x.
  destruct w as [d c n rs fs sl]. simpl in Hresp. subst rs.
  run_attempt Hrate; rewrite He; simpl; rewrite ?app_nil_r; auto.
Qed.

Lemma fetch_other_exception (w : World) (e : exn)
    (rest : list (exn + HttpResponse)) :
  (0 < ETL_MAX_RETRIES settings)%Z ->
  usable ->
  responses w = inl e :: rest ->
  is_client_error e = false ->
  let x := exec world_handler
             (Common.fetch settings url headers params rate_limit keep) w in
  result_of x = inl e /\ state_of x = later w sleeps rest.
Proof.
  intros Hmax Hrate Hresp He x. subst x. unfold Common.fetch.
  destruct (Z.to_nat (ETL_MAX_RETRIES settings)) as [| fuel] eqn:Hfuel; [lia |].
  rewrite retry_loop_turn by lia.
  destruct (attempt_other_exception 0 w e rest Hrate Hresp He) as [Hr Hs].
  unfold result_of, state_of in *.
  destruct (exec world_handler (attempt 0) w) as [[r1 w1] t1].
  simpl in Hr, Hs. subst r1 w1. auto.
Qed.


End ClientErrors.

(** Of an [extract] and the sleep of its rate limit: an exception of the
    session that is no client error ends it at the first request; it is
    raised as it is, the answers that follow are not consumed and no
    backoff sleep is made. *)
Definition raises_at_once (settings : Settings) (rate_limit : Z)
    (extract : Prog (list Dict)) : Prop :=
  forall (w : World) (e : exn) (rest : list (exn + HttpResponse)),
    responses w = inl e :: rest ->
    is_client_error e = false ->
    let x := exec world_handler extract w in
    result_of x = inl e /\
    responses (state_of x) = rest /\
    slept (state_of x) = (slept w ++ pause settings rate_limit)%list.

(** X18. Only client errors are retried: with at least one retry
    configured and rate limits that are off or not zero, an exception of
    the session that is no [aiohttp.ClientError] (a timeout, say) makes
    the [extract] of the CoinGecko and of the CoinPaprika pipeline raise
    that exception after its first request, without a backoff sleep and
    without a second request. *)
Theorem extract_raises_other_exceptions_at_once (settings : Settings) :
  (0 < ETL_MAX_RETRIES settings)%Z ->
  rate_limit_usable settings (COINGECKO_RATE_LIMIT settings) ->
  rate_limit_usable settings (COINPAPRIKA_RATE_LIMIT settings) ->
  raises_at_once settings (COINGECKO_RATE_LIMIT settings)
    (CoinGeckoPipeline.extract settings) /\
  raises_at_once settings (COINPAPRIKA_RATE_LIMIT settings)
    (CoinPaprikaPipeline.extract settings).
Proof.
  intros Hmax Hgecko Hpaprika. split; intros w e rest Hresp He x; subst x.
  - unfold CoinGeckoPipeline.extract. rewrite exec_bind.
    destruct (fetch_other_exception settings
                (CoinGeckoPipeline.BASE_URL ++ "/coins/markets")
                (CoinGeckoPipeline.headers settings) CoinGeckoPipeline.params
                (COINGECKO_RATE_LIMIT settings) (fun data => data)
                w e rest Hmax Hgecko Hresp He) as [Hr Hs].
    fold (CoinGeckoPipeline.fetch settings) in Hr, Hs.
    unfold result_of, state_of in *.
    destruct (exec world_handler (CoinGeckoPipeline.fetch settings) w)
      as [[r1 w1] t1].
    simpl in Hr, Hs. subst r1 w1. auto.
  - unfold CoinPaprikaPipeline.extract. rewrite exec_bind.
    destruct (exec_get_last_checkpoint CoinPaprikaPipeline.SOURCE_NAME w) as [ck ->].
    rewrite exec_bind.
    destruct (fetch_other_exception settings
                (CoinPaprikaPipeline.BASE_URL ++ "/tickers")
                (CoinPaprikaPipeline.headers settings) []
                (COINPAPRIKA_RATE_LIMIT settings) (fun data => py_slice data 0 100)
                (with_database (database w) w) e rest Hmax Hpaprika Hresp He)
      as [Hr Hs].
    fold (CoinPaprikaPipeline.fetch settings) in Hr, Hs.
    unfold result_of, state_of in *.
    destruct (exec world_handler (CoinPaprikaPipeline.fetch settings)
                (with_database (database w) w)) as [[r1 w1] t1].
    simpl in Hr, Hs. subst r1 w1. auto.
Qed.

(** A fresh world in which the session answers with the given
    exception and the server is not reached. *)
Definition failing_session (e : exn) : World :=
  {| database := DatabaseService.empty;
     clock := fun n => Z.of_nat n;
     clock_reads := 0;
     responses := [inl e; inr {| status := 200; json := inr [] |}];
     files := [];
     slept := [] |}.

Lemma extract_raises_other_exceptions_at_once_witness :
  let e := Exception "TimeoutError" in
  let w := failing_session e in
  let x := exec world_handler (CoinGeckoPipeline.extract default_settings) w in
  result_of x = inl e /\
  responses (state_of x) = [inr {| status := 200; json := inr [] |}] /\
  slept (state_of x) = (slept w ++ pause default_settings 50)%list.
Proof.
  intros e w.
  destruct (extract_raises_other_exceptions_at_once default_settings
              ltac:(reflexivity) ltac:(intros _; discriminate)
              ltac:(intros _; discriminate)) as [Hgecko _].
  apply (Hgecko w e [inr {| status := 200; json := inr [] |}]); reflexivity.
Defined.





(* ================================================================== *)
(** * What an [extract] reads *)
(* ================================================================== *)


(** ** The database and the requests *)

(** The calls of the loop of [extract]: sleeps and requests. *)
Definition is_network_call (c : Cmd) : bool :=
  match c with
  | Sleep _ | HttpGet _ _ _ => true
  | _ => false
  end.

(** On every path the program makes such calls only. *)
Inductive calls_only {A : Type} (allowed : Cmd -> bool) : Prog A -> Prop :=
| only_ret (a : A) : calls_only allowed (Ret a)
| only_raise (e : exn) : calls_only allowed (Raise e)
| only_do (c : Cmd) (k : Reply c -> Prog A) :
    allowed c = true ->
    (forall r, calls_only allowed (k r)) ->
    calls_only allowed (Do c k).

Lemma calls_only_bind {A B} (allowed : Cmd -> bool) (p : Prog A) (f : A -> Prog B) :
  calls_only allowed p ->
  (forall a, calls_only allowed (f a)) ->
  calls_only allowed (p ≫= f).
Proof.
  intros Hp Hf. change (p ≫= f) with (bind p f).
  induction Hp as [a | e | c k Hc Hk IH]; simpl.
  - apply Hf.
  - apply only_raise.
  - apply only_do; [exact Hc | exact IH].
Qed.

Lemma network_call_ignores_database (c : Cmd) (w : World)
    (d : DatabaseService.Database) :
  is_network_call c = true ->
  world_handler c (with_database d w)
  = (fst (world_handler c w), with_database d (snd (world_handler c w))) /\
  database (snd (world_handler c w)) = database w.
Proof.
  destruct c; try discriminate; intros _; simpl.
  - split; reflexivity.
  - destruct (responses w); split; reflexivity.
Qed.

(** A program that makes sleeps and requests only does not read the
    database and leaves it as it is. *)
Lemma network_calls_ignore_database {A} (p : Prog A) (w : World)
    (d : DatabaseService.Database) :
  calls_only is_network_call p ->
  exec world_handler p (with_database d w)
  = (let '(r, w', t) := exec world_handler p w in (r, with_database d w', t)) /\
  database (state_of (exec world_handler p w)) = database w.
Proof.
  intros Hp. revert w.
  induction Hp as [a | e | c k Hc Hk IH]; intros w.
  - split; reflexivity.
  - split; reflexivity.
  - cbn [exec].
    destruct (network_call_ignores_database c w d Hc) as [-> Hdb].
    destruct (world_handler c w) as [r w1]. cbn [fst snd] in *.
    destruct (IH r w1) as [-> IH2]. unfold state_of in *.
    destruct (exec world_handler (k r) w1) as [[res w2] t].
    split; [reflexivity |]. simpl in *. congruence.
Qed.

Ltac walk_calls :=
  repeat (cbn [lift await mbind Prog_bind bind try_except id asyncio_sleep
               session_get];
          match goal with
          | |- calls_only _ (Ret _) => apply only_ret
          | |- calls_only _ (Raise _) => apply only_raise
          | |- calls_only _ (Do _ _) => apply only_do; [reflexivity | intros ?]
          | |- context [lift ?r] =>
              lazymatch r with
              | inl _ => fail
              | inr _ => fail
              | _ => destruct r
              end
          | |- context [match ?x with _ => _ end] => destruct x
          end).

Section NetworkOnly.
Variable settings : Settings.
Variable url : string.
Variables headers params : Dict.
Variable rate_limit : Z.
Variable keep : list Dict -> list Dict.

Lemma attempt_network_only (retry_count : Z) :
  calls_only is_network_call
    (Common.attempt settings url headers params rate_limit keep retry_count).
Proof.
  unfold Common.attempt, Common.raise_for_status, BasePipeline.calculate_backoff.
  walk_calls.
Qed.

Lemma retry_loop_network_only (fuel : nat) (retry_count : Z) :
  calls_only is_network_call
    (Common.retry_loop settings url headers params rate_limit keep fuel retry_count).
Proof.
  revert retry_count. induction fuel as [| fuel IH]; intros retry_count;
    cbn [Common.retry_loop];
    destruct (retry_count <? ETL_MAX_RETRIES settings)%Z; try apply only_raise.
  apply calls_only_bind; [apply attempt_network_only |].
  intros [all_data | retry_count']; [apply only_ret | apply IH].
Qed.

End NetworkOnly.

(** Of an [extract] against the service: with any other database it
    gives the same result by the same calls, consumes the same answers
    and sleeps the same; and it leaves the database as it is. *)
Definition ignores_database (extract : Prog (list Dict)) : Prop :=
  forall (w : World) (d : DatabaseService.Database),
    let x := exec world_handler extract w in
    let y := exec world_handler extract (with_database d w) in
    result_of y = result_of x /\
    trace_of y = trace_of x /\
    state_of y = with_database d (state_of x) /\
    database (state_of x) = database w.

(** X21. The checkpoint that [CoinPaprikaPipeline.extract] reads is not
    used: against the service, its result, its calls, the answers it
    consumes and its sleeps are the same whatever the database holds, a
    pending checkpoint included, and so it is for the CoinGecko pipeline,
    which reads none.  An [extract] writes nothing to the database. *)
Theorem extract_ignores_checkpoints (settings : Settings) :
  ignores_database (CoinPaprikaPipeline.extract settings) /\
  ignores_database (CoinGeckoPipeline.extract settings).
Proof.
  split; intros w d x y; subst x y.
  - unfold CoinPaprikaPipeline.extract. rewrite !exec_bind.
    destruct (exec_get_last_checkpoint CoinPaprikaPipeline.SOURCE_NAME w) as [ck ->].
    destruct (exec_get_last_checkpoint CoinPaprikaPipeline.SOURCE_NAME
                (with_database d w)) as [ck' ->].
    rewrite !exec_bind.
    destruct (network_calls_ignore_database (CoinPaprikaPipeline.fetch settings)
                (with_database (database w) w) d) as [H1 H2].
    { apply retry_loop_network_only. }
    change (with_database (database (with_database d w)) (with_database d w))
      with (with_database d (with_database (database w) w)).
    rewrite H1. unfold result_of, trace_of, state_of in *.
    destruct (exec world_handler (CoinPaprikaPipeline.fetch settings)
                (with_database (database w) w)) as [[[e | r] w1] t1];
      simpl in *; auto.
  - unfold CoinGeckoPipeline.extract. rewrite !exec_bind.
    destruct (network_calls_ignore_database (CoinGeckoPipeline.fetch settings) w d)
      as [H1 H2].
    { apply retry_loop_network_only. }
    rewrite H1. unfold result_of, trace_of, state_of in *.
    destruct (exec world_handler (CoinGeckoPipeline.fetch settings) w)
      as [[[e | r] w1] t1]; simpl in *; auto.
Qed.

(* ================================================================== *)
(** * The type warnings of the drift detector *)
(* ================================================================== *)

Section TypeWarnings.
Import BasePipeline.
Context {sim : StringSimilarity}.
Variable settings : Settings.
Variable expected_schema : Schema.
Variable sample_data : Dict.

(** The warning that the loop over the common keys adds for a key. *)
Definition mismatch_of (key : string) : option Warning :=
  match schema_lookup expected_schema key, dict_lookup sample_data key with
  | Some expected_type, Some actual_value =>
      match actual_value with
      | VNone => None
      | _ => if type_match expected_type actual_value then None
             else Some (TypeMismatch key expected_type (type_name actual_value))
      end
  | _, _ => None
  end.

Lemma type_step_mismatch_of (ws : list Warning) (key : string) :
  type_step expected_schema sample_data ws key
  = (ws ++ match mismatch_of key with Some w => [w] | None => [] end)%list.
Proof.
  unfold type_step, mismatch_of.
  destruct (schema_lookup expected_schema key) as [t |];
    [| rewrite app_nil_r; reflexivity].
  destruct (dict_lookup sample_data key) as [v |];
    [| rewrite app_nil_r; reflexivity].
  destruct v; try (rewrite app_nil_r; reflexivity);
    destruct (type_match t _); try (rewrite app_nil_r; reflexivity); reflexivity.
Qed.

Lemma type_step_fold_omap (keys : list string) (ws : list Warning) :
  fold_left (type_step expected_schema sample_data) keys ws
  = (ws ++ omap mismatch_of keys)%list.
Proof.
  revert ws. induction keys as [| key keys IH]; intros ws; simpl.
  - rewrite app_nil_r. reflexivity.
  - rewrite IH, type_step_mismatch_of, <- app_assoc.
    destruct (mismatch_of key); reflexivity.
Qed.

Lemma schema_lookup_In (key : string) (t : type_spec) :
  schema_lookup expected_schema key = Some t -> In (key, t) expected_schema.
Proof.
  induction expected_schema as [| [k t'] rest IH]; simpl; [discriminate |].
  destruct (String.eqb_spec k key) as [-> | _].
  - intros [= ->]. left. reflexivity.
  - intros H. right. apply IH, H.
Qed.

Lemma dict_lookup_In (key : string) (v : value) :
  dict_lookup sample_data key = Some v -> In key (dict_keys sample_data).
Proof.
  unfold dict_keys. induction sample_data as [| [k v'] rest IH]; simpl; [discriminate |].
  destruct (String.eqb_spec k key) as [-> | _].
  - intros _. left. reflexivity.
  - intros H. right. apply IH, H.
Qed.

Let expected : gset string := list_to_set (map fst expected_schema).
Let actual : gset string := list_to_set (dict_keys sample_data).
Let st : DriftState := drift_state settings expected_schema sample_data.

Lemma drift_state_warnings_exact :
  warnings st
  = (map (rename_hint (actual ∖ expected))
         (fuzzy_matched settings expected actual)
     ++ omap mismatch_of (elements (expected ∩ actual)))%list.
Proof.
  unfold st, drift_state. fold expected actual.
  rewrite fuzzy_step_fold. simpl. apply type_step_fold_omap.
Qed.

(** X22. The drift detector warns of a type mismatch for a key exactly
    when the key is in the expected schema and in the record, the value
    of the record is not [None] and is no instance of the expected type;
    the warning then names the key, the expected type and the class of
    the value.  A [None] never gives a warning, nor does a key that the
    schema does not have. *)
Theorem type_mismatch_warnings (key : string) (expected_type : type_spec)
    (got : string) :
  In (TypeMismatch key expected_type got) (warnings st) <->
  schema_lookup expected_schema key = Some expected_type /\
  exists actual_value,
    dict_lookup sample_data key = Some actual_value /\
    actual_value <> VNone /\
    type_match expected_type actual_value = false /\
    got = type_name actual_value.
Proof.
  rewrite drift_state_warnings_exact, in_app_iff. split.
  - intros [Hin | Hin].
    + apply in_map_iff in Hin as (m & Hm & _). discriminate.
    + apply list_elem_of_In, list_elem_of_omap in Hin as (k & _ & Hk).
      unfold mismatch_of in Hk.
      destruct (schema_lookup expected_schema k) as [t |] eqn:Hs; [| discriminate].
      destruct (dict_lookup sample_data k) as [v |] eqn:Hd; [| discriminate].
      destruct v; try discriminate;
        destruct (type_match t _) eqn:Hm; try discriminate;
        injection Hk as <- <- <-;
        (split; [exact Hs |]); eexists; (split; [exact Hd |]);
        (split; [discriminate |]); (split; [exact Hm | reflexivity]).
  - intros (Hs & v & Hd & Hv & Hm & ->). right.
    apply list_elem_of_In, list_elem_of_omap. exists key. split.
    + apply elem_of_elements, elem_of_intersection. split.
      * apply elem_of_list_to_set, list_elem_of_In.
        apply (in_map fst _ _ (schema_lookup_In _ _ Hs)).
      * apply elem_of_list_to_set, list_elem_of_In, (dict_lookup_In _ _ Hd).
    + unfold mismatch_of. rewrite Hs, Hd, Hm. destruct v; try reflexivity.
      contradiction.
Qed.

(** The record has every key of the schema, each with [None] or an
    instance of the expected type. *)
Definition conforms : bool :=
  forallb (fun entry =>
             match dict_lookup sample_data (fst entry) with
             | Some VNone => true
             | Some actual_value => type_match (snd entry) actual_value
             | None => false
             end) expected_schema.

Lemma conforms_mismatch_of (key : string) :
  conforms = true -> mismatch_of key = None.
Proof.
  intros Hc. unfold mismatch_of.
  destruct (schema_lookup expected_schema key) as [t |] eqn:Hs; [| reflexivity].
  apply schema_lookup_In in Hs.
  unfold conforms in Hc. rewrite forallb_forall in Hc. specialize (Hc _ Hs).
  simpl in Hc.
  destruct (dict_lookup sample_data key) as [v |]; [| reflexivity].
  destruct v; try reflexivity; rewrite Hc; reflexivity.
Qed.

Lemma conforms_no_missing_key : conforms = true -> expected ∖ actual = ∅.
Proof.
  intros Hc. apply set_eq. intros k. split; [| set_solver].
  intros Hk. apply elem_of_difference in Hk as [Hexp Hact]. exfalso. apply Hact.
  apply elem_of_list_to_set, list_elem_of_In, in_map_iff in Hexp
    as ([k' t] & <- & Hin).
  unfold conforms in Hc. rewrite forallb_forall in Hc. specialize (Hc _ Hin).
  simpl in *.
  destruct (dict_lookup sample_data k') as [v |] eqn:Hd; [| discriminate].
  apply elem_of_list_to_set, list_elem_of_In, (dict_lookup_In _ _ Hd).
Qed.

(** X23. A record that has every key of the expected schema, each with
    [None] or a value of the expected type, raises no warning, whatever
    other keys it has: the detector finds a confidence of 1 and makes no
    call, so nothing is logged. *)
Theorem conforming_record_is_silent {W : Type} (h : Handler W) (w : W)
    (SOURCE_NAME : string) :
  conforms = true ->
  warnings st = [] /\
  missing_keys st = ∅ /\
  (confidence st == 1)%Q /\
  exec h (detect_schema_drift settings SOURCE_NAME expected_schema sample_data) w
  = (inr tt, w, []).
Proof.
  intros Hc.
  assert (Hmissing : expected ∖ actual = ∅) by (apply conforms_no_missing_key, Hc).
  assert (Hw : warnings st = []).
  { rewrite drift_state_warnings_exact. unfold fuzzy_matched.
    rewrite Hmissing, elements_empty. simpl.
    induction (elements (expected ∩ actual)) as [| k ks IH]; [reflexivity |].
    simpl. rewrite (conforms_mismatch_of k Hc). exact IH. }
  split; [exact Hw |]. split.
  { destruct (drift_state_sets settings expected_schema sample_data) as (Hmk & _).
    etrans; [exact Hmk | exact Hmissing]. }
  split.
  - pose proof (drift_state_confidence settings expected_schema sample_data) as Hcf.
    destruct (drift_state_matched settings expected_schema sample_data) as [Hm _].
    destruct (drift_state_sets settings expected_schema sample_data) as (_ & _ & Ht).
    change (drift_state settings expected_schema sample_data) with st in Hcf, Hm, Ht.
    change (list_to_set (map fst expected_schema)) with expected in Hm, Ht.
    change (list_to_set (dict_keys sample_data)) with actual in Hm.
    rewrite Hcf, Hm, Ht.
    unfold fuzzy_matched. rewrite Hmissing, elements_empty. simpl.
    assert (Hsame : expected ∩ actual = expected).
    { apply set_eq. intros k. split; [set_solver |]. intros Hk.
      destruct (decide (k ∈ actual)); [set_solver |].
      assert (k ∈ expected ∖ actual) by set_solver. set_solver. }
    rewrite Hsame, Nat.add_0_r.
    destruct (0 <? size expected)%nat eqn:Hpos; [| reflexivity].
    apply Nat.ltb_lt in Hpos.
    field. unfold Qeq. simpl. lia.
  - unfold detect_schema_drift. fold st. rewrite Hw. reflexivity.
Qed.

End TypeWarnings.

Lemma conforming_record_is_silent_witness :
  let sim := difflib.SequenceMatcher in
  let schema := CoinPaprikaPipeline.get_expected_schema in
  let item := (bitcoin_ticker "BTC" ++ [("beta_value", VFloat (11 # 10))])%list in
  let st := BasePipeline.drift_state default_settings schema item in
  BasePipeline.warnings st = [] /\
  BasePipeline.missing_keys st = ∅ /\
  (BasePipeline.confidence st == 1)%Q /\
  exec world_handler
    (BasePipeline.detect_schema_drift default_settings "coinpaprika" schema item)
    fresh_world
  = (inr tt, fresh_world, []).
Proof.
  intros sim schema item.
  apply (conforming_record_is_silent (sim := sim) default_settings schema item
           world_handler fresh_world "coinpaprika").
  reflexivity.
Defined.

(* ================================================================== *)
(** * The cap of the backoff *)
(* ================================================================== *)

(** X24. Whatever the settings and the retry count, [calculate_backoff]
    makes no call, and a delay that it returns is at most
    [BACKOFF_MAX_DELAY] and is either that cap or
    [base_delay * factor^retry_count].  With a factor of zero and a
    negative retry count it returns no delay: the power raises a
    [ZeroDivisionError]. *)
Theorem calculate_backoff_capped (settings : Settings) (retry_count : Z)
    {W : Type} (h : Handler W) (w : W) :
  let x := exec h (BasePipeline.calculate_backoff settings retry_count) w in
  state_of x = w /\ trace_of x = [] /\
  (forall delay, result_of x = inr delay ->
     (delay <= BACKOFF_MAX_DELAY settings)%Q /\
     (delay = BACKOFF_MAX_DELAY settings \/
      delay = (BACKOFF_BASE_DELAY settings
               * BACKOFF_FACTOR settings ^ retry_count)%Q)) /\
  ((BACKOFF_FACTOR settings == 0)%Q -> (retry_count < 0)%Z ->
   result_of x
   = inl (ZeroDivisionError "0.0 cannot be raised to a negative power")).
Proof.
  intros x. subst x. unfold BasePipeline.calculate_backoff.
  rewrite exec_lift. unfold result_of, state_of, trace_of. cbn [fst snd].
  split; [reflexivity |]. split; [reflexivity |].
  unfold BasePipeline.backoff_delay, BasePipeline.py_pow.
  destruct (Qeq_bool (BACKOFF_FACTOR settings) 0) eqn:Hf;
    [destruct (Z.ltb_spec retry_count 0) as [Hneg | Hpos] |]; cbn [andb].
  - split; [intros delay [=] | reflexivity].
  - split; [| lia]. intros delay [= <-]. rewrite py_min_Qmin.
    split; [apply Q.le_min_r |].
    unfold Qmin, GenericMinMax.gmin. destruct (_ ?= _)%Q; auto.
  - split.
    + intros delay [= <-]. rewrite py_min_Qmin.
      split; [apply Q.le_min_r |].
      unfold Qmin, GenericMinMax.gmin. destruct (_ ?= _)%Q; auto.
    + intros Hzero. apply Qeq_bool_iff in Hzero. congruence.
Qed.

(* ================================================================== *)
(** * Reading the normalized data *)
(* ================================================================== *)

Section GetData.
Import DatabaseService.

(** The rows are in descending order of [last_updated]. *)
Fixpoint descending (rows : list NormalizedRecord) : Prop :=
  match rows with
  | [] => True
  | r :: rest =>
      Forall (fun r' => (last_updated r' <= last_updated r)%Z) rest /\
      descending rest
  end.

Lemma insert_by_last_updated_perm (row : NormalizedRecord)
    (sorted : list NormalizedRecord) :
  insert_by_last_updated row sorted ≡ₚ row :: sorted.
Proof.
  induction sorted as [| r rest IH]; simpl; [reflexivity |].
  destruct (last_updated r <? last_updated row)%Z; [reflexivity |].
  rewrite IH. apply Permutation_swap.
Qed.

Lemma insert_by_last_updated_descending (row : NormalizedRecord)
    (sorted : list NormalizedRecord) :
  descending sorted -> descending (insert_by_last_updated row sorted).
Proof.
  induction sorted as [| r rest IH]; simpl.
  - intros _. split; [constructor | exact I].
  - intros [Hle Hrest].
    destruct (Z.ltb_spec (last_updated r) (last_updated row)) as [Hlt | Hge].
    + simpl. split; [| split; assumption].
      constructor; [lia |].
      eapply Forall_impl; [exact Hle |]. intros x Hx. simpl in Hx. lia.
    + simpl. split; [| apply IH, Hrest].
      rewrite insert_by_last_updated_perm. constructor; assumption.
Qed.

Lemma order_by_fold (rows acc : list NormalizedRecord) :
  fold_left (fun sorted row => insert_by_last_updated row sorted) rows acc
  ≡ₚ (acc ++ rows)%list /\
  (descending acc ->
   descending (fold_left (fun sorted row => insert_by_last_updated row sorted)
                 rows acc)).
Proof.
  revert acc. induction rows as [| row rows IH]; intros acc; simpl.
  - rewrite app_nil_r. auto.
  - destruct (IH (insert_by_last_updated row acc)) as [Hperm Hdesc]. split.
    + rewrite Hperm, insert_by_last_updated_perm.
      rewrite (Permutation_middle acc rows row). reflexivity.
    + intros Hacc. apply Hdesc, insert_by_last_updated_descending, Hacc.
Qed.

Lemma order_by_last_updated_desc_perm (rows : list NormalizedRecord) :
  order_by_last_updated_desc rows ≡ₚ rows.
Proof. apply (order_by_fold rows []). Qed.

Lemma order_by_last_updated_desc_descending (rows : list NormalizedRecord) :
  descending (order_by_last_updated_desc rows).
Proof. apply (order_by_fold rows []). exact I. Qed.

Lemma descending_drop (n : nat) (rows : list NormalizedRecord) :
  descending rows -> descending (drop n rows).
Proof.
  revert n. induction rows as [| r rest IH]; intros [| n]; simpl; auto.
  intros [_ Hrest]. apply IH, Hrest.
Qed.

Lemma descending_take (n : nat) (rows : list NormalizedRecord) :
  descending rows -> descending (take n rows).
Proof.
  revert n. induction rows as [| r rest IH]; intros [| n]; simpl; auto.
  intros [Hle Hrest]. split; [apply Forall_take, Hle | apply IH, Hrest].
Qed.

Lemma descending_lookup (rows : list NormalizedRecord) (i j : nat)
    (ri rj : NormalizedRecord) :
  descending rows -> (i < j)%nat ->
  rows !! i = Some ri -> rows !! j = Some rj ->
  (last_updated rj <= last_updated ri)%Z.
Proof.
  revert i j. induction rows as [| r rest IH]; intros i j Hd Hij Hi Hj;
    [discriminate |].
  destruct Hd as [Hle Hrest]. destruct j as [| j]; [lia |].
  destruct i as [| i]; simpl in *.
  - injection Hi as <-. rewrite Forall_forall in Hle.
    apply Hle. eapply list_elem_of_lookup_2, Hj.
  - apply (IH i j Hrest ltac:(lia) Hi Hj).
Qed.

(** The row meets every condition that the filters hold. *)
Definition satisfies (filters : Filters) (row : NormalizedRecord) : Prop :=
  (forall s, filter_source filters = Some s -> source row = s) /\
  (forall s, filter_symbol filters = Some s -> symbol row = s) /\
  (forall p, filter_min_price filters = Some p -> (p <= price_usd row)%Q) /\
  (forall p, filter_max_price filters = Some p -> (price_usd row <= p)%Q).

Lemma where_sql_satisfies (filters : Filters) (row : NormalizedRecord) :
  where_sql filters row = true <-> satisfies filters row.
Proof.
  unfold where_sql, where_clauses, satisfies.
  destruct (filter_source filters) as [s |], (filter_symbol filters) as [y |],
    (filter_min_price filters) as [lo |], (filter_max_price filters) as [hi |];
    cbn [app forallb];
    rewrite ?andb_true_iff, ?andb_true_r, ?String.eqb_eq, ?Qle_bool_iff;
    split; intros H;
    repeat match goal with
    | H : _ /\ _ |- _ => destruct H
    | |- _ /\ _ => split
    | |- forall _, Some _ = Some _ -> _ => intros ? [= <-]
    | |- forall _, None = Some _ -> _ => intros ? [=]
    | H : forall x, Some ?a = Some x -> _ |- _ => specialize (H a eq_refl)
    end; auto.
Qed.

(** The rows that the WHERE clause selects. *)
Definition selected (filters : Filters) (d : Database) : list NormalizedRecord :=
  List.filter (where_sql filters) (crypto_data d).


Lemma page_of_selected (filters : Filters) (d : Database) (limit offset : nat) :
  take limit (drop offset (order_by_last_updated_desc (selected filters d)))
  ⊆+ selected filters d.
Proof.
  etrans; [apply sublist_submseteq, sublist_take |].
  etrans; [apply sublist_submseteq, sublist_drop |].
  apply Permutation_submseteq, order_by_last_updated_desc_perm.
Qed.

Lemma selected_satisfies (filters : Filters) (d : Database) (row : NormalizedRecord) :
  row ∈ selected filters d -> satisfies filters row.
Proof.
  intros Hin. apply where_sql_satisfies.
  apply list_elem_of_In, List.filter_In in Hin as [_ Hw]. exact Hw.
Qed.



(** X26. Whatever [get_data] returns, every row of the page is a row of
    [crypto_data], returned no more often than the table holds it, and
    meets every filter given: its source and its symbol are those asked
    for and its price is within the bounds.  The rows of the page are in
    descending order of [last_updated]. *)
Theorem get_data_rows (page page_size : Z) (filters : Filters) (d : Database)
    (result : DataPage) :
  get_data page page_size filters d = inr result ->
  page_data result ⊆+ crypto_data d /\
  Forall (satisfies filters) (page_data result) /\
  (forall i j ri rj, (i < j)%nat ->
     page_data result !! i = Some ri -> page_data result !! j = Some rj ->
     (last_updated rj <= last_updated ri)%Z).
Proof.
  unfold get_data, limit_offset.
  destruct (page_size <? 0)%Z; [discriminate |].
  destruct ((page - 1) * page_size <? 0)%Z; [discriminate |].
  destruct (py_floordiv _ _) as [e | total_pages]; [discriminate |].
  intros [= <-]. cbn [page_data].
  fold (selected filters d).
  pose proof (page_of_selected filters d (Z.to_nat page_size)
                (Z.to_nat ((page - 1) * page_size))) as Hsub.
  split; [| split].
  - etrans; [exact Hsub |]. unfold selected.
    apply sublist_submseteq. clear. induction (crypto_data d) as [| r rows IH]; simpl.
    + constructor.
    + destruct (where_sql filters r); [apply sublist_skip | apply sublist_cons];
        exact IH.
  - apply Forall_forall. intros row Hrow.
    apply (selected_satisfies filters d).
    eapply elem_of_submseteq; [exact Hrow | exact Hsub].
  - intros i j ri rj. apply descending_lookup.
    apply descending_take, descending_drop, order_by_last_updated_desc_descending.
Qed.

Lemma get_data_rows_witness :
  let d := set_crypto_data
             [example_record "BTC" 1; example_record "ETH" 2;
              example_record "BTC" 3] empty in
  let filters := {| filter_source := Some "csv"; filter_symbol := Some "BTC";
                    filter_min_price := Some 1%Q; filter_max_price := None |} in
  let result := {| page_data := [example_record "BTC" 3; example_record "BTC" 1];
                   page_total := 2; page_total_pages := 1 |} in
  page_data result ⊆+ crypto_data d /\
  Forall (satisfies filters) (page_data result) /\
  (forall i j ri rj, (i < j)%nat ->
     page_data result !! i = Some ri -> page_data result !! j = Some rj ->
     (last_updated rj <= last_updated ri)%Z).
Proof.
  intros d filters result.
  apply (get_data_rows 1 50 filters d result). reflexivity.
Defined.

End GetData.


(* ================================================================== *)
(** * Running a pipeline again *)
(* ================================================================== *)

Section RunAgain.
Import DatabaseService.





End RunAgain.


(* ================================================================== *)
(** * A drift that is detected *)
(* ================================================================== *)

Section DetectedDrift.
Import DatabaseService.
Context {lit : NumericLiterals} {sim : StringSimilarity}.
Variable settings : Settings.

(** The first record of the raw data raises a warning. *)
Definition drifts (schema : Schema) (raw : list Dict) : Prop :=
  match raw with
  | [] => False
  | first :: _ => BasePipeline.warnings (BasePipeline.drift_state settings schema first) <> []
  end.

Lemma check_drift_fails (src : string) (schema : Schema) (raw : list Dict)
    (w : World) :
  SCHEMA_DRIFT_ENABLED settings = true ->
  forallb (fun entry => json_serializable (snd entry)) schema = false ->
  drifts schema raw ->
  exists expected actual confidence warnings,
    exec world_handler (Common.check_drift settings src schema raw) w
    = (inl not_serializable, with_database (database w) w,
       [Ev (LogSchemaDrift src expected actual confidence warnings)
           (Some not_serializable)]).
Proof.
  intros Hen Hschema Hdrift. unfold Common.check_drift. rewrite Hen.
  destruct raw as [| first raw]; [destruct Hdrift |]. simpl in Hdrift.
  unfold BasePipeline.detect_schema_drift.
  destruct (BasePipeline.warnings (BasePipeline.drift_state settings schema first))
    as [| warning warnings] eqn:Hw; [contradiction |].
  cbn [BasePipeline.is_empty].
  unfold db.log_schema_drift, await. cbn [exec world_handler].
  unfold on_database, log_schema_drift. rewrite Hschema.
  eexists _, _, _, _. reflexivity.
Qed.

(** Of a [transform] and its expected schema against the service: when
    the first record raises a warning, the log of the drift is the only
    call; it raises the [TypeError] of [json.dumps], which [transform]
    raises in turn: no item is converted, the clock is not read and the
    database is as it was. *)
Definition fails_on_drift (src : string) (schema : Schema)
    (transform : list Dict -> Prog (list NormalizedRecord)) : Prop :=
  forall (w : World) (raw : list Dict),
    drifts schema raw ->
    let x := exec world_handler (transform raw) w in
    result_of x = inl not_serializable /\
    database (state_of x) = database w /\
    clock_reads (state_of x) = clock_reads w /\
    exists expected actual confidence warnings,
      trace_of x
      = [Ev (LogSchemaDrift src expected actual confidence warnings)
            (Some not_serializable)].

Lemma fails_on_drift_loop (src : string) (schema : Schema)
    (transform_item : Dict -> Prog NormalizedRecord) :
  SCHEMA_DRIFT_ENABLED settings = true ->
  forallb (fun entry => json_serializable (snd entry)) schema = false ->
  fails_on_drift src schema
    (fun raw => Common.check_drift settings src schema raw;;
                Common.transform_items transform_item raw []).
Proof.
  intros Hen Hschema w raw Hdrift x. subst x. rewrite exec_bind.
  destruct (check_drift_fails src schema raw w Hen Hschema Hdrift)
    as (ex & ac & cf & ws & ->).
  unfold result_of, state_of, trace_of. cbn [fst snd].
  split; [reflexivity |]. split; [reflexivity |]. split; [reflexivity |].
  eexists _, _, _, _. reflexivity.
Qed.

(** X29. A drift that is detected makes [transform] fail.  With the drift
    detection enabled, when the first raw record raises a warning (a
    rename hint or a type mismatch), [log_schema_drift] is called with
    the expected schema of the pipeline, whose values are classes:
    [json.dumps] raises a [TypeError] before anything is inserted, and
    the [transform] of each of the three pipelines raises it, having
    converted no item, whatever the other records are. *)
Theorem drift_warning_fails_transform :
  SCHEMA_DRIFT_ENABLED settings = true ->
  fails_on_drift "coingecko" CoinGeckoPipeline.get_expected_schema
    (CoinGeckoPipeline.transform settings) /\
  fails_on_drift "coinpaprika" CoinPaprikaPipeline.get_expected_schema
    (CoinPaprikaPipeline.transform settings) /\
  fails_on_drift "csv" CSVPipeline.get_expected_schema
    (CSVPipeline.transform settings).
Proof.
  intros Hen. split; [| split].
  - apply (fails_on_drift_loop "coingecko" CoinGeckoPipeline.get_expected_schema
             CoinGeckoPipeline.transform_item Hen). reflexivity.
  - apply (fails_on_drift_loop "coinpaprika" CoinPaprikaPipeline.get_expected_schema
             CoinPaprikaPipeline.transform_item Hen). reflexivity.
  - apply (fails_on_drift_loop "csv" CSVPipeline.get_expected_schema
             CSVPipeline.transform_item Hen). reflexivity.
Qed.

(** A run whose extraction returns data and whose [transform] raises:
    against the service it logs a failed run and raises the exception. *)
Lemma run_fails_in_transform (self : BasePipeline.Pipeline) (w w1 w2 : World)
    (raw : list Dict) (e : exn) (t1 t2 : list Event) :
  exec world_handler (BasePipeline.extract self)
    (snd (world_handler DatetimeNow w)) = (inr raw, w1, t1) ->
  raw <> [] ->
  exec world_handler (BasePipeline.transform self raw) w1 = (inl e, w2, t2) ->
  let x := exec world_handler (BasePipeline.run self) w in
  result_of x = inl e /\
  crypto_data (database (state_of x)) = crypto_data (database w2) /\
  (forall table, raw_rows table (database (state_of x))
                 = raw_rows table (database w2)) /\
  exists row,
    etl_runs (database (state_of x)) = (etl_runs (database w2) ++ [row])%list /\
    er_source row = BasePipeline.SOURCE_NAME self /\
    er_status row = "failed" /\
    er_records_processed row = 0%Z /\
    er_error_message row = Some (str_exn e).
Proof.
  intros Hextract Hraw Htransform x. subst x.
  unfold BasePipeline.run. cbn [mbind Prog_bind bind datetime_now exec].
  destruct (world_handler DatetimeNow w) as [started w0]. cbn [snd] in Hextract.
  rewrite exec_try_except.
  change (bind ?p ?f) with (p ≫= f).
  rewrite exec_bind, Hextract.
  destruct raw as [| item raw]; [contradiction |]. cbn [BasePipeline.is_empty].
  rewrite exec_bind, Htransform.
  unfold result_of, state_of. simpl.
  split; [reflexivity |]. split; [reflexivity |].
  split; [intros []; reflexivity |].
  eexists. split; [reflexivity |]. simpl. auto.
Qed.

(** Of a pipeline against the service: when its extraction returns data
    whose first record raises a warning, the run raises the [TypeError];
    it has stored no raw payload and no normalized record, and has logged
    a failed run with the message of the exception. *)
Definition run_fails_on_drift (self : BasePipeline.Pipeline) : Prop :=
  forall (w w1 : World) (raw : list Dict) (t1 : list Event),
    exec world_handler (BasePipeline.extract self)
      (snd (world_handler DatetimeNow w)) = (inr raw, w1, t1) ->
    drifts (BasePipeline.get_expected_schema self) raw ->
    let x := exec world_handler (BasePipeline.run self) w in
    result_of x = inl not_serializable /\
    crypto_data (database (state_of x)) = crypto_data (database w1) /\
    (forall table, raw_rows table (database (state_of x))
                   = raw_rows table (database w1)) /\
    exists row,
      etl_runs (database (state_of x)) = (etl_runs (database w1) ++ [row])%list /\
      er_source row = BasePipeline.SOURCE_NAME self /\
      er_status row = "failed" /\
      er_records_processed row = 0%Z /\
      er_error_message row = Some "Object of type type is not JSON serializable".

Lemma run_fails_on_drift_of (self : BasePipeline.Pipeline) :
  fails_on_drift (BasePipeline.SOURCE_NAME self)
    (BasePipeline.get_expected_schema self) (BasePipeline.transform self) ->
  run_fails_on_drift self.
Proof.
  intros Hfail w w1 raw t1 Hextract Hdrift x.
  destruct (Hfail w1 raw Hdrift) as (Hres & Hdb & _ & ex & ac & cf & ws & Htrace).
  assert (Hraw : raw <> []) by (destruct raw; [destruct Hdrift | discriminate]).
  destruct (exec world_handler (BasePipeline.transform self raw) w1)
    as [[r w2] t2] eqn:Htransform.
  unfold result_of, state_of in Hres, Hdb. cbn [fst snd] in Hres, Hdb. subst r.
  destruct (run_fails_in_transform self w w1 w2 raw not_serializable t1 t2
              Hextract Hraw Htransform) as (Hr & Hc & Hrr & row & Hruns & Hrow).
  fold x in Hr, Hc, Hrr, Hruns. rewrite Hdb in Hc, Hrr, Hruns.
  split; [exact Hr |]. split; [exact Hc |]. split; [exact Hrr |].
  exists row. split; [exact Hruns | exact Hrow].
Qed.

(** X30. One drifting record fails the whole run.  With the drift
    detection enabled, when the extraction of a pipeline returns data
    whose first record raises a drift warning, [run] raises the
    [TypeError] of the drift log: no raw payload and no normalized record
    of the batch is stored, and the run is logged as failed with no
    record processed. *)
Theorem drift_warning_fails_run :
  SCHEMA_DRIFT_ENABLED settings = true ->
  run_fails_on_drift (CoinGeckoPipeline.pipeline settings) /\
  run_fails_on_drift (CoinPaprikaPipeline.pipeline settings) /\
  run_fails_on_drift (CSVPipeline.pipeline settings).
Proof.
  intros Hen. split; [| split]; apply run_fails_on_drift_of.
  - apply (fails_on_drift_loop "coingecko" CoinGeckoPipeline.get_expected_schema
             CoinGeckoPipeline.transform_item Hen). reflexivity.
  - apply (fails_on_drift_loop "coinpaprika" CoinPaprikaPipeline.get_expected_schema
             CoinPaprikaPipeline.transform_item Hen). reflexivity.
  - apply (fails_on_drift_loop "csv" CSVPipeline.get_expected_schema
             CSVPipeline.transform_item Hen). reflexivity.
Qed.

End DetectedDrift.

(** A ticker of CoinPaprika whose rank is a string. *)
Definition ticker_with_string_rank : Dict :=
  [("id", VStr "btc-bitcoin"); ("name", VStr "Bitcoin"); ("symbol", VStr "BTC");
   ("rank", VStr "1");
   ("quotes", VDict [("USD", VDict [("price", VFloat (90001 # 2))])])].

Lemma drift_warning_fails_transform_witness :
  let lit := PlainLiterals.literals in
  let sim := difflib.SequenceMatcher in
  let x := exec world_handler
             (CoinPaprikaPipeline.transform default_settings
                [ticker_with_string_rank; bitcoin_ticker "BTC"]) fresh_world in
  result_of x = inl not_serializable /\
  database (state_of x) = database fresh_world /\
  clock_reads (state_of x) = clock_reads fresh_world /\
  exists expected actual confidence warnings,
    trace_of x
    = [Ev (LogSchemaDrift "coinpaprika" expected actual confidence warnings)
          (Some not_serializable)].
Proof.
  intros lit sim.
  destruct (drift_warning_fails_transform (lit := lit) (sim := sim)
              default_settings ltac:(reflexivity)) as (_ & Hpaprika & _).
  apply (Hpaprika fresh_world [ticker_with_string_rank; bitcoin_ticker "BTC"]).
  vm_compute. discriminate.
Defined.

(** A fresh world in which the CSV file has one row, without the column
    of the rank. *)
Definition csv_world_without_rank : World :=
  {| database := DatabaseService.empty;
     clock := fun n => Z.of_nat n;
     clock_reads := 0;
     responses := [];
     files := [(CSV_FILE_PATH default_settings,
                [[("symbol", VStr "BTC"); ("name", VStr "Bitcoin");
                  ("price", VStr "45000.50"); ("market_cap", VStr "850000000000");
                  ("volume_24h", VStr "25000000000");
                  ("percent_change_24h", VStr "2.5"); ("rnk", VStr "1")]])];
     slept := [] |}.

Lemma drift_warning_fails_run_witness :
  let lit := PlainLiterals.literals in
  let sim := difflib.SequenceMatcher in
  let w := csv_world_without_rank in
  let x := exec world_handler
             (BasePipeline.run (CSVPipeline.pipeline default_settings)) w in
  result_of x = inl not_serializable /\
  DatabaseService.crypto_data (database (state_of x)) = [] /\
  (forall table, DatabaseService.raw_rows table (database (state_of x)) = []) /\
  exists row,
    DatabaseService.etl_runs (database (state_of x)) = ([] ++ [row])%list /\
    DatabaseService.er_source row = "csv" /\
    DatabaseService.er_status row = "failed" /\
    DatabaseService.er_records_processed row = 0%Z /\
    DatabaseService.er_error_message row
    = Some "Object of type type is not JSON serializable".
Proof.
  intros lit sim w.
  destruct (drift_warning_fails_run (lit := lit) (sim := sim)
              default_settings ltac:(reflexivity)) as (_ & _ & Hcsv).
  pose proof (Hcsv w) as H.
  specialize (H (snd (world_handler DatetimeNow w))
                [[("symbol", VStr "BTC"); ("name", VStr "Bitcoin");
                  ("price", VStr "45000.50"); ("market_cap", VStr "850000000000");
                  ("volume_24h", VStr "25000000000");
                  ("percent_change_24h", VStr "2.5"); ("rnk", VStr "1")]]
                [Ev (PathExists (CSV_FILE_PATH default_settings)) None;
                 Ev (ReadCsv (CSV_FILE_PATH default_settings)) None]
                ltac:(reflexivity) ltac:(vm_compute; discriminate)).
  destruct H as (Hr & Hc & Hrr & Hrow).
  split; [exact Hr |]. split; [exact Hc |].
  split; [intros table; rewrite Hrr; destruct table; reflexivity | exact Hrow].
Defined.
